(** * lut3d: 3D lookup-table colour filter (libavfilter/vf_lut3d.c)

    A shallow embedding of the filter: the interpolation engine, the four
    LUT file parsers, [init] and the per-frame pixel loop, followed by the
    properties established about them.

    Numbers.  C [int] is a [Z] kept inside the 32-bit range; an operation
    whose result leaves the range is undefined behaviour and makes the
    enclosing computation return [None].  C [float] and [double] values are
    taken from one carrier [num] with the operations of the class
    [FloatArith]; the code is written once over the class and read in two
    ways:
    - [B32_arith] IEEE-754 binary32 / binary64 as specified by the standard
                  library's [SpecFloat]: the arithmetic of the program;
    - [Q_arith]   exact rational arithmetic (no rounding, no infinities):
                  what the program would compute without rounding, used
                  as a second reading and for small examples.
    Statements hold for every instance of the class unless they name
    one.

    Memory.  [lut3d->lut] is a [MAX_LEVEL]^3 array; it is a finite map from
    index triples to samples, a cell never written reads as zero (the
    filter context is zero-filled by the framework when it is allocated),
    and an index outside [0, MAX_LEVEL) is undefined behaviour ([None]). *)

From Stdlib Require Import ZArith QArith Qminmax Qround Lqa Lia String Ascii List.
From Stdlib Require Import Floats.SpecFloat.
From stdpp Require Import gmap.
Import ListNotations.

Local Open Scope string_scope.
Local Open Scope Z_scope.

(** ** C integers *)

Definition INT_MIN : Z := -2147483648.
Definition INT_MAX : Z := 2147483647.

(** The value of an [int] expression: defined only inside the range. *)
Definition as_int (z : Z) : option Z :=
  if (INT_MIN <=? z) && (z <=? INT_MAX) then Some z else None.

(** Conversion of a wider integer ([long]) to [int]: reduction modulo 2^32. *)
Definition wrap_int (z : Z) : Z :=
  (z + 2147483648) mod 4294967296 - 2147483648.

(** ** C strings and the library routines the parsers call

    A C string is a [string]; [p + n] on a [char *] is [string_drop n p]. *)

Fixpoint string_drop (n : nat) (s : string) : string :=
  match n, s with
  | S n', String _ s' => string_drop n' s'
  | _, _ => s
  end.

(** [isspace] in the C locale, which is also libavutil's [av_isspace]
    (libavutil/avstring.h is not part of the modelled file): space, form
    feed, newline, carriage return, horizontal and vertical tab. *)
Definition av_isspace (c : ascii) : bool :=
  let n := N_of_ascii c in
  (n =? 32)%N || (n =? 12)%N || (n =? 10)%N || (n =? 13)%N || (n =? 9)%N
  || (n =? 11)%N.

(** [while (av_isspace( *p )) p++] *)
Fixpoint skip_spaces (p : string) : string :=
  match p with
  | String c p' => if av_isspace c then skip_spaces p' else p
  | EmptyString => p
  end.

(** [while ( *p && !av_isspace( *p )) p++] *)
Fixpoint skip_nonspaces (p : string) : string :=
  match p with
  | String c p' => if av_isspace c then p else skip_nonspaces p'
  | EmptyString => p
  end.

(** [strncmp(s1, s2, n) == 0] *)
Fixpoint strncmp_zero (s1 s2 : string) (n : nat) : bool :=
  match n with
  | O => true
  | S n' =>
      match s1, s2 with
      | EmptyString, EmptyString => true
      | String c1 s1', String c2 s2' =>
          Ascii.eqb c1 c2 && strncmp_zero s1' s2' n'
      | _, _ => false
      end
  end.

Definition av_tolower (c : ascii) : ascii :=
  let n := N_of_ascii c in
  if (65 <=? n)%N && (n <=? 90)%N then ascii_of_N (n + 32) else c.

(** [av_strcasecmp(a, b) == 0] *)
Fixpoint av_strcasecmp_zero (a b : string) : bool :=
  match a, b with
  | EmptyString, EmptyString => true
  | String c1 a', String c2 b' =>
      Ascii.eqb (av_tolower c1) (av_tolower c2) && av_strcasecmp_zero a' b'
  | _, _ => false
  end.

(** [strrchr(s, c)]: the suffix of [s] that starts at the last [c]. *)
Fixpoint strrchr (s : string) (c : ascii) : option string :=
  match s with
  | EmptyString => None
  | String c1 s' =>
      match strrchr s' c with
      | Some t => Some t
      | None => if Ascii.eqb c1 c then Some s else None
      end
  end.

(** The value of a digit or letter in [strtol]'s sense. *)
Definition digit_val (c : ascii) : option Z :=
  let n := Z.of_N (N_of_ascii c) in
  if (48 <=? n) && (n <=? 57) then Some (n - 48)
  else if (97 <=? n) && (n <=? 122) then Some (n - 87)
  else if (65 <=? n) && (n <=? 90) then Some (n - 55)
  else None.

(** The longest run of digits of [base] at the head of [s]: its value on
    top of [acc], how many digits it has, and what follows it. *)
Fixpoint scan_digits (base : Z) (s : string) (acc : Z) (n : nat)
  : Z * nat * string :=
  match s with
  | String c s' =>
      match digit_val c with
      | Some d => if d <? base then scan_digits base s' (acc * base + d) (S n)
                  else (acc, n, s)
      | None => (acc, n, s)
      end
  | EmptyString => (acc, n, s)
  end.

Definition LONG_MIN : Z := - 2 ^ 63.
Definition LONG_MAX : Z := 2 ^ 63 - 1.
Definition clamp_long (z : Z) : Z := Z.max LONG_MIN (Z.min LONG_MAX z).

Definition scan_sign (s : string) : bool * string :=
  match s with
  | String "-" s' => (true, s')
  | String "+" s' => (false, s')
  | _ => (false, s)
  end.

Definition is_hex_prefix (s : string) : bool :=
  match s with
  | String "0" (String x (String d _)) =>
      (Ascii.eqb x "x" || Ascii.eqb x "X")
      && match digit_val d with Some v => v <? 16 | None => false end
  | _ => false
  end.

(** [strtol(nptr, NULL, 0)]: white space, a sign, then a hexadecimal
    ([0x]), octal ([0]) or decimal number; 0 when there is no number, and
    the nearest [long] when the number does not fit. *)
Definition strtol0 (nptr : string) : Z :=
  let '(neg, s) := scan_sign (skip_spaces nptr) in
  let '(v, _, _) :=
    if is_hex_prefix s then scan_digits 16 (string_drop 2 s) 0 O
    else match s with
         | String "0" _ => scan_digits 8 s 0 O
         | _ => scan_digits 10 s 0 O
         end in
  clamp_long (if neg then - v else v).

(** The [%d] conversion of scanf on input that starts at a non-space
    character: an optionally signed decimal number, stored in an [int]. *)
Definition scan_int (s : string) : option (Z * string) :=
  let '(neg, s1) := scan_sign s in
  let '(v, n, rest) := scan_digits 10 s1 0 O in
  match n with
  | O => None
  | _ => Some (wrap_int (clamp_long (if neg then - v else v)), rest)
  end.

(** What the [%f] conversion of scanf reads, as the C library does it: an
    optional sign, then [nan], [inf] or [infinity] in any case, or a
    hexadecimal literal [0x h.hh p[+-]dd], or a decimal literal
    [d.dd e[+-]dd].  The characters are taken one by one as long as they
    can continue a number, and the value is that of the longest numeric
    prefix of what was taken: an exponent letter that follows a digit is
    consumed, with a sign after it, even when no exponent digit follows;
    [0x] with neither digit nor point is a matching failure, [0x.] is
    zero. *)
Inductive scanned :=
  | Sc_num (neg : bool) (m e10 e2 : Z)   (* (-1)^neg * m * 10^e10 * 2^e2 *)
  | Sc_inf (neg : bool)
  | Sc_nan.

(** [w], given in lower case, at the head of [s], whatever the case. *)
Fixpoint match_word (w s : string) : option string :=
  match w with
  | EmptyString => Some s
  | String cw w' =>
      match s with
      | String c s' =>
          if Ascii.eqb (av_tolower c) cw then match_word w' s' else None
      | EmptyString => None
      end
  end.

(** Digits, then possibly a point and more digits: the digits read as one
    integer, how many stand before and after the point, whether there is
    a point, and what follows. *)
Definition scan_mantissa (base : Z) (s : string)
  : Z * nat * nat * bool * string :=
  let '(m1, n1, s2) := scan_digits base s 0 O in
  match s2 with
  | String "." s2' =>
      let '(m, n2, s3) := scan_digits base s2' m1 O in (m, n1, n2, true, s3)
  | _ => (m1, n1, O, false, s2)
  end.

(** The exponent part after a mantissa that has a digit. *)
Definition scan_exponent (exp_char : ascii) (s : string) : Z * string :=
  match s with
  | String x s1 =>
      if Ascii.eqb (av_tolower x) exp_char then
        let '(eneg, s2) := scan_sign s1 in
        let '(ev, _, s3) := scan_digits 10 s2 0 O in
        (if eneg then - ev else ev, s3)
      else (0, s)
  | EmptyString => (0, s)
  end.

Definition scan_number (s : string) : option (scanned * string) :=
  let '(neg, s1) := scan_sign s in
  match s1 with
  | EmptyString => None
  | String c1 s1' =>
      if Ascii.eqb (av_tolower c1) "n" then
        match match_word "an" s1' with
        | Some rest => Some (Sc_nan, rest)
        | None => None
        end
      else if Ascii.eqb (av_tolower c1) "i" then
        match match_word "nf" s1' with
        | Some (String c2 rest' as rest) =>
            if Ascii.eqb (av_tolower c2) "i" then
              match match_word "nity" rest' with
              | Some rest2 => Some (Sc_inf neg, rest2)
              | None => None
              end
            else Some (Sc_inf neg, rest)
        | Some EmptyString => Some (Sc_inf neg, EmptyString)
        | None => None
        end
      else if Ascii.eqb c1 "0"
              && match s1' with
                 | String x _ => Ascii.eqb (av_tolower x) "x"
                 | EmptyString => false
                 end then
        let '(m, n1, n2, dot, s3) := scan_mantissa 16 (string_drop 1 s1') in
        match (n1 + n2)%nat with
        | O => if dot then Some (Sc_num neg 0 0 0, s3) else None
        | _ =>
            let '(e, s4) := scan_exponent "p" s3 in
            Some (Sc_num neg m 0 (e - 4 * Z.of_nat n2), s4)
        end
      else
        let '(m, n1, n2, _, s3) := scan_mantissa 10 s1 in
        match (n1 + n2)%nat with
        | O => None
        | _ =>
            let '(e, s4) := scan_exponent "e" s3 in
            Some (Sc_num neg m (e - Z.of_nat n2) 0, s4)
        end
  end.

(** [sscanf(str, "%X %X %X", &a, &b, &c)] for one conversion [conv] used
    three times: each directive skips white space, then converts.  The
    result is the return value and the values assigned, in order: the
    return value is the number of values assigned, or [EOF] when the input
    ends before the first conversion. *)
Definition C_EOF : Z := -1.

Fixpoint sscanf_rep {X : Type} (conv : string -> option (X * string))
    (n : nat) (str : string) (got : list X) : Z * list X :=
  match n with
  | O => (Z.of_nat (length got), got)
  | S n' =>
      match skip_spaces str with
      | EmptyString =>
          (match got with [] => C_EOF | _ => Z.of_nat (length got) end, got)
      | str' =>
          match conv str' with
          | Some (x, rest) => sscanf_rep conv n' rest (got ++ [x])
          | None => (Z.of_nat (length got), got)
          end
      end
  end.

Definition sscanf3 {X : Type} (conv : string -> option (X * string))
    (str : string) : Z * list X :=
  sscanf_rep conv 3 str [].

(** The three targets of [sscanf3] after the call: those that were
    assigned hold the new values, the others keep what they held. *)
Definition assign3 {X : Type} (old : X * X * X) (new : list X) : X * X * X :=
  let '(o0, o1, o2) := old in
  match new with
  | [] => (o0, o1, o2)
  | [x0] => (x0, o1, o2)
  | [x0; x1] => (x0, x1, o2)
  | x0 :: x1 :: x2 :: _ => (x0, x1, x2)
  end.

(** ** Files

    An open [FILE] is the list of the buffers that successive calls of
    [fgets(line, sizeof(line), f)] will return.  [fgets_split] computes it
    from the contents of a file: a buffer ends after a newline or when it
    holds [MAX_LINE_SIZE - 1] characters. *)

Definition MAX_LINE_SIZE : nat := 512.

Definition FILE : Type := list string.

Definition fgets (f : FILE) : option (string * FILE) :=
  match f with
  | [] => None
  | line :: f' => Some (line, f')
  end.

Fixpoint fgets_chunks (room : nat) (acc : list ascii) (s : string) : FILE :=
  match s with
  | EmptyString =>
      match acc with
      | [] => []
      | _ => [string_of_list_ascii (rev acc)]
      end
  | String c s' =>
      if Ascii.eqb c "010" || (room <=? 1)%nat
      then string_of_list_ascii (rev (c :: acc))
           :: fgets_chunks (MAX_LINE_SIZE - 1) [] s'
      else fgets_chunks (room - 1) (c :: acc) s'
  end.

Definition fgets_split (contents : string) : FILE :=
  fgets_chunks (MAX_LINE_SIZE - 1) [] contents.

(** [skip_line]: the line is blank or a comment. *)
Fixpoint skip_line (p : string) : bool :=
  match p with
  | EmptyString => true
  | String c p' => if av_isspace c then skip_line p' else Ascii.eqb c "#"
  end.

(** [NEXT_LINE(loop_cond)]: read lines while [loop_cond] holds of the line
    read; [None] is the branch that logs "Unexpected EOF" and returns. *)
Fixpoint NEXT_LINE (loop_cond : string -> bool) (f : FILE)
  : option (string * FILE) :=
  match f with
  | [] => None
  | line :: f' =>
      if loop_cond line then NEXT_LINE loop_cond f' else Some (line, f')
  end.

(** ** Error codes and log

    [AVERROR(e)] is [-e]; [AVERROR_INVALIDDATA] is libavutil's tagged
    constant (libavutil/error.h is not part of the modelled file). *)

Definition AVERROR (e : Z) : Z := - e.
Definition EINVAL : Z := 22.
Definition ENOMEM : Z := 12.
Definition AVERROR_INVALIDDATA : Z := -1094995529.

(** What [av_log(ctx, AV_LOG_ERROR, fmt, ...)] is called with. *)
Inductive log_arg :=
  | Arg_string (s : string)
  | Arg_err2str (ret : Z).

Record log_entry := mk_log { log_fmt : string; log_args : list log_arg }.

(** ** Control flow of a loop body: fall through to the next iteration, or
    [return ret] from the enclosing function. *)

Inductive flow (S : Type) :=
  | Continue (s : S)
  | Return (ret : Z) (s : S).
Arguments Continue {S} s.
Arguments Return {S} ret s.

Fixpoint for_loop {S : Type} (n : nat) (i : Z)
    (body : Z -> S -> option (flow S)) (s : S) : option (flow S) :=
  match n with
  | O => Some (Continue s)
  | S n' =>
      match body i s with
      | Some (Continue s') => for_loop n' (i + 1) body s'
      | other => other
      end
  end.

(** [for (i = 0; i < size; i++) body] *)
Definition for_upto {S : Type} (size : Z)
    (body : Z -> S -> option (flow S)) (s : S) : option (flow S) :=
  for_loop (Z.to_nat size) 0 body s.

(** [for (k ...) for (j ...) for (i ...) body], the nest every loader has. *)
Definition for_kji {S : Type} (size : Z)
    (body : Z -> Z -> Z -> S -> option (flow S)) (s : S) : option (flow S) :=
  for_upto size (fun k =>
    for_upto size (fun j =>
      for_upto size (fun i => body k j i))) s.

(** ** Floating-point interface *)

Class FloatArith (num : Type) := {
  int_to_float  : Z -> num;            (* (float)i *)
  int_to_double : Z -> num;            (* (double)i *)
  double_to_float : num -> num;        (* (float)d; float to double is the identity *)
  fadd : num -> num -> num;            (* float  + *)
  fsub : num -> num -> num;            (* float  - *)
  fmul : num -> num -> num;            (* float  * *)
  fdiv : num -> num -> num;            (* float  / *)
  dadd : num -> num -> num;            (* double + *)
  dmul : num -> num -> num;            (* double * *)
  ddiv : num -> num -> num;            (* double / *)
  flt  : num -> num -> bool;           (* x < y *)
  to_int : num -> option Z;            (* (int)x: truncation, None outside int *)
  scan_float : string -> option (num * string)
    (* the %f conversion of scanf on input that starts at a non-space
       character: the value of the floating-point literal the input begins
       with and the rest of the input, None when it begins with none *)
}.

Definition MAX_LEVEL : Z := 36.

Inductive interp_mode :=
  | INTERPOLATE_NEAREST
  | INTERPOLATE_TRILINEAR
  | INTERPOLATE_TETRAHEDRAL.

Section Lut3d.

Context {num : Type} {FA : FloatArith num}.

Record rgbvec := mk_rgbvec { r : num; g : num; b : num }.

(** [struct LUT3DContext].  The two function pointers hold the name of the
    interpolation routine they were set to ([None] for a null pointer);
    [rgba_map] is the four offsets R, G, B, A. *)
Record LUT3DContext := mk_LUT3DContext {
  interpolation : interp_mode;
  file : option string;
  rgba_map : Z * Z * Z * Z;
  step : Z;
  is16bit : bool;
  interp_8 : option interp_mode;
  interp_16 : option interp_mode;
  lut : gmap (Z * Z * Z) rgbvec;
  lutsize : Z
}.

Definition f_zero : num := int_to_float 0.
Definition f_one : num := int_to_float 1.

Definition rgb_zero : rgbvec := mk_rgbvec f_zero f_zero f_zero.

Definition in_array (i : Z) : bool := (0 <=? i) && (i <? MAX_LEVEL).

(** [lut3d->lut[i][j][k]] read as an rvalue. *)
Definition lut_at (lut3d : LUT3DContext) (i j k : Z) : option rgbvec :=
  if in_array i && in_array j && in_array k
  then Some (default rgb_zero (lut lut3d !! (i, j, k)))
  else None.

(** [lut3d->lut[i][j][k] = v]. *)
Definition lut_set (lut3d : LUT3DContext) (i j k : Z) (v : rgbvec)
  : option LUT3DContext :=
  if in_array i && in_array j && in_array k
  then Some (mk_LUT3DContext (interpolation lut3d) (file lut3d)
               (rgba_map lut3d) (step lut3d) (is16bit lut3d)
               (interp_8 lut3d) (interp_16 lut3d)
               (<[(i, j, k) := v]> (lut lut3d)) (lutsize lut3d))
  else None.

Definition set_lutsize (lut3d : LUT3DContext) (size : Z) : LUT3DContext :=
  mk_LUT3DContext (interpolation lut3d) (file lut3d)
    (rgba_map lut3d) (step lut3d) (is16bit lut3d)
    (interp_8 lut3d) (interp_16 lut3d) (lut lut3d) size.

(** ** Interpolation engine *)

Definition lerpf (v0 v1 f : num) : num :=
  fadd v0 (fmul (fsub v1 v0) f).

Definition lerp (v0 v1 : rgbvec) (f : num) : rgbvec :=
  mk_rgbvec (lerpf (r v0) (r v1) f) (lerpf (g v0) (g v1) f)
            (lerpf (b v0) (b v1) f).

(** The double constant [.5]. *)
Definition d_half : num := ddiv (int_to_double 1) (int_to_double 2).

(** [#define NEAR(x) ((int)((x) + .5))]: the sum is a double sum. *)
Definition NEAR (x : num) : option Z := to_int (dadd x d_half).
(** [#define PREV(x) ((int)(x))] *)
Definition PREV (x : num) : option Z := to_int x.
(** [#define NEXT(x) ((int)(x) + 1)] *)
Definition NEXT (x : num) : option Z := i ← to_int x; as_int (i + 1).

Definition interp_nearest (lut3d : LUT3DContext) (s : rgbvec) : option rgbvec :=
  ir ← NEAR (r s); ig ← NEAR (g s); ib ← NEAR (b s);
  lut_at lut3d ir ig ib.

(** The fractional remainder [{s->r - PREV(s->r), ...}] and the eight
    samples [c000 .. c111] that both interpolations begin with. *)
Definition remainder (s : rgbvec) : option rgbvec :=
  pr ← PREV (r s); pg ← PREV (g s); pb ← PREV (b s);
  Some (mk_rgbvec (fsub (r s) (int_to_float pr))
                  (fsub (g s) (int_to_float pg))
                  (fsub (b s) (int_to_float pb))).

Definition interp_trilinear (lut3d : LUT3DContext) (s : rgbvec) : option rgbvec :=
  d ← remainder s;
  pr ← PREV (r s); pg ← PREV (g s); pb ← PREV (b s);
  nr ← NEXT (r s); ng ← NEXT (g s); nb ← NEXT (b s);
  c000 ← lut_at lut3d pr pg pb;
  c001 ← lut_at lut3d pr pg nb;
  c010 ← lut_at lut3d pr ng pb;
  c011 ← lut_at lut3d pr ng nb;
  c100 ← lut_at lut3d nr pg pb;
  c101 ← lut_at lut3d nr pg nb;
  c110 ← lut_at lut3d nr ng pb;
  c111 ← lut_at lut3d nr ng nb;
  let c00 := lerp c000 c100 (r d) in
  let c10 := lerp c010 c110 (r d) in
  let c01 := lerp c001 c101 (r d) in
  let c11 := lerp c011 c111 (r d) in
  let c0 := lerp c00 c10 (g d) in
  let c1 := lerp c01 c11 (g d) in
  let c := lerp c0 c1 (b d) in
  Some c.

(** [w0 * x0 + w1 * x1 + w2 * x2 + w3 * x3], evaluated left to right as C
    does. *)
Definition sum4 (w0 x0 w1 x1 w2 x2 w3 x3 : num) : num :=
  fadd (fadd (fadd (fmul w0 x0) (fmul w1 x1)) (fmul w2 x2)) (fmul w3 x3).

(** [x > y] *)
Definition fgt (x y : num) : bool := flt y x.

Definition interp_tetrahedral (lut3d : LUT3DContext) (s : rgbvec) : option rgbvec :=
  d ← remainder s;
  pr ← PREV (r s); pg ← PREV (g s); pb ← PREV (b s);
  nr ← NEXT (r s); ng ← NEXT (g s); nb ← NEXT (b s);
  c000 ← lut_at lut3d pr pg pb;
  c001 ← lut_at lut3d pr pg nb;
  c010 ← lut_at lut3d pr ng pb;
  c011 ← lut_at lut3d pr ng nb;
  c100 ← lut_at lut3d nr pg pb;
  c101 ← lut_at lut3d nr pg nb;
  c110 ← lut_at lut3d nr ng pb;
  c111 ← lut_at lut3d nr ng nb;
  let one := int_to_float 1 in
  Some
    (if fgt (r d) (g d) then
       if fgt (g d) (b d) then
         mk_rgbvec
           (sum4 (fsub one (r d)) (r c000) (fsub (r d) (g d)) (r c100) (fsub (g d) (b d)) (r c110) (b d) (r c111))
           (sum4 (fsub one (r d)) (g c000) (fsub (r d) (g d)) (g c100) (fsub (g d) (b d)) (g c110) (b d) (g c111))
           (sum4 (fsub one (r d)) (b c000) (fsub (r d) (g d)) (b c100) (fsub (g d) (b d)) (b c110) (b d) (b c111))
       else if fgt (r d) (b d) then
         mk_rgbvec
           (sum4 (fsub one (r d)) (r c000) (fsub (r d) (b d)) (r c100) (fsub (b d) (g d)) (r c101) (g d) (r c111))
           (sum4 (fsub one (r d)) (g c000) (fsub (r d) (b d)) (g c100) (fsub (b d) (g d)) (g c101) (g d) (g c111))
           (sum4 (fsub one (r d)) (b c000) (fsub (r d) (b d)) (b c100) (fsub (b d) (g d)) (b c101) (g d) (b c111))
       else
         mk_rgbvec
           (sum4 (fsub one (b d)) (r c000) (fsub (b d) (r d)) (r c001) (fsub (r d) (g d)) (r c101) (g d) (r c111))
           (sum4 (fsub one (b d)) (g c000) (fsub (b d) (r d)) (g c001) (fsub (r d) (g d)) (g c101) (g d) (g c111))
           (sum4 (fsub one (b d)) (b c000) (fsub (b d) (r d)) (b c001) (fsub (r d) (g d)) (b c101) (g d) (b c111))
     else
       if fgt (b d) (g d) then
         mk_rgbvec
           (sum4 (fsub one (b d)) (r c000) (fsub (b d) (g d)) (r c001) (fsub (g d) (r d)) (r c011) (r d) (r c111))
           (sum4 (fsub one (b d)) (g c000) (fsub (b d) (g d)) (g c001) (fsub (g d) (r d)) (g c011) (r d) (g c111))
           (sum4 (fsub one (b d)) (b c000) (fsub (b d) (g d)) (b c001) (fsub (g d) (r d)) (b c011) (r d) (b c111))
       else if fgt (b d) (r d) then
         mk_rgbvec
           (sum4 (fsub one (g d)) (r c000) (fsub (g d) (b d)) (r c010) (fsub (b d) (r d)) (r c011) (r d) (r c111))
           (sum4 (fsub one (g d)) (g c000) (fsub (g d) (b d)) (g c010) (fsub (b d) (r d)) (g c011) (r d) (g c111))
           (sum4 (fsub one (g d)) (b c000) (fsub (g d) (b d)) (b c010) (fsub (b d) (r d)) (b c011) (r d) (b c111))
       else
         mk_rgbvec
           (sum4 (fsub one (g d)) (r c000) (fsub (g d) (r d)) (r c010) (fsub (r d) (b d)) (r c110) (b d) (r c111))
           (sum4 (fsub one (g d)) (g c000) (fsub (g d) (r d)) (g c010) (fsub (r d) (b d)) (g c110) (b d) (g c111))
           (sum4 (fsub one (g d)) (b c000) (fsub (g d) (r d)) (b c010) (fsub (r d) (b d)) (b c110) (b d) (b c111))).

(** [DEFINE_INTERP_FUNC(name, nbits)]: the scale is computed in double and
    stored in a float; the channel values are converted to float and
    multiplied in float. *)
Definition interp_scale (nbits : Z) (lut3d : LUT3DContext) : option num :=
  size1 ← as_int (lutsize lut3d - 1);
  Some (double_to_float
          (dmul (ddiv (int_to_double 1) (int_to_double (Z.shiftl 1 nbits - 1)))
                (int_to_double size1))).

Definition scaled_rgb (nbits : Z) (lut3d : LUT3DContext) (cr cg cb : Z)
  : option rgbvec :=
  scale ← interp_scale nbits lut3d;
  Some (mk_rgbvec (fmul (int_to_float cr) scale)
                  (fmul (int_to_float cg) scale)
                  (fmul (int_to_float cb) scale)).

Definition interp_by_name (name : interp_mode)
  : LUT3DContext -> rgbvec -> option rgbvec :=
  match name with
  | INTERPOLATE_NEAREST => interp_nearest
  | INTERPOLATE_TRILINEAR => interp_trilinear
  | INTERPOLATE_TETRAHEDRAL => interp_tetrahedral
  end.

(** [interp_<nbits>_<name>(lut3d, r, g, b)] *)
Definition interp_func (nbits : Z) (name : interp_mode)
    (lut3d : LUT3DContext) (cr cg cb : Z) : option rgbvec :=
  s ← scaled_rgb nbits lut3d cr cg cb;
  interp_by_name name lut3d s.


(** ** LUT loaders *)

Definition nl : string := String "010" EmptyString.

(** The state a loader threads through its loops: the filter context, the
    rest of the open file and what has been logged so far. *)
Record pstate := mk_pstate {
  ps_ctx : LUT3DContext;
  ps_file : FILE;
  ps_log : list log_entry
}.

Definition av_log (st : pstate) (fmt : string) (args : list log_arg) : pstate :=
  mk_pstate (ps_ctx st) (ps_file st) (ps_log st ++ [mk_log fmt args]).

Definition set_file (st : pstate) (f : FILE) : pstate :=
  mk_pstate (ps_ctx st) f (ps_log st).

Definition set_ctx (st : pstate) (lut3d : LUT3DContext) : pstate :=
  mk_pstate lut3d (ps_file st) (ps_log st).

(** The failing branch of [NEXT_LINE]. *)
Definition unexpected_eof (st : pstate) : pstate :=
  av_log (set_file st []) ("Unexpected EOF" ++ nl) [].

(** The result of a function whose loops ended in [fl]; falling out of the
    loops reaches [return 0]. *)
Definition returned {S : Type} (fl : option (flow S)) : option (Z * S) :=
  match fl with
  | Some (Continue s) => Some (0, s)
  | Some (Return ret s) => Some (ret, s)
  | None => None
  end.

Definition arr3_get {X : Type} (a : X * X * X) (i : Z) : X :=
  let '(a0, a1, a2) := a in
  if i =? 0 then a0 else if i =? 1 then a1 else a2.

Definition arr3_set {X : Type} (a : X * X * X) (i : Z) (x : X) : X * X * X :=
  let '(a0, a1, a2) := a in
  if i =? 0 then (x, a1, a2) else if i =? 1 then (a0, x, a2) else (a0, a1, x).

(** [sscanf(line, "%f %f %f", &vec->r, &vec->g, &vec->b)] *)
Definition sscanf_vec (line : string) (vec : rgbvec) : Z * rgbvec :=
  let '(n, vals) := sscanf3 scan_float line in
  let '(vr, vg, vb) := assign3 (r vec, g vec, b vec) vals in
  (n, mk_rgbvec vr vg vb).

Definition parse_dat_cell (k j i : Z) (st : pstate) : option (flow pstate) :=
  match NEXT_LINE skip_line (ps_file st) with
  | None => Some (Return AVERROR_INVALIDDATA (unexpected_eof st))
  | Some (line, f') =>
      vec ← lut_at (ps_ctx st) k j i;
      let '(_, vec') := sscanf_vec line vec in
      lut3d ← lut_set (ps_ctx st) k j i vec';
      Some (Continue (mk_pstate lut3d f' (ps_log st)))
  end.

Definition parse_dat (st : pstate) : option (Z * pstate) :=
  let size := lutsize (ps_ctx st) in
  returned (for_kji size parse_dat_cell st).

(** Iridas format.  [min] and [max] live across the whole function. *)
Record cstate := mk_cstate {
  cs_st : pstate;
  cs_min : num * num * num;
  cs_max : num * num * num
}.

Inductive read_result :=
  | Got (line : string) (cs : cstate)
  | Fail (ret : Z) (cs : cstate).

(** The [do { NEXT_LINE(0); if (DOMAIN_) { ...; continue; } }
    while (skip_line(line))] loop of one cell.  [continue] jumps to the
    loop test, so after a [DOMAIN_] line the test is made on that line. *)
Fixpoint cube_read_line (f : FILE) (cs : cstate) : read_result :=
  match f with
  | [] =>
      Fail AVERROR_INVALIDDATA
        (mk_cstate (unexpected_eof (cs_st cs)) (cs_min cs) (cs_max cs))
  | line :: f' =>
      let st := set_file (cs_st cs) f' in
      if strncmp_zero line "DOMAIN_" 7 then
        if strncmp_zero (string_drop 7 line) "MIN " 4 then
          let vals := snd (sscanf3 scan_float (string_drop 11 line)) in
          let cs' := mk_cstate st (assign3 (cs_min cs) vals) (cs_max cs) in
          if skip_line line then cube_read_line f' cs' else Got line cs'
        else if strncmp_zero (string_drop 7 line) "MAX " 4 then
          let vals := snd (sscanf3 scan_float (string_drop 11 line)) in
          let cs' := mk_cstate st (cs_min cs) (assign3 (cs_max cs) vals) in
          if skip_line line then cube_read_line f' cs' else Got line cs'
        else Fail AVERROR_INVALIDDATA (mk_cstate st (cs_min cs) (cs_max cs))
      else
        let cs' := mk_cstate st (cs_min cs) (cs_max cs) in
        if skip_line line then cube_read_line f' cs' else Got line cs'
  end.

Definition parse_cube_cell (k j i : Z) (cs : cstate) : option (flow cstate) :=
  match cube_read_line (ps_file (cs_st cs)) cs with
  | Fail ret cs' => Some (Return ret cs')
  | Got line cs' =>
      let st := cs_st cs' in
      vec ← lut_at (ps_ctx st) k j i;
      let '(n, vec1) := sscanf_vec line vec in
      lut3d1 ← lut_set (ps_ctx st) k j i vec1;
      if negb (n =? 3) then
        Some (Return AVERROR_INVALIDDATA
                (mk_cstate (set_ctx st lut3d1) (cs_min cs') (cs_max cs')))
      else
        let '(min0, min1, min2) := cs_min cs' in
        let '(max0, max1, max2) := cs_max cs' in
        let vec2 := mk_rgbvec (fmul (r vec1) (fsub max0 min0))
                              (fmul (g vec1) (fsub max1 min1))
                              (fmul (b vec1) (fsub max2 min2)) in
        lut3d2 ← lut_set lut3d1 k j i vec2;
        Some (Continue (mk_cstate (set_ctx st lut3d2) (cs_min cs') (cs_max cs')))
  end.

(** The outer [while (fgets(line, sizeof(line), f))] of [parse_cube]. *)
Fixpoint parse_cube_scan (f : FILE) (st : pstate) : option (Z * pstate) :=
  match f with
  | [] => Some (0, set_file st [])
  | line :: f' =>
      if strncmp_zero line "LUT_3D_SIZE " 12 then
        let size := wrap_int (strtol0 (string_drop 12 line)) in
        if MAX_LEVEL <? size then
          Some (AVERROR EINVAL,
                av_log (set_file st f') ("Too large 3D LUT" ++ nl) [])
        else
          let st1 := mk_pstate (set_lutsize (ps_ctx st) size) f' (ps_log st) in
          match returned (for_kji size parse_cube_cell
                            (mk_cstate st1 (f_zero, f_zero, f_zero)
                                           (f_one, f_one, f_one))) with
          | Some (ret, cs) => Some (ret, cs_st cs)
          | None => None
          end
      else parse_cube_scan f' st
  end.

Definition parse_cube (st : pstate) : option (Z * pstate) :=
  parse_cube_scan (ps_file st) st.

Definition parse_3dl_cell (scale : num) (k j i : Z) (st : pstate)
  : option (flow pstate) :=
  match NEXT_LINE skip_line (ps_file st) with
  | None => Some (Return AVERROR_INVALIDDATA (unexpected_eof st))
  | Some (line, f') =>
      match sscanf3 scan_int line with
      | (3, [cr; cg; cb]) =>
          lut3d ← lut_set (ps_ctx st) k j i
                    (mk_rgbvec (fdiv (int_to_float cr) scale)
                               (fdiv (int_to_float cg) scale)
                               (fdiv (int_to_float cb) scale));
          Some (Continue (mk_pstate lut3d f' (ps_log st)))
      | _ => Some (Return AVERROR_INVALIDDATA (set_file st f'))
      end
  end.

Definition parse_3dl (st : pstate) : option (Z * pstate) :=
  let size := 17 in
  let scale := int_to_float (16 * 16 * 16) in
  let st1 := set_ctx st (set_lutsize (ps_ctx st) size) in
  match fgets (ps_file st1) with
  | None => Some (AVERROR_INVALIDDATA, st1)
  | Some (_, f') => returned (for_kji size (parse_3dl_cell scale) (set_file st1 f'))
  end.

(** Pandora format. *)

(** [SET_COLOR(id)] on the cursor [p] and the map. *)
Definition SET_COLOR (id : Z) (p : string) (rgb_map : Z * Z * Z)
  : string * (Z * Z * Z) :=
  let p1 := skip_spaces p in
  let rgb_map' :=
    match p1 with
    | String "r" _ => arr3_set rgb_map id 0
    | String "g" _ => arr3_set rgb_map id 1
    | String "b" _ => arr3_set rgb_map id 2
    | _ => rgb_map
    end in
  (skip_nonspaces p1, rgb_map').

Record m3d_header := mk_m3d_header {
  h_in : Z;
  h_out : Z;
  h_rgb_map : Z * Z * Z;
  h_file : FILE
}.

(** The header loop [while (fgets(...)) { in / out / values ... break }]. *)
Fixpoint parse_m3d_header (f : FILE) (in_ out : Z) (rgb_map : Z * Z * Z)
  : m3d_header :=
  match f with
  | [] => mk_m3d_header in_ out rgb_map []
  | line :: f' =>
      if strncmp_zero line "in" 2 then
        parse_m3d_header f' (wrap_int (strtol0 (string_drop 2 line))) out rgb_map
      else if strncmp_zero line "out" 3 then
        parse_m3d_header f' in_ (wrap_int (strtol0 (string_drop 3 line))) rgb_map
      else if strncmp_zero line "values" 6 then
        let p := string_drop 6 line in
        let '(p, rgb_map) := SET_COLOR 0 p rgb_map in
        let '(p, rgb_map) := SET_COLOR 1 p rgb_map in
        let '(p, rgb_map) := SET_COLOR 2 p rgb_map in
        mk_m3d_header in_ out rgb_map f'
      else parse_m3d_header f' in_ out rgb_map
  end.

(** [for (size = 1; size*size*size < in; size++);] with [int] products.
    The products leave the [int] range at 1291, so 1291 rounds of fuel are
    never used up. *)
Fixpoint m3d_size_loop (fuel : nat) (size in_ : Z) : option Z :=
  match fuel with
  | O => None
  | S fuel' =>
      sq ← as_int (size * size);
      cube ← as_int (sq * size);
      if cube <? in_ then
        size' ← as_int (size + 1);
        m3d_size_loop fuel' size' in_
      else Some size
  end.

Definition m3d_size (in_ : Z) : option Z := m3d_size_loop 1291 1 in_.

Definition parse_m3d_cell (scale : num) (rgb_map : Z * Z * Z) (k j i : Z)
    (st : pstate) : option (flow pstate) :=
  match NEXT_LINE (fun _ => false) (ps_file st) with
  | None => Some (Return AVERROR_INVALIDDATA (unexpected_eof st))
  | Some (line, f') =>
      match sscanf3 scan_float line with
      | (3, [v0; v1; v2]) =>
          let val := (v0, v1, v2) in
          lut3d ← lut_set (ps_ctx st) k j i
                    (mk_rgbvec (fmul (arr3_get val (arr3_get rgb_map 0)) scale)
                               (fmul (arr3_get val (arr3_get rgb_map 1)) scale)
                               (fmul (arr3_get val (arr3_get rgb_map 2)) scale));
          Some (Continue (mk_pstate lut3d f' (ps_log st)))
      | _ => Some (Return AVERROR_INVALIDDATA (set_file st f'))
      end
  end.

Definition parse_m3d (st : pstate) : option (Z * pstate) :=
  let h := parse_m3d_header (ps_file st) (-1) (-1) (0, 1, 2) in
  let st1 := set_file st (h_file h) in
  if (h_in h =? -1) || (h_out h =? -1) then
    Some (AVERROR_INVALIDDATA,
          av_log st1 ("in and out must be defined" ++ nl) [])
  else
    size ← m3d_size (h_in h);
    let st2 := set_ctx st1 (set_lutsize (ps_ctx st1) size) in
    out1 ← as_int (h_out h - 1);
    let scale := double_to_float (ddiv (int_to_double 1) (int_to_double out1)) in
    returned (for_kji size (parse_m3d_cell scale (h_rgb_map h)) st2).

Definition set_identity_cell (c : num) (k j i : Z) (lut3d : LUT3DContext)
  : option (flow LUT3DContext) :=
  lut3d' ← lut_set lut3d k j i
             (mk_rgbvec (fmul (int_to_float k) c) (fmul (int_to_float j) c)
                        (fmul (int_to_float i) c));
  Some (Continue lut3d').

Definition set_identity_matrix (lut3d : LUT3DContext) (size : Z)
  : option LUT3DContext :=
  size1 ← as_int (size - 1);
  let c := double_to_float (ddiv (int_to_double 1) (int_to_double size1)) in
  snd <$> returned (for_kji size (set_identity_cell c) (set_lutsize lut3d size)).

(** [init].  [fopen] is the file system: the open file, or [errno]. *)
Definition init (fopen : string -> FILE + Z) (lut3d : LUT3DContext)
  : option (Z * pstate) :=
  match file lut3d with
  | None =>
      lut3d' ← set_identity_matrix lut3d 32;
      Some (0, mk_pstate lut3d' [] [])
  | Some path =>
      match fopen path with
      | inr errno =>
          let ret := AVERROR errno in
          Some (ret, av_log (mk_pstate lut3d [] []) ("%s: %s" ++ nl)
                       [Arg_string path; Arg_err2str ret])
      | inl f =>
          let st := mk_pstate lut3d f [] in
          match strrchr path "." with
          | None =>
              Some (AVERROR_INVALIDDATA,
                    av_log st ("Unable to guess the format from the extension" ++ nl) [])
          | Some dot_ext =>
              let ext := string_drop 1 dot_ext in
              '(ret, st') ←
                (if av_strcasecmp_zero ext "dat" then
                   parse_dat (set_ctx st (set_lutsize lut3d 33))
                 else if av_strcasecmp_zero ext "3dl" then parse_3dl st
                 else if av_strcasecmp_zero ext "cube" then parse_cube st
                 else if av_strcasecmp_zero ext "m3d" then parse_m3d st
                 else Some (AVERROR EINVAL,
                            av_log st ("Unrecognized '.%s' file type" ++ nl)
                              [Arg_string ext]));
              if (ret =? 0) && (lutsize (ps_ctx st') =? 0) then
                Some (AVERROR_INVALIDDATA,
                      av_log st' ("3D LUT is empty" ++ nl) [])
              else Some (ret, st')
          end
      end
  end.

(** ** Pixel mapper *)

(** [config_input]: [fmt16], [fmt_map] and [padded_bits] are what the pixel
    format gives: whether it is one of the four 16-bit formats, the offsets
    [ff_fill_rgba_map] computes and [av_get_padded_bits_per_pixel(desc)]. *)
Definition config_input (fmt16 : bool) (fmt_map : Z * Z * Z * Z)
    (padded_bits : Z) (lut3d : LUT3DContext) : LUT3DContext :=
  let is16 := if fmt16 then true else is16bit lut3d in
  let name := interpolation lut3d in
  mk_LUT3DContext (interpolation lut3d) (file lut3d) fmt_map
    (Z.shiftr padded_bits (3 + (if is16 then 1 else 0))) is16
    (if is16 then interp_8 lut3d else Some name)
    (if is16 then Some name else interp_16 lut3d)
    (lut lut3d) (lutsize lut3d).

(** One row of a picture: its samples, [uint8_t] or [uint16_t] values. *)
Definition sample_at (row : list Z) (x : Z) : option Z :=
  if 0 <=? x then row !! Z.to_nat x else None.

Definition sample_set (row : list Z) (x v : Z) : option (list Z) :=
  if (0 <=? x) && (x <? Z.of_nat (length row))
  then Some (<[Z.to_nat x := v]> row) else None.

(** Modelled from the spec: [av_clip_uint8] and [av_clip_uint16] of
    libavutil/common.h, which is not part of the modelled file; the spec
    has "clip each resulting channel to [0, 2^bits - 1]". *)
Definition av_clip_uint (nbits : Z) (a : Z) : Z :=
  if a <? 0 then 0
  else if Z.shiftl 1 nbits - 1 <? a then Z.shiftl 1 nbits - 1
  else a.

(** The body of the [x] loop of [FILTER(nbits)].  [src] is the input row
    and [dst] the output row; when the frame is filtered in place they are
    the same memory, and the caller passes the current row for both. *)
Definition filter_pixel (nbits : Z) (lut3d : LUT3DContext) (direct : bool)
    (src dst : list Z) (x : Z) : option (list Z) :=
  let '(cr, cg, cb, ca) := rgba_map lut3d in
  name ← (if nbits =? 16 then interp_16 lut3d else interp_8 lut3d);
  sr ← sample_at src (x + cr);
  sg ← sample_at src (x + cg);
  sb ← sample_at src (x + cb);
  vec ← interp_func nbits name lut3d sr sg sb;
  let m := int_to_float (Z.shiftl 1 nbits - 1) in
  vr ← to_int (fmul (r vec) m);
  dst1 ← sample_set dst (x + cr) (av_clip_uint nbits vr);
  vg ← to_int (fmul (g vec) m);
  dst2 ← sample_set dst1 (x + cg) (av_clip_uint nbits vg);
  vb ← to_int (fmul (b vec) m);
  dst3 ← sample_set dst2 (x + cb) (av_clip_uint nbits vb);
  if negb direct && (step lut3d =? 4) then
    sa ← sample_at src (x + ca);
    sample_set dst3 (x + ca) sa
  else Some dst3.

(** [for (x = 0; x < inlink->w * step; x += step)]: with a positive [step]
    the loop runs [w] times, at [x = 0, step, 2 * step, ...]; with [step]
    zero or negative (and [w] not negative) it does not run. *)
Fixpoint filter_row_loop (nbits : Z) (lut3d : LUT3DContext) (direct : bool)
    (n : nat) (x : Z) (src dst : list Z) : option (list Z) :=
  match n with
  | O => Some dst
  | S n' =>
      dst' ← filter_pixel nbits lut3d direct (if direct then dst else src) dst x;
      filter_row_loop nbits lut3d direct n' (x + step lut3d) src dst'
  end.

Definition filter_row (nbits : Z) (lut3d : LUT3DContext) (direct : bool)
    (w : Z) (src dst : list Z) : option (list Z) :=
  filter_row_loop nbits lut3d direct
    (if 0 <? step lut3d then Z.to_nat w else O) 0 src dst.

(** [FILTER(nbits)]: the [y] loop over the rows of the two pictures. *)
Fixpoint FILTER_rows (nbits : Z) (lut3d : LUT3DContext) (direct : bool)
    (w : Z) (h : nat) (src dst : list (list Z)) : option (list (list Z)) :=
  match h with
  | O => Some dst
  | S h' =>
      match src, dst with
      | srcrow :: src', dstrow :: dst' =>
          row ← filter_row nbits lut3d direct w srcrow dstrow;
          rest ← FILTER_rows nbits lut3d direct w h' src' dst';
          Some (row :: rest)
      | _, _ => None
      end
  end.

(** [filter_frame]: [writable] is [av_frame_is_writable(in)], [buffer] what
    [ff_get_video_buffer] returns.  The result is the error code, or the
    rows of the picture handed to [ff_filter_frame]. *)
Definition filter_frame (lut3d : LUT3DContext) (w h : Z)
    (in_ : list (list Z)) (writable : bool) (buffer : option (list (list Z)))
  : option (Z + list (list Z)) :=
  let nbits := if is16bit lut3d then 16 else 8 in
  if writable then
    out ← FILTER_rows nbits lut3d true w (Z.to_nat h) in_ in_;
    Some (inr out)
  else
    match buffer with
    | None => Some (inl (AVERROR ENOMEM))
    | Some out0 =>
        out ← FILTER_rows nbits lut3d false w (Z.to_nat h) in_ out0;
        Some (inr out)
    end.

End Lut3d.

Arguments rgbvec : clear implicits.
Arguments LUT3DContext : clear implicits.
Arguments pstate : clear implicits.
Arguments cstate : clear implicits.
Arguments read_result : clear implicits.

(** ** Exact rational arithmetic *)

(** Truncation toward zero of a rational. *)
Definition Qtrunc (x : Q) : Z := Z.quot (Qnum x) (Zpos (Qden x)).

(** The exact value of a scanned number.  [inf] and [nan] have no exact
    value: in this reading the conversion fails on them. *)
Definition Q_scan_float (s : string) : option (Q * string) :=
  match scan_number s with
  | Some (Sc_num neg m e10 e2, rest) =>
      Some (Qred (inject_Z (if neg then - m else m)
                  * inject_Z 10 ^ e10 * inject_Z 2 ^ e2), rest)
  | _ => None
  end.

#[export] Instance Q_arith : FloatArith Q := {|
  int_to_float := inject_Z;
  int_to_double := inject_Z;
  double_to_float := fun x => x;
  fadd := Qplus;
  fsub := Qminus;
  fmul := Qmult;
  fdiv := Qdiv;
  dadd := Qplus;
  dmul := Qmult;
  ddiv := Qdiv;
  flt := fun x y => negb (Qle_bool y x);
  to_int := fun x => as_int (Qtrunc x);
  scan_float := Q_scan_float
|}.

(** Equality of samples as rational triples. *)
Definition rgb_eq (u v : rgbvec Q) : Prop :=
  (r u == r v /\ g u == g v /\ b u == b v)%Q.

(** ** IEEE-754 binary32 / binary64 arithmetic *)

Definition SF_of_Z (prec emax : Z) (z : Z) : spec_float :=
  binary_normalize prec emax z 0 false.

(** Rounding of a binary64 value to binary32 (round to nearest even). *)
Definition SF_to_b32 (x : spec_float) : spec_float :=
  match x with
  | S754_finite s m e =>
      binary_normalize 24 128 (if s then Zneg m else Zpos m) e s
  | _ => x
  end.

(** [(int)x]: the integral part; undefined for NaN, infinities and values
    outside the range of [int]. *)
Definition SF_to_int (x : spec_float) : option Z :=
  match x with
  | S754_zero _ => Some 0
  | S754_finite s m e =>
      let a := if 0 <=? e then Zpos m * 2 ^ e else Zpos m / 2 ^ (- e) in
      as_int (if s then - a else a)
  | _ => None
  end.

(** The binary32 value nearest to [(-1)^neg * m * 10^e10 * 2^e2], as
    [strtof] gives it.  For a negative decimal exponent the quotient is
    taken with enough extra bits, and a sticky bit records a non-zero
    remainder, so that the rounding is that of the exact value. *)
Definition SF_of_scanned (neg : bool) (m e10 e2 : Z) : spec_float :=
  if m =? 0 then S754_zero neg
  else if 0 <=? e10 then
    let v := m * 10 ^ e10 in
    binary_normalize 24 128 (if neg then - v else v) e2 neg
  else
    let den := 10 ^ (- e10) in
    let sh := Z.log2 den + 32 in
    let q := (m * 2 ^ sh) / den in
    let sticky := if (m * 2 ^ sh) mod den =? 0 then 0 else 1 in
    let v := 2 * q + sticky in
    binary_normalize 24 128 (if neg then - v else v) (e2 - (sh + 1)) neg.

Definition SF_scan_float (s : string) : option (spec_float * string) :=
  match scan_number s with
  | Some (Sc_num neg m e10 e2, rest) => Some (SF_of_scanned neg m e10 e2, rest)
  | Some (Sc_inf neg, rest) => Some (S754_infinity neg, rest)
  | Some (Sc_nan, rest) => Some (S754_nan, rest)
  | None => None
  end.

#[export] Instance B32_arith : FloatArith spec_float := {|
  int_to_float := SF_of_Z 24 128;
  int_to_double := SF_of_Z 53 1024;
  double_to_float := SF_to_b32;
  fadd := SFadd 24 128;
  fsub := SFsub 24 128;
  fmul := SFmul 24 128;
  fdiv := SFdiv 24 128;
  dadd := SFadd 53 1024;
  dmul := SFmul 53 1024;
  ddiv := SFdiv 53 1024;
  flt := SFltb;
  to_int := SF_to_int;
  scan_float := SF_scan_float
|}.

(** ** Vocabulary of the statements *)

(** The sample held by cell [(i, j, k)] of the array. *)
Definition cell {num : Type} {FA : FloatArith num} (lut3d : LUT3DContext num)
    (i j k : Z) : rgbvec num :=
  default rgb_zero (lut lut3d !! (i, j, k)).

(** The six tetrahedra of the unit cube, named by the order of the
    remainders from largest to smallest. *)
Inductive tetra_case := T_rgb | T_rbg | T_brg | T_bgr | T_gbr | T_grb.

(** The ordering of [(dr, dg, db)] that belongs to each tetrahedron. *)
Definition tetra_order (t : tetra_case) (dr dg db : Q) : Prop :=
  match t with
  | T_rgb => dg < dr /\ db < dg
  | T_rbg => db < dr /\ dg <= db
  | T_brg => dr <= db /\ dg < dr
  | T_bgr => dg < db /\ dr <= dg
  | T_gbr => db <= dg /\ dr < db
  | T_grb => dr <= dg /\ db <= dr
  end%Q.

(** The remainders as (largest, middle, smallest). *)
Definition tetra_sorted (t : tetra_case) (dr dg db : Q) : Q * Q * Q :=
  match t with
  | T_rgb => (dr, dg, db)
  | T_rbg => (dr, db, dg)
  | T_brg => (db, dr, dg)
  | T_bgr => (db, dg, dr)
  | T_gbr => (dg, db, dr)
  | T_grb => (dg, dr, db)
  end.

(** The two corners between [c000] and [c111] on the path of each
    tetrahedron, as steps along the (r, g, b) axes: first the axis of the
    largest remainder, then also that of the middle one. *)
Definition tetra_path (t : tetra_case) : (Z * Z * Z) * (Z * Z * Z) :=
  match t with
  | T_rgb => ((1, 0, 0), (1, 1, 0))
  | T_rbg => ((1, 0, 0), (1, 0, 1))
  | T_brg => ((0, 0, 1), (1, 0, 1))
  | T_bgr => ((0, 0, 1), (0, 1, 1))
  | T_gbr => ((0, 1, 0), (0, 1, 1))
  | T_grb => ((0, 1, 0), (1, 1, 0))
  end.

Definition corner {num : Type} {FA : FloatArith num}
    (lut3d : LUT3DContext num) (ir ig ib : Z) (o : Z * Z * Z) : rgbvec num :=
  cell lut3d (ir + o.1.1) (ig + o.1.2) (ib + o.2).

(** The weighted sum of four samples, channel by channel. *)
Definition blend4 (w0 w1 w2 w3 : Q) (c0 c1 c2 c3 : rgbvec Q) : rgbvec Q :=
  mk_rgbvec (w0 * r c0 + w1 * r c1 + w2 * r c2 + w3 * r c3)%Q
            (w0 * g c0 + w1 * g c1 + w2 * g c2 + w3 * g c3)%Q
            (w0 * b c0 + w1 * b c1 + w2 * b c2 + w3 * b c3)%Q.

(** The four weights of a tetrahedron: 1 - max, max - mid, mid - min, min. *)
Definition tetra_weights (t : tetra_case) (dr dg db : Q) : Q * Q * Q * Q :=
  let '(mx, md, mn) := tetra_sorted t dr dg db in
  (1 - mx, mx - md, md - mn, mn)%Q.

(** The blend tetrahedron [t] prescribes at base cell [(ir, ig, ib)]. *)
Definition tetra_blend (lut3d : LUT3DContext Q) (ir ig ib : Z)
    (t : tetra_case) (dr dg db : Q) : rgbvec Q :=
  let '(w0, w1, w2, w3) := tetra_weights t dr dg db in
  blend4 w0 w1 w2 w3
    (corner lut3d ir ig ib (0, 0, 0)) (corner lut3d ir ig ib (tetra_path t).1)
    (corner lut3d ir ig ib (tetra_path t).2) (corner lut3d ir ig ib (1, 1, 1)).

(** The coordinate [(ir + dr, ig + dg, ib + db)]. *)
Definition coord (ir ig ib : Z) (dr dg db : Q) : rgbvec Q :=
  mk_rgbvec (inject_Z ir + dr)%Q (inject_Z ig + dg)%Q (inject_Z ib + db)%Q.

Section Branches.

Context {num : Type} {FA : FloatArith num}.

(** The outcomes of the comparisons [>] that lead [interp_tetrahedral] to
    each of its six branches, on the remainder [d]. *)
Definition branch_order (t : tetra_case) (d : rgbvec num) : Prop :=
  match t with
  | T_rgb => fgt (r d) (g d) = true /\ fgt (g d) (b d) = true
  | T_rbg => fgt (r d) (g d) = true /\ fgt (g d) (b d) = false /\
             fgt (r d) (b d) = true
  | T_brg => fgt (r d) (g d) = true /\ fgt (g d) (b d) = false /\
             fgt (r d) (b d) = false
  | T_bgr => fgt (r d) (g d) = false /\ fgt (b d) (g d) = true
  | T_gbr => fgt (r d) (g d) = false /\ fgt (b d) (g d) = false /\
             fgt (b d) (r d) = true
  | T_grb => fgt (r d) (g d) = false /\ fgt (b d) (g d) = false /\
             fgt (b d) (r d) = false
  end.

(** The remainders in the order a branch uses them: the one it treats as
    the largest, the middle one, the smallest. *)
Definition branch_sorted (t : tetra_case) (d : rgbvec num) : num * num * num :=
  match t with
  | T_rgb => (r d, g d, b d)
  | T_rbg => (r d, b d, g d)
  | T_brg => (b d, r d, g d)
  | T_bgr => (b d, g d, r d)
  | T_gbr => (g d, b d, r d)
  | T_grb => (g d, r d, b d)
  end.

(** The four weights of a branch as the code computes them, in float:
    1 - max, max - mid, mid - min, min. *)
Definition branch_weights (t : tetra_case) (d : rgbvec num)
  : num * num * num * num :=
  let '(mx, md, mn) := branch_sorted t d in
  (fsub (int_to_float 1) mx, fsub mx md, fsub md mn, mn).

(** The float sum of four weights, added from left to right. *)
Definition weights_sum (w : num * num * num * num) : num :=
  let '(w0, w1, w2, w3) := w in fadd (fadd (fadd w0 w1) w2) w3.

(** [w0 * c0 + w1 * c1 + w2 * c2 + w3 * c3] channel by channel, in float
    and from left to right. *)
Definition weighted4 (w : num * num * num * num) (c0 c1 c2 c3 : rgbvec num)
  : rgbvec num :=
  let '(w0, w1, w2, w3) := w in
  mk_rgbvec (sum4 w0 (r c0) w1 (r c1) w2 (r c2) w3 (r c3))
            (sum4 w0 (g c0) w1 (g c1) w2 (g c2) w3 (g c3))
            (sum4 w0 (b c0) w1 (b c1) w2 (b c2) w3 (b c3)).

End Branches.

(** ** Sample data for the statements *)

(** The context as the framework allocates it: every byte zero. *)
Definition zero_context {num : Type} {FA : FloatArith num} : LUT3DContext num :=
  mk_LUT3DContext INTERPOLATE_NEAREST None (0, 0, 0, 0) 0 false None None ∅ 0.

(** A 2x2x2 grid whose samples are the vertex coordinates. *)
Definition vertex_sample (i j k : Z) : (Z * Z * Z) * rgbvec Q :=
  ((i, j, k), mk_rgbvec (inject_Z i) (inject_Z j) (inject_Z k)).

Definition demo_grid : LUT3DContext Q :=
  mk_LUT3DContext INTERPOLATE_TETRAHEDRAL None (0, 1, 2, 3) 3 false
    (Some INTERPOLATE_TETRAHEDRAL) None
    (list_to_map
       [vertex_sample 0 0 0; vertex_sample 0 0 1; vertex_sample 0 1 0;
        vertex_sample 0 1 1; vertex_sample 1 0 0; vertex_sample 1 0 1;
        vertex_sample 1 1 0; vertex_sample 1 1 1])
    2.

(** The largest channel value of a sample of [nbits] bits. *)
Definition max_value (nbits : Z) : Z := Z.shiftl 1 nbits - 1.

(** The indices [PREV] and [NEXT] compute, along one axis, for the largest
    channel value in a grid of axis size [size]. *)
Definition top_indices {num : Type} {FA : FloatArith num} (nbits size : Z)
  : option (Z * Z) :=
  s ← scaled_rgb nbits (set_lutsize zero_context size)
        (max_value nbits) (max_value nbits) (max_value nbits);
  p ← PREV (r s);
  n ← NEXT (r s);
  Some (p, n).

(** A 2x2x2 grid in binary32 whose eight samples are all (1, 1, 1). *)
Definition white_sample (i j k : Z) : (Z * Z * Z) * rgbvec spec_float :=
  ((i, j, k), mk_rgbvec f_one f_one f_one).

Definition white_grid : LUT3DContext spec_float :=
  mk_LUT3DContext INTERPOLATE_TETRAHEDRAL None (0, 1, 2, 3) 3 false
    (Some INTERPOLATE_TETRAHEDRAL) None
    (list_to_map
       [white_sample 0 0 0; white_sample 0 0 1; white_sample 0 1 0;
        white_sample 0 1 1; white_sample 1 0 0; white_sample 1 0 1;
        white_sample 1 1 0; white_sample 1 1 1])
    2.

(** The coordinate the 8-bit pixel (0, 17, 51) is scaled to in a grid of
    size 2, and its remainder, in binary32. *)
Definition demo_coord : rgbvec spec_float :=
  default rgb_zero (scaled_rgb 8 white_grid 0 17 51).

Definition demo_remainder : rgbvec spec_float :=
  default rgb_zero (remainder demo_coord).

(** ** Loops as iterations over lists (a device of the proofs) *)

Fixpoint for_each {S A : Type} (l : list A) (body : A -> S -> option (flow S))
    (s : S) : option (flow S) :=
  match l with
  | [] => Some (Continue s)
  | a :: l' =>
      match body a s with
      | Some (Continue s') => for_each l' body s'
      | other => other
      end
  end.

(** The cells of a grid of axis size [size] in the order the loaders fill
    them: [k] outermost, [i] innermost. *)
Definition cell_list (size : Z) : list (Z * Z * Z) :=
  k ← seqZ 0 size; j ← seqZ 0 size; i ← seqZ 0 size; [(k, j, i)].

Definition on_cell {S : Type} (body : Z -> Z -> Z -> S -> option (flow S))
    (c : Z * Z * Z) : S -> option (flow S) :=
  body c.1.1 c.1.2 c.2.

Definition cell_in_array (c : Z * Z * Z) : Prop :=
  0 <= c.1.1 < MAX_LEVEL /\ 0 <= c.1.2 < MAX_LEVEL /\ 0 <= c.2 < MAX_LEVEL.

(** The lines [NEXT_LINE(loop_cond)] stops at. *)
Definition data_lines (loop_cond : string -> bool) (f : FILE) : list string :=
  List.filter (fun line => negb (loop_cond line)) f.

(** The log entry of the failing branch of [NEXT_LINE]. *)
Definition eof_entry : log_entry := mk_log ("Unexpected EOF" ++ nl) [].

Section Readers.

Context {num : Type} {FA : FloatArith num}.

(** The shape the cell bodies of [parse_dat], [parse_3dl] and [parse_m3d]
    share: take the next data line, convert it ([conv] gives the update of
    the cell, or [None] for a line the loader rejects), store the sample. *)
Definition reader_cell (loop_cond : string -> bool)
    (conv : string -> option (rgbvec num -> rgbvec num)) (k j i : Z)
    (st : pstate num) : option (flow (pstate num)) :=
  match NEXT_LINE loop_cond (ps_file st) with
  | None => Some (Return AVERROR_INVALIDDATA (unexpected_eof st))
  | Some (line, f') =>
      match conv line with
      | None => Some (Return AVERROR_INVALIDDATA (set_file st f'))
      | Some upd =>
          lut3d ← lut_set (ps_ctx st) k j i (upd (cell (ps_ctx st) k j i));
          Some (Continue (mk_pstate lut3d f' (ps_log st)))
      end
  end.

Definition conv_dat (line : string) : option (rgbvec num -> rgbvec num) :=
  Some (fun vec => (sscanf_vec line vec).2).

Definition conv_3dl (scale : num) (line : string)
  : option (rgbvec num -> rgbvec num) :=
  match sscanf3 scan_int line with
  | (3, [cr; cg; cb]) =>
      Some (fun _ => mk_rgbvec (fdiv (int_to_float cr) scale)
                               (fdiv (int_to_float cg) scale)
                               (fdiv (int_to_float cb) scale))
  | _ => None
  end.

Definition conv_m3d (scale : num) (rgb_map : Z * Z * Z) (line : string)
  : option (rgbvec num -> rgbvec num) :=
  match sscanf3 scan_float line with
  | (3, [v0; v1; v2]) =>
      let val := (v0, v1, v2) in
      Some (fun _ => mk_rgbvec (fmul (arr3_get val (arr3_get rgb_map 0)) scale)
                               (fmul (arr3_get val (arr3_get rgb_map 1)) scale)
                               (fmul (arr3_get val (arr3_get rgb_map 2)) scale))
  | _ => None
  end.

(** A line scans as three numbers. *)
Definition float_triple (line : string) : Prop :=
  (sscanf3 (scan_float (num := num)) line).1 = 3.

End Readers.

Definition int_triple (line : string) : Prop :=
  (sscanf3 scan_int line).1 = 3.

(** A [DOMAIN_] line of a .cube file carries [MIN ] or [MAX ]. *)
Definition domain_ok (line : string) : bool :=
  negb (strncmp_zero line "DOMAIN_" 7)
  || strncmp_zero (string_drop 7 line) "MIN " 4
  || strncmp_zero (string_drop 7 line) "MAX " 4.

(** The data lines [parse_cube] accepts. *)
Definition cube_ok {num : Type} {FA : FloatArith num} (line : string) : Prop :=
  domain_ok line = true /\ float_triple (num := num) line.

Definition is_size_line (line : string) : bool :=
  strncmp_zero line "LUT_3D_SIZE " 12.

(** The axis size a [LUT_3D_SIZE] line declares, as [parse_cube] reads it. *)
Definition declared_size (line : string) : Z :=
  wrap_int (strtol0 (string_drop 12 line)).

(** What a loader that needs [ncells] data lines, accepts the lines [ok]
    and finds the data lines [dl] returns and logs: success; the end of the
    file, logged; or the first line it does not accept. *)
Definition load_outcome (ok : string -> Prop) (ncells : nat)
    (dl : list string) (log0 : list log_entry) (ret : Z)
    (log' : list log_entry) : Prop :=
  (ret = 0 /\ (ncells <= length dl)%nat /\ Forall ok (take ncells dl) /\
   log' = log0) \/
  (ret = AVERROR_INVALIDDATA /\ (length dl < ncells)%nat /\ Forall ok dl /\
   log' = (log0 ++ [eof_entry])%list) \/
  (ret = AVERROR_INVALIDDATA /\
   exists n l, (n < ncells)%nat /\ dl !! n = Some l /\ ~ ok l /\
     Forall ok (take n dl) /\ log' = log0).

(** The number of cells of a grid of axis size [size]. *)
Definition ncells (size : Z) : nat := length (cell_list size).

(** The extension [init] dispatches on: what follows the last dot. *)
Definition extension (path : string) : option string :=
  dot_ext ← strrchr path "."; Some (string_drop 1 dot_ext).

Definition ext_is (path ext : string) : Prop :=
  exists x, extension path = Some x /\ av_strcasecmp_zero x ext = true.

(** The end of [init] for a file that was opened and parsed. *)
Definition init_finish {num : Type} {FA : FloatArith num}
    (parsed : option (Z * pstate num)) : option (Z * pstate num) :=
  '(ret, st') ← parsed;
  if (ret =? 0) && (lutsize (ps_ctx st') =? 0) then
    Some (AVERROR_INVALIDDATA, av_log st' ("3D LUT is empty" ++ nl) [])
  else Some (ret, st').

(** The filter context when [init] is called: zero-filled, the options set
    to their defaults and [file] to the option given. *)
Definition context_with_file {num : Type} {FA : FloatArith num}
    (path : option string) : LUT3DContext num :=
  mk_LUT3DContext INTERPOLATE_TETRAHEDRAL path (0, 0, 0, 0) 0 false None None ∅ 0.

(** A file system with one file. *)
Definition one_file (contents : string) (path : string) : FILE + Z :=
  inl (fgets_split contents).

(** A line of a .m3d header that is none of the three directives. *)
Definition m3d_other (line : string) : Prop :=
  strncmp_zero line "in" 2 = false /\ strncmp_zero line "out" 3 = false /\
  strncmp_zero line "values" 6 = false.

(** The log entry of [parse_m3d] for a missing directive. *)
Definition in_out_entry : log_entry :=
  mk_log ("in and out must be defined" ++ nl) [].

(** [n] copies of a line. *)
Definition lines_of (n : nat) (line : string) : string :=
  String.concat "" (replicate n line).

(** The log entry of [init] for an empty grid. *)
Definition empty_entry : log_entry := mk_log ("3D LUT is empty" ++ nl) [].

(** The character a [SET_COLOR] looks at is none of r, g, b. *)
Definition not_rgb (p : string) : Prop :=
  match skip_spaces p with
  | String c _ => c <> "r"%char /\ c <> "g"%char /\ c <> "b"%char
  | EmptyString => True
  end.

Section Pixels.

Context {num : Type} {FA : FloatArith num}.

(** The offsets of a pixel format: R, G, B at distinct places inside the
    pixel, and, when the pixel has four components, A at the fourth. *)
Definition valid_layout (lut3d : LUT3DContext num) : Prop :=
  let '(cr, cg, cb, ca) := rgba_map lut3d in
  0 < step lut3d /\
  0 <= cr < step lut3d /\ 0 <= cg < step lut3d /\ 0 <= cb < step lut3d /\
  cr <> cg /\ cr <> cb /\ cg <> cb /\
  (step lut3d = 4 -> 0 <= ca < 4 /\ ca <> cr /\ ca <> cg /\ ca <> cb).

(** The three values [FILTER(nbits)] computes for the pixel at [x] of the
    row [src]: the interpolated sample, scaled by [2^nbits - 1], converted
    to [int] and clipped. *)
Definition mapped_pixel (nbits : Z) (lut3d : LUT3DContext num)
    (src : list Z) (x : Z) : option (Z * Z * Z) :=
  let '(cr, cg, cb, ca) := rgba_map lut3d in
  name ← (if nbits =? 16 then interp_16 lut3d else interp_8 lut3d);
  sr ← sample_at src (x + cr);
  sg ← sample_at src (x + cg);
  sb ← sample_at src (x + cb);
  vec ← interp_func nbits name lut3d sr sg sb;
  let m := int_to_float (Z.shiftl 1 nbits - 1) in
  vr ← to_int (fmul (r vec) m);
  vg ← to_int (fmul (g vec) m);
  vb ← to_int (fmul (b vec) m);
  Some (av_clip_uint nbits vr, av_clip_uint nbits vg, av_clip_uint nbits vb).

(** The sample width [filter_frame] works at. *)
Definition frame_bits (lut3d : LUT3DContext num) : Z :=
  if is16bit lut3d then 16 else 8.

End Pixels.

(** [demo_grid] configured for an 8-bit format of four components. *)
Definition demo_rgba : LUT3DContext Q :=
  config_input false (0, 1, 2, 3) 32 demo_grid.

(** A picture of one row and two pixels, and a buffer for its output. *)
Definition demo_frame : list (list Z) := [[255; 0; 128; 77; 0; 255; 64; 200]].
Definition demo_buffer : list (list Z) := [[0; 0; 0; 0; 0; 0; 0; 0]].

(** ** Vocabulary of the further properties *)

(** The position of cell [(k, j, i)] in the order the loaders fill a grid
    of axis size [size]: the number of the data line it is read from. *)
Definition cell_index (size k j i : Z) : nat :=
  Z.to_nat (k * size * size + j * size + i).

(** A loader state with an empty log. *)
Definition loader_state {num : Type} {FA : FloatArith num}
    (size : Z) (f : FILE) : pstate num :=
  mk_pstate (set_lutsize zero_context size) f [].

(** Eight data lines for a grid of axis size 2, one of them preceded by a
    comment and one malformed. *)
Definition dat_demo : FILE :=
  fgets_split
    ("# 2x2x2" ++ nl ++ "0 0 0" ++ nl ++ "0 0 1" ++ nl ++ "0 1 0" ++ nl
     ++ "0 1 1" ++ nl ++ nl ++ "1 0 0" ++ nl ++ "1 0 1" ++ nl ++ "1 x 0" ++ nl
     ++ "1 1 1" ++ nl).

(** A .3dl file: a header line and 17^3 data lines. *)
Definition threedl_demo : FILE :=
  ("3DMESH" ++ nl) :: replicate (17 * 17 * 17) ("1024 2048 4096" ++ nl).

(** A .m3d file for a grid of axis size 2 whose columns are b, g, r. *)
Definition m3d_demo : FILE :=
  fgets_split
    ("in 8" ++ nl ++ "out 256" ++ nl ++ "values b g r" ++ nl
     ++ "0 0 0" ++ nl ++ "255 0 0" ++ nl ++ "0 255 0" ++ nl ++ "255 255 0" ++ nl
     ++ "0 0 255" ++ nl ++ "255 0 255" ++ nl ++ "0 255 255" ++ nl
     ++ "255 255 255" ++ nl).

(** The C library's scanner finds no number at a letter D. *)
Definition rejects_D {num : Type} {FA : FloatArith num} : Prop :=
  forall s, scan_float (num := num) (String "D" s) = None.

(** What [parse_cube] makes of a data line while [min] and [max] are as
    initialised: nothing of a [DOMAIN_] line or of a line that is not three
    numbers, else the three numbers times [max - min] = [1.0 - 0.0]. *)
Definition conv_cube {num : Type} {FA : FloatArith num} (line : string)
  : option (rgbvec num -> rgbvec num) :=
  if strncmp_zero line "DOMAIN_" 7 then None
  else
    match sscanf3 scan_float line with
    | (3, [v0; v1; v2]) =>
        Some (fun _ => mk_rgbvec (fmul v0 (fsub f_one f_zero))
                                 (fmul v1 (fsub f_one f_zero))
                                 (fmul v2 (fsub f_one f_zero)))
    | _ => None
    end.

(** A .cube file for a grid of axis size 2, with a comment and a
    [DOMAIN_] line before the size line. *)
Definition cube_demo : FILE :=
  fgets_split
    ("# identity" ++ nl ++ "DOMAIN_MAX 2 2 2" ++ nl ++ "LUT_3D_SIZE 2" ++ nl
     ++ "0 0 0" ++ nl ++ "1 0 0" ++ nl ++ "0 1 0" ++ nl ++ "1 1 0" ++ nl
     ++ "0 0 1" ++ nl ++ "1 0 1" ++ nl ++ "0 1 1" ++ nl ++ "1 1 1" ++ nl).

(** The same with the [DOMAIN_] line after the size line. *)
Definition cube_domain_demo : FILE :=
  fgets_split
    ("LUT_3D_SIZE 2" ++ nl ++ "DOMAIN_MAX 2 2 2" ++ nl
     ++ "0 0 0" ++ nl ++ "1 0 0" ++ nl ++ "0 1 0" ++ nl ++ "1 1 0" ++ nl
     ++ "0 0 1" ++ nl ++ "1 0 1" ++ nl ++ "0 1 1" ++ nl ++ "1 1 1" ++ nl).

(** The grid index along one axis that [(int)(c * scale + .5)] comes to
    for channel value [c], by integer arithmetic. *)
Definition nearest_index (nbits size c : Z) : Z :=
  (2 * c * (size - 1) + max_value nbits) / (2 * max_value nbits).

(** The eight corners of a grid cell, as steps from its base vertex. *)
Definition cube_corners : list (Z * Z * Z) :=
  [(0, 0, 0); (0, 0, 1); (0, 1, 0); (0, 1, 1);
   (1, 0, 0); (1, 0, 1); (1, 1, 0); (1, 1, 1)].

(** [p] holds of [c], [c + 1], ..., [c + n - 1]: a check that runs. *)
Fixpoint all_from (n : nat) (c : Z) (p : Z -> bool) : bool :=
  match n with
  | O => true
  | S n' => p c && all_from n' (c + 1) p
  end.

(** In binary32, for an 8-bit channel value [c] and a grid of axis size
    [size]: [PREV] of the scaled coordinate lies in the grid and [NEAR] of
    it is [nearest_index]. *)
Definition index_check (size c : Z) : bool :=
  match interp_scale (num := spec_float) 8 (set_lutsize zero_context size) with
  | Some x =>
      let y := fmul (int_to_float c) x in
      match PREV y, NEAR y with
      | Some p, Some n =>
          (0 <=? p) && (p <=? size - 1) && (n =? nearest_index 8 size c)
      | _, _ => false
      end
  | None => false
  end.

(** The grid [init] builds without a file in a context whose array is
    still zero-filled, in binary32. *)
Definition default_grid : LUT3DContext spec_float :=
  default zero_context (set_identity_matrix zero_context 32).

(** What [FILTER(8)] makes of the grey pixel (v, v, v): the three values
    before clipping. *)
Definition grey_out (lut3d : LUT3DContext spec_float) (name : interp_mode)
    (v : Z) : option (Z * Z * Z) :=
  vec ← interp_func 8 name lut3d v v v;
  x ← to_int (fmul (r vec) (int_to_float 255));
  y ← to_int (fmul (g vec) (int_to_float 255));
  z ← to_int (fmul (b vec) (int_to_float 255));
  Some (x, y, z).

(** The grey pixel comes back grey, as it was or one darker. *)
Definition grey_ok (lut3d : LUT3DContext spec_float) (name : interp_mode)
    (v : Z) : bool :=
  match grey_out lut3d name v with
  | Some (x, y, z) => (x =? y) && (y =? z) && ((x =? v) || (x =? v - 1))
  | None => false
  end.


(** A .m3d file with its two sizes and eight data lines, but no [values]
    line. *)
Definition m3d_novalues_demo : FILE :=
  fgets_split
    ("in 8" ++ nl ++ "out 256" ++ nl
     ++ "0 0 0" ++ nl ++ "0 0 255" ++ nl ++ "0 255 0" ++ nl ++ "0 255 255" ++ nl
     ++ "255 0 0" ++ nl ++ "255 0 255" ++ nl ++ "255 255 0" ++ nl
     ++ "255 255 255" ++ nl).


(** A word of a [values] line: not empty, no white space in it. *)
Fixpoint no_space (w : string) : bool :=
  match w with
  | EmptyString => true
  | String c w' => negb (av_isspace c) && no_space w'
  end.

Definition is_word (w : string) : Prop := w <> "" /\ no_space w = true.

(** The column a word of a [values] line selects: by its first letter,
    [old] when that is none of r, g, b. *)
Definition color_index (w : string) (old : Z) : Z :=
  match w with
  | String "r" _ => 0
  | String "g" _ => 1
  | String "b" _ => 2
  | _ => old
  end.

(** * Properties *)
(** ** Basic facts *)

Lemma as_int_Some z : INT_MIN <= z <= INT_MAX -> as_int z = Some z.
Proof.
  intros [Hlo Hhi]. unfold as_int.
  apply Z.leb_le in Hlo, Hhi. now rewrite Hlo, Hhi.
Qed.

Lemma as_int_inv z i : as_int z = Some i -> i = z /\ INT_MIN <= z <= INT_MAX.
Proof.
  unfold as_int. destruct (INT_MIN <=? z) eqn:Hlo; [|discriminate].
  destruct (z <=? INT_MAX) eqn:Hhi; [|discriminate].
  simpl. intros [= <-]. apply Z.leb_le in Hlo, Hhi. auto.
Qed.

(** Truncation of a non-negative rational is its floor. *)
Lemma Qtrunc_floor (x : Q) : (0 <= x)%Q -> Qtrunc x = Qfloor x.
Proof.
  destruct x as [n d]. unfold Qle, Qtrunc, Qfloor. simpl.
  intros H. apply Z.quot_div_nonneg; lia.
Qed.

Lemma Qfloor_unique (x : Q) (i : Z) :
  (inject_Z i <= x)%Q -> (x < inject_Z (i + 1))%Q -> Qfloor x = i.
Proof.
  intros Hlo Hhi.
  pose proof (Qfloor_le x) as H1. pose proof (Qlt_floor x) as H2.
  assert (Qfloor x < i + 1).
  { rewrite Zlt_Qlt. eapply Qle_lt_trans; eauto. }
  assert (i < Qfloor x + 1).
  { rewrite Zlt_Qlt. eapply Qle_lt_trans; eauto. }
  lia.
Qed.

Lemma Qtrunc_index (i : Z) (d : Q) :
  0 <= i -> (0 <= d)%Q -> (d < 1)%Q -> Qtrunc (inject_Z i + d) = i.
Proof.
  intros Hi Hd0 Hd1.
  assert (H : (inject_Z 0 <= inject_Z i)%Q) by (rewrite <- Zle_Qle; exact Hi).
  change (inject_Z 0) with 0%Q in H.
  rewrite Qtrunc_floor by lra.
  apply Qfloor_unique; [lra|]. rewrite inject_Z_plus.
  change (inject_Z 1) with 1%Q. lra.
Qed.

Lemma PREV_index (i : Z) (d : Q) :
  0 <= i <= INT_MAX -> (0 <= d)%Q -> (d < 1)%Q ->
  PREV (inject_Z i + d)%Q = Some i.
Proof.
  intros Hi Hd0 Hd1. unfold PREV. simpl.
  rewrite Qtrunc_index by (assumption || lia). apply as_int_Some. unfold INT_MIN. lia.
Qed.

Lemma NEXT_index (i : Z) (d : Q) :
  0 <= i < INT_MAX -> (0 <= d)%Q -> (d < 1)%Q ->
  NEXT (inject_Z i + d)%Q = Some (i + 1).
Proof.
  intros Hi Hd0 Hd1. unfold NEXT. simpl.
  rewrite Qtrunc_index by (assumption || lia).
  rewrite as_int_Some by (unfold INT_MIN; lia). simpl.
  apply as_int_Some. unfold INT_MIN. lia.
Qed.

Lemma in_array_true i : 0 <= i < MAX_LEVEL -> in_array i = true.
Proof.
  intros [H0 H1]. unfold in_array.
  apply Z.leb_le in H0. apply Z.ltb_lt in H1. now rewrite H0, H1.
Qed.

Lemma in_array_spec i : in_array i = true <-> 0 <= i < MAX_LEVEL.
Proof.
  unfold in_array. rewrite andb_true_iff, Z.leb_le, Z.ltb_lt. tauto.
Qed.

Lemma lut_at_cell {num : Type} {FA : FloatArith num}
    (lut3d : LUT3DContext num) (i j k : Z) :
  0 <= i < MAX_LEVEL -> 0 <= j < MAX_LEVEL -> 0 <= k < MAX_LEVEL ->
  lut_at lut3d i j k = Some (cell lut3d i j k).
Proof.
  intros Hi Hj Hk. unfold lut_at.
  now rewrite !in_array_true by assumption.
Qed.

Lemma flt_Q (x y : Q) : flt x y = true <-> (x < y)%Q.
Proof.
  simpl. rewrite negb_true_iff. split.
  - intros H. apply Qnot_le_lt. intros Hle.
    apply Qle_bool_iff in Hle. congruence.
  - intros H. destruct (Qle_bool y x) eqn:E; [|reflexivity].
    apply Qle_bool_iff in E. lra.
Qed.

Lemma flt_Q_false (x y : Q) : flt x y = false <-> (y <= x)%Q.
Proof.
  simpl. rewrite negb_false_iff. apply Qle_bool_iff.
Qed.

Lemma remainder_coord (ir ig ib : Z) (dr dg db : Q) :
  0 <= ir <= INT_MAX -> 0 <= ig <= INT_MAX -> 0 <= ib <= INT_MAX ->
  (0 <= dr < 1)%Q -> (0 <= dg < 1)%Q -> (0 <= db < 1)%Q ->
  remainder (coord ir ig ib dr dg db)
  = Some (mk_rgbvec (inject_Z ir + dr - inject_Z ir)%Q
                    (inject_Z ig + dg - inject_Z ig)%Q
                    (inject_Z ib + db - inject_Z ib)%Q).
Proof.
  intros Hr Hg Hb [? ?] [? ?] [? ?]. unfold remainder, coord. cbn [r g b].
  rewrite !PREV_index by assumption. reflexivity.
Qed.

Lemma tetra_order_unique (t t' : tetra_case) (dr dg db : Q) :
  tetra_order t dr dg db -> tetra_order t' dr dg db -> t = t'.
Proof.
  destruct t, t'; simpl; intros H H'; solve [reflexivity | exfalso; lra].
Qed.

Lemma tetra_sorted_max_min (t : tetra_case) (dr dg db : Q) :
  tetra_order t dr dg db ->
  let '(mx, md, mn) := tetra_sorted t dr dg db in
  (mx == Qmax dr (Qmax dg db) /\ mn == Qmin dr (Qmin dg db) /\
   mx + md + mn == dr + dg + db)%Q.
Proof.
  pose proof (Q.max_spec dg db). pose proof (Q.max_spec dr (Qmax dg db)).
  pose proof (Q.min_spec dg db). pose proof (Q.min_spec dr (Qmin dg db)).
  destruct t; simpl; intros Ht; refine (conj _ (conj _ _)); lra.
Qed.

(** The tetrahedral routine, branch by branch: the result is the blend of
    [c000], the two corners on the path of the selected tetrahedron and
    [c111], with the weights of [tetra_weights]. *)
Lemma tetrahedral_blend (lut3d : LUT3DContext Q) (ir ig ib : Z) (dr dg db : Q) :
  0 <= ir < MAX_LEVEL - 1 -> 0 <= ig < MAX_LEVEL - 1 -> 0 <= ib < MAX_LEVEL - 1 ->
  (0 <= dr < 1)%Q -> (0 <= dg < 1)%Q -> (0 <= db < 1)%Q ->
  exists t v,
    tetra_order t dr dg db /\
    interp_tetrahedral lut3d (coord ir ig ib dr dg db) = Some v /\
    rgb_eq v (tetra_blend lut3d ir ig ib t dr dg db).
Proof.
  intros Hr Hg Hb Hdr Hdg Hdb.
  unfold MAX_LEVEL in *.
  assert (Hrem := remainder_coord ir ig ib dr dg db).
  unfold interp_tetrahedral. rewrite Hrem by (unfold INT_MAX; lia || assumption).
  clear Hrem. unfold coord. cbn [r g b mbind option_bind].
  destruct Hdr as [Hdr0 Hdr1], Hdg as [Hdg0 Hdg1], Hdb as [Hdb0 Hdb1].
  rewrite !PREV_index by (unfold INT_MAX; lia || assumption).
  rewrite !NEXT_index by (unfold INT_MAX; lia || assumption).
  cbn [mbind option_bind].
  rewrite !lut_at_cell by (unfold MAX_LEVEL; lia).
  cbn [mbind option_bind].
  set (er := (inject_Z ir + dr - inject_Z ir)%Q).
  set (eg := (inject_Z ig + dg - inject_Z ig)%Q).
  set (eb := (inject_Z ib + db - inject_Z ib)%Q).
  assert (Er : (er == dr)%Q) by (unfold er; ring).
  assert (Eg : (eg == dg)%Q) by (unfold eg; ring).
  assert (Eb : (eb == db)%Q) by (unfold eb; ring).
  unfold fgt.
  destruct (flt eg er) eqn:T1; [apply flt_Q in T1|apply flt_Q_false in T1];
  [destruct (flt eb eg) eqn:T2; [apply flt_Q in T2|apply flt_Q_false in T2;
     destruct (flt eb er) eqn:T3; [apply flt_Q in T3|apply flt_Q_false in T3]]
  |destruct (flt eg eb) eqn:T2; [apply flt_Q in T2|apply flt_Q_false in T2;
     destruct (flt er eb) eqn:T3; [apply flt_Q in T3|apply flt_Q_false in T3]]].
  all: [> exists T_rgb | exists T_rbg | exists T_brg
        | exists T_bgr | exists T_gbr | exists T_grb ].
  all: eexists; split; [simpl; lra|]; split; [reflexivity|].
  all: unfold rgb_eq, tetra_blend, tetra_weights, blend4, corner, sum4;
       cbn [tetra_sorted tetra_path r g b fst snd fadd fsub fmul Q_arith int_to_float];
       rewrite ?Z.add_0_r; fold er eg eb; rewrite Er, Eg, Eb;
       refine (conj _ (conj _ _)); ring.
Qed.

(** In exact arithmetic, for every base cell inside a grid of size at
    least 2 and every remainder triple in [0,1)^3: exactly one of the six
    orderings holds; the tetrahedral routine returns the blend of 4 of the
    8 corners ([c000], the two corners on the path of that ordering, [c111])
    with weights 1 - max, max - mid, mid - min and min of the remainders;
    and the four weights sum to 1. *)
Lemma tetrahedral_exact_blend (lut3d : LUT3DContext Q)
    (ir ig ib : Z) (dr dg db : Q) :
  2 <= lutsize lut3d <= MAX_LEVEL ->
  0 <= ir <= lutsize lut3d - 2 ->
  0 <= ig <= lutsize lut3d - 2 ->
  0 <= ib <= lutsize lut3d - 2 ->
  (0 <= dr < 1)%Q -> (0 <= dg < 1)%Q -> (0 <= db < 1)%Q ->
  exists t : tetra_case,
    tetra_order t dr dg db /\
    (forall t', tetra_order t' dr dg db -> t' = t) /\
    let '(mx, md, mn) := tetra_sorted t dr dg db in
    let '(w0, w1, w2, w3) := tetra_weights t dr dg db in
    (mx == Qmax dr (Qmax dg db) /\ mn == Qmin dr (Qmin dg db) /\
     mx + md + mn == dr + dg + db /\
     w0 == 1 - mx /\ w1 == mx - md /\ w2 == md - mn /\ w3 == mn /\
     w0 + w1 + w2 + w3 == 1)%Q /\
    exists v,
      interp_tetrahedral lut3d (coord ir ig ib dr dg db) = Some v /\
      rgb_eq v (blend4 w0 w1 w2 w3
                  (corner lut3d ir ig ib (0, 0, 0))
                  (corner lut3d ir ig ib (tetra_path t).1)
                  (corner lut3d ir ig ib (tetra_path t).2)
                  (corner lut3d ir ig ib (1, 1, 1))).
Proof.
  intros Hsize Hr Hg Hb Hdr Hdg Hdb.
  destruct (tetrahedral_blend lut3d ir ig ib dr dg db)
    as (t & v & Ht & Hv & Heq); try assumption; try (unfold MAX_LEVEL in *; lia).
  exists t. split; [exact Ht|].
  split; [intros t' Ht'; apply (tetra_order_unique _ _ _ _ _ Ht' Ht)|].
  pose proof (tetra_sorted_max_min t dr dg db Ht) as Hs.
  unfold tetra_blend in Heq. unfold tetra_weights in *.
  destruct (tetra_sorted t dr dg db) as [[mx md] mn].
  destruct Hs as (H1 & H2 & H3).
  split.
  - repeat (split; [first [assumption | reflexivity]|]). ring.
  - exists v. split; [exact Hv|exact Heq].
Qed.

(** C1, as the code computes it.  In any float arithmetic, for a
    coordinate whose base cell and its successors lie inside the array:
    the comparisons of the remainders select exactly one of the six
    branches, and the routine returns, channel by channel, the float sum
    [w0 * c000 + w1 * ca + w2 * cb + w3 * c111] of 4 of the 8 corner
    samples, [ca] and [cb] the corners on the path of the branch, with the
    float weights 1 - max, max - mid, mid - min and min. *)
Theorem tetrahedral_six_cases {num : Type} {FA : FloatArith num}
    (lut3d : LUT3DContext num) (s : rgbvec num) (pr pg pb : Z) :
  PREV (r s) = Some pr -> PREV (g s) = Some pg -> PREV (b s) = Some pb ->
  0 <= pr < MAX_LEVEL - 1 -> 0 <= pg < MAX_LEVEL - 1 ->
  0 <= pb < MAX_LEVEL - 1 ->
  let d := mk_rgbvec (fsub (r s) (int_to_float pr))
                     (fsub (g s) (int_to_float pg))
                     (fsub (b s) (int_to_float pb)) in
  exists t : tetra_case,
    branch_order t d /\
    (forall t', branch_order t' d -> t' = t) /\
    interp_tetrahedral lut3d s
    = Some (weighted4 (branch_weights t d)
              (corner lut3d pr pg pb (0, 0, 0))
              (corner lut3d pr pg pb (tetra_path t).1)
              (corner lut3d pr pg pb (tetra_path t).2)
              (corner lut3d pr pg pb (1, 1, 1))).
Proof.
  intros Pr Pg Pb Hr Hg Hb d. unfold MAX_LEVEL in Hr, Hg, Hb.
  assert (Nr : NEXT (r s) = Some (pr + 1)).
  { unfold NEXT. unfold PREV in Pr. rewrite Pr. cbn [mbind option_bind].
    apply as_int_Some. unfold INT_MIN, INT_MAX. lia. }
  assert (Ng : NEXT (g s) = Some (pg + 1)).
  { unfold NEXT. unfold PREV in Pg. rewrite Pg. cbn [mbind option_bind].
    apply as_int_Some. unfold INT_MIN, INT_MAX. lia. }
  assert (Nb : NEXT (b s) = Some (pb + 1)).
  { unfold NEXT. unfold PREV in Pb. rewrite Pb. cbn [mbind option_bind].
    apply as_int_Some. unfold INT_MIN, INT_MAX. lia. }
  unfold interp_tetrahedral, remainder.
  rewrite Pr, Pg, Pb, Nr, Ng, Nb. cbn [mbind option_bind].
  rewrite !lut_at_cell by (unfold MAX_LEVEL; lia).
  cbn [mbind option_bind]. fold d.
  unfold corner. cbn [tetra_path fst snd]. rewrite !Z.add_0_r.
  destruct (fgt (r d) (g d)) eqn:T1;
    [destruct (fgt (g d) (b d)) eqn:T2;
       [|destruct (fgt (r d) (b d)) eqn:T3]
    |destruct (fgt (b d) (g d)) eqn:T2;
       [|destruct (fgt (b d) (r d)) eqn:T3]].
  all: [> exists T_rgb | exists T_rbg | exists T_brg
        | exists T_bgr | exists T_gbr | exists T_grb ].
  all: (split; [cbn [branch_order]; auto|]);
       (split;
        [intros t' Ht'; destruct t'; cbn [branch_order] in Ht';
         first [reflexivity | exfalso; decompose [and] Ht'; congruence]|]);
       cbn [tetra_path fst snd]; rewrite ?Z.add_0_r; reflexivity.
Qed.

(** The 8-bit pixel (0, 17, 51) in the white 2x2x2 grid, in binary32: the
    remainders are 0 < 17/255 < 51/255, the branch is b > g > r. *)
Lemma tetrahedral_six_cases_witness :
  let d := mk_rgbvec (fsub (r demo_coord) (int_to_float 0))
                     (fsub (g demo_coord) (int_to_float 0))
                     (fsub (b demo_coord) (int_to_float 0)) in
  exists t : tetra_case,
    branch_order t d /\
    (forall t', branch_order t' d -> t' = t) /\
    interp_tetrahedral white_grid demo_coord
    = Some (weighted4 (branch_weights t d)
              (corner white_grid 0 0 0 (0, 0, 0))
              (corner white_grid 0 0 0 (tetra_path t).1)
              (corner white_grid 0 0 0 (tetra_path t).2)
              (corner white_grid 0 0 0 (1, 1, 1))).
Proof.
  apply (tetrahedral_six_cases white_grid demo_coord 0 0 0);
    vm_compute; solve [reflexivity | split; congruence].
Defined.

(** C1, the sum of the weights.  In binary32 the four weights computed
    for the 8-bit pixel (0, 17, 51) in a grid of size 2, added in float,
    give 1 - 2^-24 and not 1. *)
Theorem tetrahedral_weights_below_one :
  scaled_rgb 8 white_grid 0 17 51 = Some demo_coord /\
  remainder demo_coord = Some demo_remainder /\
  branch_order T_bgr demo_remainder /\
  weights_sum (branch_weights T_bgr demo_remainder)
  = S754_finite false 16777215 (-24) /\
  weights_sum (branch_weights T_bgr demo_remainder) <> int_to_float 1.
Proof.
  split; [reflexivity|]. split; [reflexivity|].
  split; [vm_compute; auto|].
  split; [vm_compute; reflexivity|vm_compute; discriminate].
Qed.


Lemma NEAR_index (i : Z) (d : Q) :
  0 <= i <= INT_MAX -> (0 <= d)%Q -> (d < 1 # 2)%Q ->
  NEAR (inject_Z i + d)%Q = Some i.
Proof.
  intros Hi Hd0 Hd1. unfold NEAR, d_half. simpl.
  assert (H : (inject_Z 0 <= inject_Z i)%Q) by (rewrite <- Zle_Qle; lia).
  change (inject_Z 0) with 0%Q in H.
  assert (E : Qtrunc (inject_Z i + d + inject_Z 1 / inject_Z 2) = i).
  { change (inject_Z 1 / inject_Z 2)%Q with (1 # 2)%Q.
    rewrite Qtrunc_floor by lra.
    apply Qfloor_unique; [lra|]. rewrite inject_Z_plus.
    change (inject_Z 1) with 1%Q. lra. }
  rewrite E. apply as_int_Some. unfold INT_MIN. lia.
Qed.

(** At a grid vertex whose successors along the three axes are inside the
    array, the three strategies return the sample stored at the vertex. *)
Lemma vertex_exact (lut3d : LUT3DContext Q) (i j k : Z) :
  0 <= i < MAX_LEVEL - 1 -> 0 <= j < MAX_LEVEL - 1 -> 0 <= k < MAX_LEVEL - 1 ->
  forall name, exists v,
    interp_by_name name lut3d (coord i j k 0 0 0) = Some v /\
    rgb_eq v (cell lut3d i j k).
Proof.
  intros Hi Hj Hk name. unfold MAX_LEVEL in *.
  assert (Hz : (0 <= 0 < 1)%Q) by lra.
  destruct name; simpl.
  - unfold interp_nearest, coord. cbn [r g b].
    rewrite !NEAR_index by (unfold INT_MAX; lia || lra).
    cbn [mbind option_bind].
    rewrite lut_at_cell by (unfold MAX_LEVEL; lia).
    eexists; split; [reflexivity|]. unfold rgb_eq. repeat split; reflexivity.
  - unfold interp_trilinear.
    rewrite remainder_coord by (unfold INT_MAX; lia || assumption).
    unfold coord. cbn [r g b mbind option_bind].
    rewrite !PREV_index by (unfold INT_MAX; lia || lra).
    rewrite !NEXT_index by (unfold INT_MAX; lia || lra).
    cbn [mbind option_bind].
    rewrite !lut_at_cell by (unfold MAX_LEVEL; lia).
    cbn [mbind option_bind].
    eexists; split; [reflexivity|].
    unfold rgb_eq, lerp, lerpf.
    cbn [r g b fadd fsub fmul Q_arith]. refine (conj _ (conj _ _)); ring.
  - destruct (tetrahedral_blend lut3d i j k 0 0 0) as (t & v & Ht & Hv & Heq);
      try (unfold MAX_LEVEL; lia); try lra.
    exists v; split; [exact Hv|]. revert Heq.
    destruct t; simpl in Ht; try (exfalso; lra).
    unfold rgb_eq, tetra_blend, tetra_weights, blend4, corner.
    cbn [tetra_sorted tetra_path r g b fst snd]. rewrite !Z.add_0_r.
    intros (H1 & H2 & H3). rewrite H1, H2, H3.
    refine (conj _ (conj _ _)); ring.
Qed.

(** The coordinate depends on the context through [lutsize] only. *)
Lemma scaled_rgb_lutsize {num : Type} {FA : FloatArith num}
    (nbits : Z) (lut3d lut3d' : LUT3DContext num) (cr cg cb : Z) :
  lutsize lut3d = lutsize lut3d' ->
  scaled_rgb nbits lut3d cr cg cb = scaled_rgb nbits lut3d' cr cg cb.
Proof.
  intros H. unfold scaled_rgb, interp_scale. now rewrite H.
Qed.

(** Below the largest channel value the floor index stays under the last
    grid index, so [PREV] and [NEXT] both address the grid. *)
Lemma below_top_in_grid (nbits : Z) (lut3d : LUT3DContext Q) (v : Z) :
  nbits = 8 \/ nbits = 16 ->
  2 <= lutsize lut3d <= MAX_LEVEL ->
  0 <= v < max_value nbits ->
  exists x : Q,
    interp_scale nbits lut3d = Some x /\
    exists i : Z,
      PREV (fmul (int_to_float v) x) = Some i /\
      NEXT (fmul (int_to_float v) x) = Some (i + 1) /\
      0 <= i <= lutsize lut3d - 2.
Proof.
  intros Hbits Hsize Hv. unfold MAX_LEVEL in Hsize.
  unfold interp_scale.
  rewrite as_int_Some by (unfold INT_MIN, INT_MAX; lia).
  cbn [mbind option_bind].
  eexists; split; [reflexivity|].
  match goal with |- context [PREV ?e] => set (y := e) end.
  assert (Hs1 : (1 <= inject_Z (lutsize lut3d - 1))%Q).
  { change 1%Q with (inject_Z 1). rewrite <- Zle_Qle. lia. }
  assert (Hv0 : (0 <= inject_Z v)%Q).
  { change 0%Q with (inject_Z 0). rewrite <- Zle_Qle. lia. }
  assert (Hy : (0 <= y)%Q /\ (y < inject_Z (lutsize lut3d - 1))%Q).
  { unfold y. cbn [fmul double_to_float dmul ddiv int_to_double int_to_float Q_arith].
    destruct Hbits as [-> | ->]; unfold max_value in Hv.
    - change (Z.shiftl 1 8 - 1) with 255 in Hv.
      assert (Hv1 : (inject_Z v <= 254)%Q).
      { change 254%Q with (inject_Z 254). rewrite <- Zle_Qle. lia. }
      change (inject_Z 1 / inject_Z (Z.shiftl 1 8 - 1))%Q with (1 # 255)%Q.
      split; nra.
    - change (Z.shiftl 1 16 - 1) with 65535 in Hv.
      assert (Hv1 : (inject_Z v <= 65534)%Q).
      { change 65534%Q with (inject_Z 65534). rewrite <- Zle_Qle. lia. }
      change (inject_Z 1 / inject_Z (Z.shiftl 1 16 - 1))%Q with (1 # 65535)%Q.
      split; nra. }
  destruct Hy as [Hy0 Hy1].
  assert (Hf0 : 0 <= Qfloor y).
  { change 0 with (Qfloor 0). now apply Qfloor_resp_le. }
  assert (Hf1 : Qfloor y < lutsize lut3d - 1).
  { rewrite Zlt_Qlt. eapply Qle_lt_trans; [apply Qfloor_le|exact Hy1]. }
  exists (Qfloor y).
  unfold PREV, NEXT. cbn [to_int Q_arith].
  rewrite Qtrunc_floor by exact Hy0.
  rewrite as_int_Some by (unfold INT_MIN, INT_MAX; lia).
  cbn [mbind option_bind].
  rewrite as_int_Some by (unfold INT_MIN, INT_MAX; lia).
  split; [reflexivity|]. split; [reflexivity|]. lia.
Qed.

(** C7 at the top vertex of a grid of the largest size: [nearest] returns
    the stored sample, [trilinear] and [tetrahedral] read
    [lut3d->lut[36][..][..]], past the end of the array, in exact and in
    binary32 arithmetic alike. *)
Theorem top_vertex_reads_past_array :
  (forall lut3d : LUT3DContext Q,
     interp_nearest lut3d (coord 35 35 35 0 0 0) = Some (cell lut3d 35 35 35) /\
     interp_trilinear lut3d (coord 35 35 35 0 0 0) = None /\
     interp_tetrahedral lut3d (coord 35 35 35 0 0 0) = None) /\
  (forall lut3d : LUT3DContext spec_float,
     let s := mk_rgbvec (int_to_float 35) (int_to_float 35) (int_to_float 35) in
     interp_nearest lut3d s = Some (cell lut3d 35 35 35) /\
     interp_trilinear lut3d s = None /\
     interp_tetrahedral lut3d s = None).
Proof.
  split; intros lut3d; repeat split; reflexivity.
Qed.

(** C3 at the largest channel value: for every axis size from 1 to 36 and
    both sample widths, in exact and in binary32 arithmetic, the floor
    index is [size - 1] and [NEXT] is [size], one past the grid; at size
    36 the trilinear and tetrahedral reads leave the array. *)
Theorem top_value_reads_past_grid :
  Forall (fun size =>
            top_indices (num := Q) 8 size = Some (size - 1, size) /\
            top_indices (num := Q) 16 size = Some (size - 1, size) /\
            top_indices (num := spec_float) 8 size = Some (size - 1, size) /\
            top_indices (num := spec_float) 16 size = Some (size - 1, size))
         (seqZ 1 36) /\
  (forall lut3d : LUT3DContext Q,
     interp_func 8 INTERPOLATE_TRILINEAR (set_lutsize lut3d 36) 255 255 255 = None /\
     interp_func 8 INTERPOLATE_TETRAHEDRAL (set_lutsize lut3d 36) 255 255 255 = None /\
     interp_func 16 INTERPOLATE_TRILINEAR (set_lutsize lut3d 36) 65535 65535 65535 = None /\
     interp_func 16 INTERPOLATE_TETRAHEDRAL (set_lutsize lut3d 36) 65535 65535 65535 = None) /\
  (forall lut3d : LUT3DContext spec_float,
     interp_func 8 INTERPOLATE_TRILINEAR (set_lutsize lut3d 36) 255 255 255 = None /\
     interp_func 8 INTERPOLATE_TETRAHEDRAL (set_lutsize lut3d 36) 255 255 255 = None /\
     interp_func 16 INTERPOLATE_TRILINEAR (set_lutsize lut3d 36) 65535 65535 65535 = None /\
     interp_func 16 INTERPOLATE_TETRAHEDRAL (set_lutsize lut3d 36) 65535 65535 65535 = None).
Proof.
  split; [|split].
  - apply (bool_decide_unpack _). vm_compute. reflexivity.
  - intros lut3d. repeat split; reflexivity.
  - intros lut3d. repeat split; reflexivity.
Qed.

(** ** Loops *)

Lemma for_loop_each {S : Type} (n : nat) (i : Z)
    (body : Z -> S -> option (flow S)) (s : S) :
  for_loop n i body s = for_each (seqZ i (Z.of_nat n)) body s.
Proof.
  revert i s. induction n as [|n IH]; intros i s.
  - reflexivity.
  - rewrite Nat2Z.inj_succ, seqZ_cons by lia. simpl.
    destruct (body i s) as [[s'|ret s']|]; try reflexivity.
    rewrite IH. do 2 f_equal; lia.
Qed.

Lemma for_upto_each {S : Type} (size : Z)
    (body : Z -> S -> option (flow S)) (s : S) :
  for_upto size body s = for_each (seqZ 0 size) body s.
Proof.
  unfold for_upto. rewrite for_loop_each.
  destruct (Z.le_gt_cases 0 size).
  - now rewrite Z2Nat.id.
  - replace (Z.to_nat size) with 0%nat by lia. simpl.
    unfold seqZ. now replace (Z.to_nat size) with 0%nat by lia.
Qed.

Lemma for_each_app {S A : Type} (l1 l2 : list A)
    (body : A -> S -> option (flow S)) (s : S) :
  for_each (l1 ++ l2) body s =
  match for_each l1 body s with
  | Some (Continue s') => for_each l2 body s'
  | other => other
  end.
Proof.
  revert s. induction l1 as [|a l1 IH]; intros s; simpl.
  - reflexivity.
  - destruct (body a s) as [[s'|ret s']|]; auto.
Qed.

Lemma for_each_ext {S A : Type} (l : list A)
    (body body' : A -> S -> option (flow S)) (s : S) :
  (forall a s, a ∈ l -> body a s = body' a s) ->
  for_each l body s = for_each l body' s.
Proof.
  revert s. induction l as [|a l IH]; intros s H; simpl.
  - reflexivity.
  - rewrite <- H by apply list_elem_of_here.
    destruct (body a s) as [[s'|ret s']|]; try reflexivity.
    apply IH. intros a' s'' Hin. apply H. now apply list_elem_of_further.
Qed.

Lemma for_each_bind {S A B : Type} (l : list A) (f : A -> list B)
    (body : B -> S -> option (flow S)) (s : S) :
  for_each l (fun a => for_each (f a) body) s = for_each (l ≫= f) body s.
Proof.
  revert s. induction l as [|a l IH]; intros s; simpl.
  - reflexivity.
  - rewrite for_each_app.
    destruct (for_each (f a) body s) as [[s'|ret s']|]; auto.
Qed.

Lemma for_each_map {S A B : Type} (l : list A) (f : A -> B)
    (body : B -> S -> option (flow S)) (s : S) :
  for_each l (fun a => body (f a)) s = for_each (f <$> l) body s.
Proof.
  revert s. induction l as [|a l IH]; intros s; simpl.
  - reflexivity.
  - destruct (body (f a) s) as [[s'|ret s']|]; auto.
Qed.

(** The loop nest of the loaders is one pass over [cell_list]. *)
Lemma for_kji_cells {S : Type} (size : Z)
    (body : Z -> Z -> Z -> S -> option (flow S)) (s : S) :
  for_kji size body s = for_each (cell_list size) (on_cell body) s.
Proof.
  unfold for_kji, cell_list. rewrite for_upto_each.
  rewrite <- for_each_bind. apply for_each_ext. intros k s1 _.
  rewrite for_upto_each.
  rewrite <- for_each_bind. apply for_each_ext. intros j s2 _.
  rewrite for_upto_each.
  rewrite <- for_each_bind. apply for_each_ext. intros i s3 _.
  simpl. unfold on_cell. simpl.
  destruct (body k j i s3) as [[s'|ret s']|]; reflexivity.
Qed.

Lemma cell_list_elem (size : Z) (c : Z * Z * Z) :
  c ∈ cell_list size <->
  0 <= c.1.1 < size /\ 0 <= c.1.2 < size /\ 0 <= c.2 < size.
Proof.
  destruct c as [[k j] i]. unfold cell_list. simpl.
  rewrite list_elem_of_bind. split.
  - intros (k' & H & Hk). apply elem_of_seqZ in Hk.
    apply list_elem_of_bind in H as (j' & H & Hj). apply elem_of_seqZ in Hj.
    apply list_elem_of_bind in H as (i' & H & Hi). apply elem_of_seqZ in Hi.
    apply list_elem_of_singleton in H. injection H as -> -> ->. lia.
  - intros (Hk & Hj & Hi). exists k. split; [|apply elem_of_seqZ; lia].
    apply list_elem_of_bind. exists j. split; [|apply elem_of_seqZ; lia].
    apply list_elem_of_bind. exists i. split; [|apply elem_of_seqZ; lia].
    apply list_elem_of_singleton. reflexivity.
Qed.

Lemma bind_const_length {A B : Type} (l : list A) (f : A -> list B) (n : nat) :
  (forall a, length (f a) = n) -> length (l ≫= f) = (length l * n)%nat.
Proof.
  intros H. induction l as [|a l IH]; csimpl; [reflexivity|].
  rewrite length_app, H, IH. reflexivity.
Qed.

Lemma cell_list_length (size : Z) :
  length (cell_list size) = (Z.to_nat size * (Z.to_nat size * Z.to_nat size))%nat.
Proof.
  unfold cell_list.
  rewrite (bind_const_length _ _ (Z.to_nat size * Z.to_nat size)).
  - now rewrite length_seqZ.
  - intros k. rewrite (bind_const_length _ _ (Z.to_nat size)).
    + now rewrite length_seqZ.
    + intros j. rewrite (bind_const_length _ _ 1%nat).
      * rewrite length_seqZ. lia.
      * reflexivity.
Qed.

Lemma cell_list_in_array (size : Z) :
  size <= MAX_LEVEL -> Forall cell_in_array (cell_list size).
Proof.
  intros H. apply Forall_forall. intros c Hc.
  apply cell_list_elem in Hc. unfold cell_in_array. lia.
Qed.

(** ** Reading lines *)

Lemma NEXT_LINE_None (c : string -> bool) (f : FILE) :
  NEXT_LINE c f = None -> data_lines c f = [].
Proof.
  induction f as [|l f IH]; simpl; [reflexivity|].
  destruct (c l); simpl; [exact IH|discriminate].
Qed.

Lemma NEXT_LINE_Some (c : string -> bool) (f f' : FILE) (l : string) :
  NEXT_LINE c f = Some (l, f') ->
  data_lines c f = l :: data_lines c f' /\ c l = false.
Proof.
  induction f as [|l0 f IH]; simpl; [discriminate|].
  destruct (c l0) eqn:E; simpl.
  - exact IH.
  - intros [= <- <-]. auto.
Qed.

Lemma NEXT_LINE_data (c : string -> bool) (f : FILE) :
  data_lines c f = [] -> NEXT_LINE c f = None.
Proof.
  induction f as [|l f IH]; simpl; [reflexivity|].
  destruct (c l); simpl; [exact IH|discriminate].
Qed.

Lemma sscanf_rep_count {X : Type} (conv : string -> option (X * string))
    (n : nat) (str : string) (got : list X) :
  let res := sscanf_rep conv n str got in
  (res.1 = Z.of_nat (length res.2) \/ (res.1 = C_EOF /\ res.2 = [])) /\
  (length res.2 <= length got + n)%nat.
Proof.
  revert str got. induction n as [|n IH]; intros str got; simpl.
  - split; [left; reflexivity|lia].
  - destruct (skip_spaces str) as [|c str'] eqn:E.
    + simpl. split; [|lia]. destruct got; [right|left]; auto.
    + destruct (conv (String c str')) as [[x rest]|].
      * specialize (IH rest (got ++ [x])%list). rewrite length_app in IH.
        simpl in IH. split; [apply IH|lia].
      * simpl. split; [left; reflexivity|lia].
Qed.

Lemma sscanf3_three {X : Type} (conv : string -> option (X * string))
    (str : string) :
  (sscanf3 conv str).1 = 3 <->
  exists a b c, sscanf3 conv str = (3, [a; b; c]).
Proof.
  pose proof (sscanf_rep_count conv 3 str []) as [H1 H2].
  fold (sscanf3 conv str) in H1, H2. simpl in H2.
  destruct (sscanf3 conv str) as [n l]. simpl in *. split.
  - intros ->. destruct H1 as [H1|[H1 _]]; [|discriminate].
    destruct l as [|a [|b [|c [|d l]]]]; simpl in *; try lia.
    eauto.
  - intros (a & b & c & [= -> ->]). reflexivity.
Qed.

Lemma conv_3dl_Some {num : Type} {FA : FloatArith num} (scale : num)
    (line : string) :
  is_Some (conv_3dl scale line) <-> int_triple line.
Proof.
  unfold conv_3dl, int_triple. rewrite sscanf3_three. split.
  - destruct (sscanf3 scan_int line) as [n l]. intros [u Hu].
    destruct n as [|[[?|?|]|?|]|?]; try discriminate.
    destruct l as [|a [|b [|c [|d l]]]]; try discriminate. eauto.
  - intros (a & b & c & ->). eauto.
Qed.

Lemma conv_m3d_Some {num : Type} {FA : FloatArith num} (scale : num)
    (rgb_map : Z * Z * Z) (line : string) :
  is_Some (conv_m3d scale rgb_map line) <-> float_triple (num := num) line.
Proof.
  unfold conv_m3d, float_triple. rewrite sscanf3_three. split.
  - destruct (sscanf3 scan_float line) as [n l]. intros [u Hu].
    destruct n as [|[[?|?|]|?|]|?]; try discriminate.
    destruct l as [|a [|b [|c [|d l]]]]; try discriminate. eauto.
  - intros (a & b & c & ->). eauto.
Qed.

Lemma lut_set_Some {num : Type} {FA : FloatArith num}
    (lut3d : LUT3DContext num) (k j i : Z) (v : rgbvec num) :
  cell_in_array (k, j, i) ->
  exists lut3d', lut_set lut3d k j i v = Some lut3d' /\
    lutsize lut3d' = lutsize lut3d /\
    lut lut3d' = <[(k, j, i) := v]> (lut lut3d).
Proof.
  intros (Hk & Hj & Hi). simpl in *. unfold lut_set.
  rewrite !in_array_true by assumption. eexists; split; [reflexivity|].
  split; reflexivity.
Qed.

Lemma parse_dat_cell_reader {num : Type} {FA : FloatArith num}
    (k j i : Z) (st : pstate num) :
  parse_dat_cell k j i st = reader_cell skip_line conv_dat k j i st.
Proof.
  unfold parse_dat_cell, reader_cell, conv_dat.
  destruct (NEXT_LINE skip_line (ps_file st)) as [[line f']|]; [|reflexivity].
  unfold lut_at, lut_set, cell.
  destruct (in_array k && in_array j && in_array i); [|reflexivity].
  simpl. destruct (sscanf_vec line _) as [n vec']. reflexivity.
Qed.

Lemma parse_3dl_cell_reader {num : Type} {FA : FloatArith num}
    (scale : num) (k j i : Z) (st : pstate num) :
  parse_3dl_cell scale k j i st
  = reader_cell skip_line (conv_3dl scale) k j i st.
Proof.
  unfold parse_3dl_cell, reader_cell, conv_3dl.
  destruct (NEXT_LINE skip_line (ps_file st)) as [[line f']|]; [|reflexivity].
  destruct (sscanf3 scan_int line) as [n l].
  destruct n as [|[[?|?|]|?|]|?]; try reflexivity.
  destruct l as [|a [|b [|c [|d l]]]]; reflexivity.
Qed.

Lemma parse_m3d_cell_reader {num : Type} {FA : FloatArith num}
    (scale : num) (rgb_map : Z * Z * Z) (k j i : Z) (st : pstate num) :
  parse_m3d_cell scale rgb_map k j i st
  = reader_cell (fun _ => false) (conv_m3d scale rgb_map) k j i st.
Proof.
  unfold parse_m3d_cell, reader_cell, conv_m3d.
  destruct (NEXT_LINE _ (ps_file st)) as [[line f']|]; [|reflexivity].
  destruct (sscanf3 scan_float line) as [n l].
  destruct n as [|[[?|?|]|?|]|?]; try reflexivity.
  destruct l as [|a [|b [|c [|d l]]]]; reflexivity.
Qed.

(** What a pass of a reader over in-array cells does: it either stores a
    sample for every cell, having found a data line for each, all of them
    accepted; or returns [AVERROR_INVALIDDATA], at the end of the file
    (logged) or at the first line it rejects. *)
Lemma reader_loop {num : Type} {FA : FloatArith num}
    (loop_cond : string -> bool)
    (conv : string -> option (rgbvec num -> rgbvec num))
    (cells : list (Z * Z * Z)) (st : pstate num) :
  Forall cell_in_array cells ->
  let dl := data_lines loop_cond (ps_file st) in
  exists fl,
    for_each cells (on_cell (reader_cell loop_cond conv)) st = Some fl /\
    match fl with
    | Continue st' =>
        (length cells <= length dl)%nat /\
        Forall (fun l => is_Some (conv l)) (take (length cells) dl) /\
        data_lines loop_cond (ps_file st') = drop (length cells) dl /\
        ps_log st' = ps_log st /\
        lutsize (ps_ctx st') = lutsize (ps_ctx st)
    | Return ret st' =>
        ret = AVERROR_INVALIDDATA /\
        lutsize (ps_ctx st') = lutsize (ps_ctx st) /\
        (((length dl < length cells)%nat /\
          Forall (fun l => is_Some (conv l)) dl /\
          ps_log st' = (ps_log st ++ [eof_entry])%list) \/
         (exists n l, (n < length cells)%nat /\ dl !! n = Some l /\
            conv l = None /\
            Forall (fun l => is_Some (conv l)) (take n dl) /\
            ps_log st' = ps_log st))
    end.
Proof.
  revert st. induction cells as [|[[k j] i] cells IH]; intros st Hin dl.
  - exists (Continue st). simpl. split; [reflexivity|].
    rewrite take_0, drop_0. repeat split; auto. lia.
  - apply Forall_cons in Hin as [Hc Hin]. simpl. unfold on_cell at 1.
    cbn [fst snd]. unfold reader_cell at 1.
    destruct (NEXT_LINE loop_cond (ps_file st)) as [[line f']|] eqn:EN.
    + apply NEXT_LINE_Some in EN as [Edl _]. fold dl in Edl.
      destruct (conv line) as [upd|] eqn:EC.
      * destruct (lut_set_Some (ps_ctx st) k j i (upd (cell (ps_ctx st) k j i)) Hc)
          as (lut3d' & -> & Hsz & _).
        cbn [mbind option_bind].
        destruct (IH (mk_pstate lut3d' f' (ps_log st)) Hin) as (fl & Hfl & Hres).
        exists fl. split; [exact Hfl|].
        cbn [ps_file ps_log ps_ctx] in Hres. rewrite Edl.
        destruct fl as [st'|ret st'].
        -- destruct Hres as (Hlen & Hok & Hdl & Hlog & Hsize).
           cbn [length take drop].
           split; [lia|]. split; [|split; [exact Hdl|split; [exact Hlog|congruence]]].
           apply Forall_cons. split; [rewrite EC; eauto|exact Hok].
        -- destruct Hres as (Hret & Hsize & Hcase).
           split; [exact Hret|]. split; [congruence|].
           destruct Hcase as [(Hlen & Hok & Hlog)|(n & l & Hn & Hl & Hbad & Hok & Hlog)].
           ++ left. cbn [length]. split; [lia|]. split; [|exact Hlog].
              apply Forall_cons. split; [rewrite EC; eauto|exact Hok].
           ++ right. exists (S n), l. cbn [length take].
              split; [lia|]. split; [exact Hl|]. split; [exact Hbad|].
              split; [|exact Hlog].
              apply Forall_cons. split; [rewrite EC; eauto|exact Hok].
      * exists (Return AVERROR_INVALIDDATA (set_file st f')).
        split; [reflexivity|]. split; [reflexivity|]. split; [reflexivity|].
        right. exists 0%nat, line. rewrite Edl. cbn [length].
        split; [lia|]. split; [reflexivity|]. split; [exact EC|].
        split; [apply Forall_nil; constructor|reflexivity].
    + apply NEXT_LINE_None in EN. fold dl in EN.
      exists (Return AVERROR_INVALIDDATA (unexpected_eof st)).
      split; [reflexivity|]. split; [reflexivity|]. split; [reflexivity|].
      left. rewrite EN. cbn [length]. split; [lia|].
      split; [apply Forall_nil; constructor|reflexivity].
Qed.

(** ** The .cube reader *)

Lemma skip_line_not_domain (line : string) :
  strncmp_zero line "DOMAIN_" 7 = true -> skip_line line = false.
Proof.
  destruct line as [|c line]; simpl; [discriminate|].
  destruct (Ascii.eqb c "D") eqn:E; [|discriminate].
  apply Ascii.eqb_eq in E. subst c. reflexivity.
Qed.

Lemma unexpected_eof_set_file {num : Type} {FA : FloatArith num}
    (st : pstate num) (f : FILE) :
  unexpected_eof (set_file st f) = unexpected_eof st.
Proof. reflexivity. Qed.

(** One [do ... while] of [parse_cube]: it ends at the next data line, as
    [NEXT_LINE(skip_line(line))] would, and fails at the end of the file or
    on a [DOMAIN_] line that is neither [MIN ] nor [MAX ]. *)
Lemma cube_read_line_spec {num : Type} {FA : FloatArith num}
    (f : FILE) (cs : cstate num) :
  match NEXT_LINE skip_line f with
  | None =>
      cube_read_line f cs =
      Fail AVERROR_INVALIDDATA
        (mk_cstate (unexpected_eof (cs_st cs)) (cs_min cs) (cs_max cs))
  | Some (line, f') =>
      exists mn mx,
        let cs' := mk_cstate (set_file (cs_st cs) f') mn mx in
        cube_read_line f cs =
        if domain_ok line then Got line cs' else Fail AVERROR_INVALIDDATA cs'
  end.
Proof.
  revert cs. induction f as [|line f IH]; intros cs.
  - reflexivity.
  - cbn [NEXT_LINE cube_read_line]. destruct (skip_line line) eqn:Es.
    + assert (Ed : strncmp_zero line "DOMAIN_" 7 = false).
      { destruct (strncmp_zero line "DOMAIN_" 7) eqn:Ed; [|reflexivity].
        apply skip_line_not_domain in Ed. congruence. }
      rewrite Ed.
      specialize (IH (mk_cstate (set_file (cs_st cs) f) (cs_min cs) (cs_max cs))).
      destruct (NEXT_LINE skip_line f) as [[l f']|]; exact IH.
    + unfold domain_ok.
      destruct (strncmp_zero line "DOMAIN_" 7) eqn:Ed; cbn [negb orb].
      * destruct (strncmp_zero (string_drop 7 line) "MIN " 4) eqn:Emin;
          cbn [orb].
        { eexists _, _. reflexivity. }
        destruct (strncmp_zero (string_drop 7 line) "MAX " 4) eqn:Emax;
          cbn [orb].
        { eexists _, _. reflexivity. }
        eexists _, _. reflexivity.
      * eexists _, _. reflexivity.
Qed.

Lemma sscanf_vec_count {num : Type} {FA : FloatArith num}
    (line : string) (vec : rgbvec num) :
  (sscanf_vec line vec).1 = (sscanf3 scan_float line).1.
Proof.
  unfold sscanf_vec. destruct (sscanf3 scan_float line) as [n vals].
  destruct (assign3 _ vals) as [[vr vg] vb]. reflexivity.
Qed.

(** A pass of [parse_cube_cell] over in-array cells, as [reader_loop]. *)
Lemma cube_loop {num : Type} {FA : FloatArith num}
    (cells : list (Z * Z * Z)) (cs : cstate num) :
  Forall cell_in_array cells ->
  let dl := data_lines skip_line (ps_file (cs_st cs)) in
  exists fl,
    for_each cells (on_cell parse_cube_cell) cs = Some fl /\
    match fl with
    | Continue cs' =>
        (length cells <= length dl)%nat /\
        Forall (cube_ok (num := num)) (take (length cells) dl) /\
        ps_log (cs_st cs') = ps_log (cs_st cs) /\
        lutsize (ps_ctx (cs_st cs')) = lutsize (ps_ctx (cs_st cs))
    | Return ret cs' =>
        ret = AVERROR_INVALIDDATA /\
        lutsize (ps_ctx (cs_st cs')) = lutsize (ps_ctx (cs_st cs)) /\
        (((length dl < length cells)%nat /\
          Forall (cube_ok (num := num)) dl /\
          ps_log (cs_st cs') = (ps_log (cs_st cs) ++ [eof_entry])%list) \/
         (exists n l, (n < length cells)%nat /\ dl !! n = Some l /\
            ~ cube_ok (num := num) l /\
            Forall (cube_ok (num := num)) (take n dl) /\
            ps_log (cs_st cs') = ps_log (cs_st cs)))
    end.
Proof.
  revert cs. induction cells as [|[[k j] i] cells IH]; intros cs Hin dl.
  - exists (Continue cs). simpl. split; [reflexivity|].
    rewrite take_0. repeat split; auto. lia.
  - apply Forall_cons in Hin as [Hc Hin]. simpl. unfold on_cell at 1.
    cbn [fst snd]. unfold parse_cube_cell at 1.
    pose proof (cube_read_line_spec (ps_file (cs_st cs)) cs) as Hrd.
    destruct (NEXT_LINE skip_line (ps_file (cs_st cs))) as [[line f']|] eqn:EN.
    + apply NEXT_LINE_Some in EN as [Edl _]. fold dl in Edl.
      destruct Hrd as (mn & mx & Hrd). cbn zeta in Hrd. rewrite Hrd.
      destruct (domain_ok line) eqn:Edom.
      * cbn [cs_st cs_min cs_max set_file ps_ctx ps_file ps_log].
        rewrite (lut_at_cell (ps_ctx (cs_st cs)) k j i) by apply Hc.
        cbn [mbind option_bind].
        pose proof (sscanf_vec_count line (cell (ps_ctx (cs_st cs)) k j i)) as Hcnt.
        destruct (sscanf_vec line (cell (ps_ctx (cs_st cs)) k j i)) as [n vec1].
        cbn [fst] in Hcnt.
        destruct (lut_set_Some (ps_ctx (cs_st cs)) k j i vec1 Hc)
          as (lut3d1 & -> & Hsz1 & _).
        cbn [mbind option_bind].
        destruct (n =? 3) eqn:En; cbn [negb].
        -- apply Z.eqb_eq in En.
           destruct mn as [[min0 min1] min2], mx as [[max0 max1] max2].
           match goal with |- context [lut_set lut3d1 k j i ?v] =>
             destruct (lut_set_Some lut3d1 k j i v Hc) as (lut3d2 & -> & Hsz2 & _)
           end.
           cbn [mbind option_bind].
           match goal with |- context [for_each cells _ ?c] =>
             destruct (IH c Hin) as (fl & Hfl & Hres)
           end.
           exists fl. split; [exact Hfl|].
           cbv zeta in Hres.
           cbn [cs_st set_ctx set_file ps_file ps_log ps_ctx] in Hres. rewrite Edl.
           assert (Hok : cube_ok (num := num) line).
           { split; [exact Edom|]. unfold float_triple. congruence. }
           destruct fl as [cs'|ret cs'].
           ++ destruct Hres as (Hlen & Hoks & Hlog & Hsize).
              cbn [length take].
              split; [lia|]. split; [|split; [exact Hlog|congruence]].
              apply Forall_cons. split; assumption.
           ++ destruct Hres as (Hret & Hsize & Hcase).
              split; [exact Hret|]. split; [congruence|].
              destruct Hcase as [(Hlen & Hoks & Hlog)|(m & l & Hm & Hl & Hbad & Hoks & Hlog)].
              ** left. cbn [length]. split; [lia|]. split; [|exact Hlog].
                 apply Forall_cons. split; assumption.
              ** right. exists (S m), l. cbn [length take].
                 split; [lia|]. split; [exact Hl|]. split; [exact Hbad|].
                 split; [|exact Hlog]. apply Forall_cons. split; assumption.
        -- apply Z.eqb_neq in En.
           eexists. split; [reflexivity|]. split; [reflexivity|].
           cbn [cs_st set_ctx ps_ctx ps_log]. split; [exact Hsz1|].
           right. exists 0%nat, line. rewrite Edl. cbn [length take].
           split; [lia|]. split; [reflexivity|].
           split; [|split; [apply Forall_nil; constructor|reflexivity]].
           intros [_ Ht]. unfold float_triple in Ht. congruence.
      * eexists. split; [reflexivity|]. split; [reflexivity|].
        cbn [cs_st set_file ps_ctx ps_log]. split; [reflexivity|].
        right. exists 0%nat, line. rewrite Edl. cbn [length take].
        split; [lia|]. split; [reflexivity|].
        split; [|split; [apply Forall_nil; constructor|reflexivity]].
        intros [Hd _]. congruence.
    + apply NEXT_LINE_None in EN. fold dl in EN. rewrite Hrd.
      eexists. split; [reflexivity|]. split; [reflexivity|].
      split; [reflexivity|].
      left. rewrite EN. cbn [length]. split; [lia|].
      split; [apply Forall_nil; constructor|reflexivity].
Qed.

(** The scan for the [LUT_3D_SIZE] line. *)
Lemma parse_cube_scan_none {num : Type} {FA : FloatArith num}
    (f : FILE) (st : pstate num) :
  Forall (fun line => is_size_line line = false) f ->
  parse_cube_scan f st = Some (0, set_file st []).
Proof.
  induction 1 as [|line f Hl Hf IH]; simpl; [reflexivity|].
  unfold is_size_line in Hl. rewrite Hl. exact IH.
Qed.

Lemma parse_cube_scan_skip {num : Type} {FA : FloatArith num}
    (pre f : FILE) (st : pstate num) :
  Forall (fun line => is_size_line line = false) pre ->
  parse_cube_scan (pre ++ f)%list st = parse_cube_scan f st.
Proof.
  induction 1 as [|line pre Hl Hpre IH]; simpl; [reflexivity|].
  unfold is_size_line in Hl. rewrite Hl. exact IH.
Qed.

(** ** Outcomes of the loaders *)

Lemma AVERROR_INVALIDDATA_nonzero : AVERROR_INVALIDDATA <> 0.
Proof. discriminate. Qed.

Lemma Forall_take_lookup {A : Type} (P : A -> Prop) (l : list A) (m n : nat)
    (x : A) :
  Forall P (take m l) -> (n < m)%nat -> l !! n = Some x -> P x.
Proof.
  intros H Hn Hx. rewrite Forall_forall in H. apply H.
  apply list_elem_of_lookup. exists n. now rewrite lookup_take_lt.
Qed.

Lemma Forall_lookup_1' {A : Type} (P : A -> Prop) (l : list A) (n : nat)
    (x : A) :
  Forall P l -> l !! n = Some x -> P x.
Proof.
  intros H Hx. rewrite Forall_forall in H. apply H.
  apply list_elem_of_lookup. eauto.
Qed.

(** Too few data lines: the loader fails, and says so when the lines it
    did find were acceptable. *)
Lemma load_outcome_short (ok : string -> Prop) (n : nat) (dl : list string)
    (log0 log' : list log_entry) (ret : Z) :
  load_outcome ok n dl log0 ret log' -> (length dl < n)%nat ->
  ret = AVERROR_INVALIDDATA /\
  (Forall ok dl -> log' = (log0 ++ [eof_entry])%list).
Proof.
  intros [(_ & H & _)|[(-> & _ & _ & ->)|(-> & m & l & Hm & Hl & Hbad & _)]] Hlen.
  - lia.
  - auto.
  - split; [reflexivity|]. intros Hok. exfalso. apply Hbad.
    eapply Forall_lookup_1'; eauto.
Qed.

(** A data line the loader does not accept, among those it needs: the
    loader fails. *)
Lemma load_outcome_bad (ok : string -> Prop) (n : nat) (dl : list string)
    (log0 log' : list log_entry) (ret : Z) (m : nat) (l : string) :
  load_outcome ok n dl log0 ret log' ->
  (m < n)%nat -> dl !! m = Some l -> ~ ok l ->
  ret = AVERROR_INVALIDDATA.
Proof.
  intros [(_ & _ & H & _)|[(-> & _)|(-> & _)]] Hm Hl Hbad; try reflexivity.
  exfalso. apply Hbad. eapply Forall_take_lookup; eauto.
Qed.

Lemma load_outcome_success (ok : string -> Prop) (n : nat) (dl : list string)
    (log0 log' : list log_entry) (ret : Z) :
  load_outcome ok n dl log0 ret log' ->
  (ret = 0 <-> (n <= length dl)%nat /\ Forall ok (take n dl)).
Proof.
  intros [(-> & H1 & H2 & _)|[(-> & H1 & _)|(-> & m & l & Hm & Hl & Hbad & _)]].
  - tauto.
  - split; [discriminate|]. lia.
  - split; [discriminate|]. intros [_ H]. exfalso. apply Hbad.
    eapply Forall_take_lookup; eauto.
Qed.

Lemma load_outcome_weaken (ok ok' : string -> Prop) (n : nat)
    (dl : list string) (log0 log' : list log_entry) (ret : Z) :
  (forall l, ok l <-> ok' l) ->
  load_outcome ok n dl log0 ret log' -> load_outcome ok' n dl log0 ret log'.
Proof.
  intros E [(H0 & H1 & H2 & H3)|[(H0 & H1 & H2 & H3)|(H0 & m & l & Hm & Hl & Hbad & Hok & Hlog)]].
  - left. repeat split; try assumption. eapply Forall_impl; [exact H2|]. intros; now apply E.
  - right; left. repeat split; try assumption. eapply Forall_impl; [exact H2|]. intros; now apply E.
  - right; right. split; [assumption|]. exists m, l.
    repeat split; try assumption.
    + intros H. apply Hbad. now apply E.
    + eapply Forall_impl; [exact Hok|]. intros; now apply E.
Qed.

(** The outcome of a reader pass, from [reader_loop]. *)
Lemma reader_outcome {num : Type} {FA : FloatArith num}
    (loop_cond : string -> bool)
    (conv : string -> option (rgbvec num -> rgbvec num))
    (size : Z) (st : pstate num) :
  size <= MAX_LEVEL ->
  exists ret st',
    returned (for_kji size (reader_cell loop_cond conv) st) = Some (ret, st') /\
    lutsize (ps_ctx st') = lutsize (ps_ctx st) /\
    load_outcome (fun l => is_Some (conv l)) (ncells size)
      (data_lines loop_cond (ps_file st)) (ps_log st) ret (ps_log st').
Proof.
  intros Hsize. rewrite for_kji_cells.
  destruct (reader_loop loop_cond conv (cell_list size) st
              (cell_list_in_array size Hsize)) as (fl & -> & Hres).
  unfold ncells. destruct fl as [st'|ret st']; simpl.
  - destruct Hres as (H1 & H2 & _ & H4 & H5).
    exists 0, st'. split; [reflexivity|]. split; [exact H5|].
    left. auto.
  - destruct Hres as (-> & H5 & Hcase).
    exists AVERROR_INVALIDDATA, st'. split; [reflexivity|]. split; [exact H5|].
    destruct Hcase as [(H1 & H2 & H3)|(n & l & Hn & Hl & Hbad & Hok & Hlog)].
    + right; left. auto.
    + right; right. split; [reflexivity|]. exists n, l.
      repeat split; try assumption.
      intros [u Hu]. congruence.
Qed.

Lemma for_kji_ext {S : Type} (size : Z)
    (body body' : Z -> Z -> Z -> S -> option (flow S)) (s : S) :
  (forall k j i s, body k j i s = body' k j i s) ->
  for_kji size body s = for_kji size body' s.
Proof.
  intros H. rewrite !for_kji_cells. apply for_each_ext.
  intros [[k j] i] s' _. apply H.
Qed.

(** [parse_dat]: only the end of the file makes it fail. *)
Lemma parse_dat_outcome {num : Type} {FA : FloatArith num} (st : pstate num) :
  lutsize (ps_ctx st) <= MAX_LEVEL ->
  exists ret st',
    parse_dat st = Some (ret, st') /\
    lutsize (ps_ctx st') = lutsize (ps_ctx st) /\
    load_outcome (fun _ => True) (ncells (lutsize (ps_ctx st)))
      (data_lines skip_line (ps_file st)) (ps_log st) ret (ps_log st').
Proof.
  intros Hsize. unfold parse_dat.
  rewrite (for_kji_ext _ _ _ _ parse_dat_cell_reader).
  destruct (reader_outcome skip_line conv_dat _ st Hsize)
    as (ret & st' & -> & Hsz & Hout).
  exists ret, st'. split; [reflexivity|]. split; [exact Hsz|].
  eapply load_outcome_weaken; [|exact Hout].
  intros l. unfold conv_dat. split; eauto.
Qed.

(** [parse_3dl] on a file with a header line. *)
Lemma parse_3dl_outcome {num : Type} {FA : FloatArith num}
    (st : pstate num) (header : string) (rest : FILE) :
  ps_file st = header :: rest ->
  exists ret st',
    parse_3dl st = Some (ret, st') /\
    lutsize (ps_ctx st') = 17 /\
    load_outcome int_triple (ncells 17)
      (data_lines skip_line rest) (ps_log st) ret (ps_log st').
Proof.
  intros Hf. unfold parse_3dl. cbn [ps_file set_ctx]. rewrite Hf.
  cbn [fgets].
  rewrite (for_kji_ext _ _ _ _ (parse_3dl_cell_reader _)).
  match goal with |- context [for_kji 17 (reader_cell _ ?c) ?s] =>
    destruct (reader_outcome skip_line c 17 s) as (ret & st' & -> & Hsz & Hout)
  end.
  { unfold MAX_LEVEL. lia. }
  exists ret, st'. split; [reflexivity|]. split; [exact Hsz|].
  eapply load_outcome_weaken; [|exact Hout].
  intros l. apply conv_3dl_Some.
Qed.

Lemma parse_3dl_empty {num : Type} {FA : FloatArith num} (st : pstate num) :
  ps_file st = [] ->
  parse_3dl st =
  Some (AVERROR_INVALIDDATA, set_ctx st (set_lutsize (ps_ctx st) 17)).
Proof.
  intros Hf. unfold parse_3dl. cbn [ps_file set_ctx]. rewrite Hf. reflexivity.
Qed.

Lemma data_lines_all (f : FILE) : data_lines (fun _ => false) f = f.
Proof.
  induction f as [|l f IH]; simpl; [reflexivity|]. now rewrite IH.
Qed.

Lemma wrap_int_range (z : Z) : INT_MIN <= wrap_int z <= INT_MAX.
Proof.
  unfold wrap_int, INT_MIN, INT_MAX.
  pose proof (Z.mod_pos_bound (z + 2147483648) 4294967296). lia.
Qed.

Lemma wrap_int_id (z : Z) : INT_MIN <= z <= INT_MAX -> wrap_int z = z.
Proof.
  unfold wrap_int, INT_MIN, INT_MAX. intros H.
  rewrite Z.mod_small by lia. lia.
Qed.

(** [in] and [out] stay [int] values through the header loop. *)
Lemma parse_m3d_header_range (f : FILE) (in_ out : Z) (m : Z * Z * Z) :
  INT_MIN <= in_ <= INT_MAX -> INT_MIN <= out <= INT_MAX ->
  let h := parse_m3d_header f in_ out m in
  INT_MIN <= h_in h <= INT_MAX /\ INT_MIN <= h_out h <= INT_MAX.
Proof.
  revert in_ out m. induction f as [|l f IH]; intros in_ out m Hi Ho.
  - simpl. auto.
  - cbn [parse_m3d_header].
    destruct (strncmp_zero l "in" 2).
    { apply IH; [apply wrap_int_range|exact Ho]. }
    destruct (strncmp_zero l "out" 3).
    { apply IH; [exact Hi|apply wrap_int_range]. }
    destruct (strncmp_zero l "values" 6).
    { destruct (SET_COLOR 0 _ m) as [p0 m0].
      destruct (SET_COLOR 1 p0 m0) as [p1 m1].
      destruct (SET_COLOR 2 p1 m1) as [p2 m2]. simpl. auto. }
    apply IH; assumption.
Qed.

(** [parse_m3d] once the header gave [in] and [out] and the grid fits the
    array. *)
Lemma parse_m3d_outcome {num : Type} {FA : FloatArith num}
    (st : pstate num) (size : Z) :
  let h := parse_m3d_header (ps_file st) (-1) (-1) (0, 1, 2) in
  h_in h <> -1 -> h_out h <> -1 ->
  m3d_size (h_in h) = Some size -> size <= MAX_LEVEL ->
  INT_MIN < h_out h ->
  exists ret st',
    parse_m3d st = Some (ret, st') /\
    lutsize (ps_ctx st') = size /\
    load_outcome (float_triple (num := num)) (ncells size)
      (h_file h) (ps_log st) ret (ps_log st').
Proof.
  intros h Hin Hout Hsize Hfit Hrange. unfold parse_m3d. fold h.
  apply Z.eqb_neq in Hin, Hout. rewrite Hin, Hout. cbn [orb].
  rewrite Hsize. cbn [mbind option_bind].
  destruct (parse_m3d_header_range (ps_file st) (-1) (-1) (0, 1, 2))
    as [_ Hh]; try (unfold INT_MIN, INT_MAX; lia). fold h in Hh.
  rewrite as_int_Some by (unfold INT_MIN, INT_MAX in *; lia).
  cbn [mbind option_bind].
  rewrite (for_kji_ext _ _ _ _ (parse_m3d_cell_reader _ _)).
  match goal with |- context [for_kji size (reader_cell _ ?c) ?s] =>
    destruct (reader_outcome (fun _ => false) c size s Hfit)
      as (ret & st' & -> & Hsz & Hout')
  end.
  exists ret, st'. split; [reflexivity|]. split; [exact Hsz|].
  cbn [set_ctx set_file ps_file ps_log] in Hout'.
  rewrite data_lines_all in Hout'.
  eapply load_outcome_weaken; [|exact Hout'].
  intros l. apply conv_m3d_Some.
Qed.

(** [parse_m3d] without [in] or without [out]. *)
Lemma parse_m3d_missing {num : Type} {FA : FloatArith num} (st : pstate num) :
  let h := parse_m3d_header (ps_file st) (-1) (-1) (0, 1, 2) in
  h_in h = -1 \/ h_out h = -1 ->
  parse_m3d st =
  Some (AVERROR_INVALIDDATA,
        av_log (set_file st (h_file h)) ("in and out must be defined" ++ nl) []).
Proof.
  intros h Hm. unfold parse_m3d. fold h.
  destruct Hm as [-> | ->]; [reflexivity|].
  now rewrite orb_true_r.
Qed.

(** [parse_cube] from its [LUT_3D_SIZE] line on. *)
Lemma parse_cube_outcome {num : Type} {FA : FloatArith num}
    (st : pstate num) (pre : FILE) (line : string) (rest : FILE) :
  ps_file st = (pre ++ line :: rest)%list ->
  Forall (fun l => is_size_line l = false) pre ->
  is_size_line line = true ->
  declared_size line <= MAX_LEVEL ->
  exists ret st',
    parse_cube st = Some (ret, st') /\
    lutsize (ps_ctx st') = declared_size line /\
    load_outcome (cube_ok (num := num)) (ncells (declared_size line))
      (data_lines skip_line rest) (ps_log st) ret (ps_log st').
Proof.
  intros Hf Hpre Hline Hfit. unfold parse_cube. rewrite Hf.
  rewrite parse_cube_scan_skip by exact Hpre.
  cbn [parse_cube_scan]. unfold is_size_line in Hline. rewrite Hline.
  fold (declared_size line).
  replace (MAX_LEVEL <? declared_size line) with false
    by (symmetry; apply Z.ltb_ge; exact Hfit).
  rewrite for_kji_cells.
  match goal with |- context [for_each _ _ ?c] =>
    destruct (cube_loop (cell_list (declared_size line)) c
                (cell_list_in_array _ Hfit)) as (fl & -> & Hres)
  end.
  cbn [cs_st ps_file ps_log ps_ctx set_lutsize lutsize] in Hres.
  unfold ncells. destruct fl as [cs'|ret cs']; cbn [returned].
  - destruct Hres as (H1 & H2 & H3 & H4).
    exists 0, (cs_st cs'). split; [reflexivity|]. split; [exact H4|].
    left. auto.
  - destruct Hres as (-> & H4 & Hcase).
    exists AVERROR_INVALIDDATA, (cs_st cs').
    split; [reflexivity|]. split; [exact H4|].
    destruct Hcase as [(H1 & H2 & H3)|(n & l & Hn & Hl & Hbad & Hok & Hlog)].
    + right; left. auto.
    + right; right. split; [reflexivity|]. exists n, l. auto.
Qed.


(** ** [init] *)

Lemma av_strcasecmp_zero_common (a b c : string) :
  av_strcasecmp_zero a b = true -> av_strcasecmp_zero a c = true ->
  av_strcasecmp_zero b c = true.
Proof.
  revert b c. induction a as [|x a IH]; intros [|y b] [|z c]; simpl;
    try discriminate; try reflexivity.
  intros H1 H2. apply andb_true_iff in H1 as [H1 H1'], H2 as [H2 H2'].
  apply Ascii.eqb_eq in H1, H2. apply andb_true_iff. split.
  - apply Ascii.eqb_eq. congruence.
  - now apply IH.
Qed.

Lemma ext_is_exclusive (path e1 e2 : string) (x : string) :
  ext_is path e1 -> av_strcasecmp_zero e1 e2 = false ->
  extension path = Some x -> av_strcasecmp_zero x e2 = false.
Proof.
  intros (y & Hy & H1) Hne Hx. rewrite Hx in Hy. injection Hy as ->.
  destruct (av_strcasecmp_zero y e2) eqn:H2; [|reflexivity].
  rewrite (av_strcasecmp_zero_common y e1 e2 H1 H2) in Hne. discriminate.
Qed.

(** [init] with a file that opens and a path that has an extension: the
    parser chosen by the extension, then the check for an empty grid. *)
Lemma init_open {num : Type} {FA : FloatArith num}
    (fopen : string -> FILE + Z) (lut3d : LUT3DContext num)
    (path : string) (f : FILE) (x : string) :
  file lut3d = Some path -> fopen path = inl f -> extension path = Some x ->
  let st := mk_pstate lut3d f [] in
  init fopen lut3d =
  init_finish
    (if av_strcasecmp_zero x "dat" then
       parse_dat (set_ctx st (set_lutsize lut3d 33))
     else if av_strcasecmp_zero x "3dl" then parse_3dl st
     else if av_strcasecmp_zero x "cube" then parse_cube st
     else if av_strcasecmp_zero x "m3d" then parse_m3d st
     else Some (AVERROR EINVAL,
                av_log st ("Unrecognized '.%s' file type" ++ nl) [Arg_string x])).
Proof.
  intros Hfile Hopen Hext st. unfold init. rewrite Hfile, Hopen.
  unfold extension in Hext.
  destruct (strrchr path ".") as [dot_ext|]; [|discriminate].
  simpl in Hext. injection Hext as <-. reflexivity.
Qed.

Lemma init_dat {num : Type} {FA : FloatArith num}
    (fopen : string -> FILE + Z) (lut3d : LUT3DContext num)
    (path : string) (f : FILE) :
  file lut3d = Some path -> fopen path = inl f -> ext_is path "dat" ->
  init fopen lut3d =
  init_finish (parse_dat (mk_pstate (set_lutsize lut3d 33) f [])).
Proof.
  intros Hfile Hopen Hext. destruct (Hext) as (x & Hx & Hd).
  rewrite (init_open fopen lut3d path f x Hfile Hopen Hx). now rewrite Hd.
Qed.

Lemma init_3dl {num : Type} {FA : FloatArith num}
    (fopen : string -> FILE + Z) (lut3d : LUT3DContext num)
    (path : string) (f : FILE) :
  file lut3d = Some path -> fopen path = inl f -> ext_is path "3dl" ->
  init fopen lut3d = init_finish (parse_3dl (mk_pstate lut3d f [])).
Proof.
  intros Hfile Hopen Hext. destruct (Hext) as (x & Hx & Hd).
  rewrite (init_open fopen lut3d path f x Hfile Hopen Hx).
  rewrite (ext_is_exclusive path "3dl" "dat" x Hext eq_refl Hx).
  now rewrite Hd.
Qed.

Lemma init_cube {num : Type} {FA : FloatArith num}
    (fopen : string -> FILE + Z) (lut3d : LUT3DContext num)
    (path : string) (f : FILE) :
  file lut3d = Some path -> fopen path = inl f -> ext_is path "cube" ->
  init fopen lut3d = init_finish (parse_cube (mk_pstate lut3d f [])).
Proof.
  intros Hfile Hopen Hext. destruct (Hext) as (x & Hx & Hd).
  rewrite (init_open fopen lut3d path f x Hfile Hopen Hx).
  rewrite (ext_is_exclusive path "cube" "dat" x Hext eq_refl Hx).
  rewrite (ext_is_exclusive path "cube" "3dl" x Hext eq_refl Hx).
  now rewrite Hd.
Qed.

Lemma init_m3d {num : Type} {FA : FloatArith num}
    (fopen : string -> FILE + Z) (lut3d : LUT3DContext num)
    (path : string) (f : FILE) :
  file lut3d = Some path -> fopen path = inl f -> ext_is path "m3d" ->
  init fopen lut3d = init_finish (parse_m3d (mk_pstate lut3d f [])).
Proof.
  intros Hfile Hopen Hext. destruct (Hext) as (x & Hx & Hd).
  rewrite (init_open fopen lut3d path f x Hfile Hopen Hx).
  rewrite (ext_is_exclusive path "m3d" "dat" x Hext eq_refl Hx).
  rewrite (ext_is_exclusive path "m3d" "3dl" x Hext eq_refl Hx).
  rewrite (ext_is_exclusive path "m3d" "cube" x Hext eq_refl Hx).
  now rewrite Hd.
Qed.

(** An error of the parser is the result of [init]. *)
Lemma init_finish_error {num : Type} {FA : FloatArith num}
    (ret : Z) (st : pstate num) :
  ret <> 0 -> init_finish (Some (ret, st)) = Some (ret, st).
Proof.
  intros H. unfold init_finish. cbn [mbind option_bind].
  apply Z.eqb_neq in H. now rewrite H.
Qed.

Lemma ext_is_example : ext_is "grade.CUBE" "cube".
Proof. exists "CUBE". split; reflexivity. Qed.

(** ** The .m3d header *)

Lemma values_not_in_out (line : string) :
  strncmp_zero line "values" 6 = true ->
  strncmp_zero line "in" 2 = false /\ strncmp_zero line "out" 3 = false.
Proof.
  destruct line as [|c line]; simpl; [discriminate|].
  destruct (Ascii.eqb c "v") eqn:E; [|discriminate].
  apply Ascii.eqb_eq in E. subst c. auto.
Qed.

(** The header loop passes over lines that are no directive and stops
    after the first [values] line, whatever follows it. *)
Lemma parse_m3d_header_values (pre : FILE) (vline : string) (post : FILE)
    (in_ out : Z) (m : Z * Z * Z) :
  Forall m3d_other pre ->
  strncmp_zero vline "values" 6 = true ->
  let h := parse_m3d_header (pre ++ vline :: post)%list in_ out m in
  h_in h = in_ /\ h_out h = out /\ h_file h = post.
Proof.
  intros Hpre Hv. induction Hpre as [|l pre (Hi & Ho & Hval) Hpre IH].
  - cbn [app parse_m3d_header].
    destruct (values_not_in_out vline Hv) as [-> ->]. rewrite Hv.
    destruct (SET_COLOR 0 _ m) as [p0 m0].
    destruct (SET_COLOR 1 p0 m0) as [p1 m1].
    destruct (SET_COLOR 2 p1 m1) as [p2 m2]. simpl. auto.
  - cbn [app parse_m3d_header]. rewrite Hi, Ho, Hval. exact IH.
Qed.

(** C10.  A .m3d file whose first directive line is a [values] line: the
    header scan ends there, [in] and [out] lines after it are never read,
    and loading fails with [AVERROR_INVALIDDATA], logging that [in] and
    [out] must be defined, whatever follows the [values] line. *)
Theorem m3d_values_before_in_out {num : Type} {FA : FloatArith num}
    (fopen : string -> FILE + Z) (lut3d : LUT3DContext num) (path : string)
    (pre : FILE) (vline : string) (post : FILE) :
  file lut3d = Some path ->
  fopen path = inl (pre ++ vline :: post)%list ->
  ext_is path "m3d" ->
  Forall m3d_other pre ->
  strncmp_zero vline "values" 6 = true ->
  h_file (parse_m3d_header (pre ++ vline :: post)%list (-1) (-1) (0, 1, 2)) = post /\
  init fopen lut3d =
  Some (AVERROR_INVALIDDATA, mk_pstate lut3d post [in_out_entry]).
Proof.
  intros Hfile Hopen Hext Hpre Hv.
  destruct (parse_m3d_header_values pre vline post (-1) (-1) (0, 1, 2) Hpre Hv)
    as (Hin & Hout & Hrest).
  split; [exact Hrest|].
  rewrite (init_m3d fopen lut3d path _ Hfile Hopen Hext).
  rewrite parse_m3d_missing by (left; exact Hin).
  cbn [ps_file]. rewrite Hrest.
  rewrite init_finish_error by discriminate. reflexivity.
Qed.

(** A .m3d file with [values] first and [in], [out] after it. *)
Lemma m3d_values_before_in_out_witness :
  init (num := Q)
    (one_file ("values r g b" ++ nl ++ "in 8" ++ nl ++ "out 256" ++ nl))
    (context_with_file (Some "lut.m3d"))
  = Some (AVERROR_INVALIDDATA,
          mk_pstate (context_with_file (Some "lut.m3d"))
            ["in 8" ++ nl; "out 256" ++ nl] [in_out_entry]).
Proof.
  apply (m3d_values_before_in_out (num := Q)
           (one_file ("values r g b" ++ nl ++ "in 8" ++ nl ++ "out 256" ++ nl))
           (context_with_file (Some "lut.m3d")) "lut.m3d"
           [] ("values r g b" ++ nl) ["in 8" ++ nl; "out 256" ++ nl]).
  - reflexivity.
  - reflexivity.
  - exists "m3d". split; reflexivity.
  - constructor.
  - reflexivity.
Defined.

(** ** The .m3d axis size *)

Lemma cube_fits (size : Z) :
  1 <= size <= 1290 ->
  as_int (size * size) = Some (size * size) /\
  as_int (size * size * size) = Some (size * size * size).
Proof.
  intros H. split; apply as_int_Some; unfold INT_MIN, INT_MAX; nia.
Qed.

Lemma m3d_size_loop_spec (fuel : nat) (size N : Z) :
  1 <= size -> (size - 1) ^ 3 < N -> N <= 2146689000 ->
  1291 - size <= Z.of_nat fuel ->
  exists s, m3d_size_loop fuel size N = Some s /\
    size <= s /\ N <= s ^ 3 /\ (s - 1) ^ 3 < N.
Proof.
  revert size. induction fuel as [|fuel IH]; intros size H1 Hlt HN Hfuel.
  - exfalso.
    assert (1290 ^ 3 <= (size - 1) ^ 3) by (apply Z.pow_le_mono_l; lia).
    change (1290 ^ 3) with 2146689000 in *. lia.
  - assert (Hs : size <= 1290).
    { destruct (Z.le_gt_cases size 1290) as [|Hgt]; [assumption|exfalso].
      assert (1290 ^ 3 <= (size - 1) ^ 3) by (apply Z.pow_le_mono_l; lia).
      change (1290 ^ 3) with 2146689000 in *. lia. }
    cbn [m3d_size_loop].
    destruct (cube_fits size) as [-> Hc]; [lia|].
    cbn [mbind option_bind]. rewrite Hc. cbn [mbind option_bind].
    assert (Hpow : size ^ 3 = size * size * size) by ring.
    destruct (size * size * size <? N) eqn:E.
    + apply Z.ltb_lt in E.
      rewrite as_int_Some by (unfold INT_MIN, INT_MAX; lia).
      cbn [mbind option_bind].
      assert (Hlt' : (size + 1 - 1) ^ 3 < N).
      { replace (size + 1 - 1) with size by lia. rewrite Hpow. exact E. }
      destruct (IH (size + 1) ltac:(lia) Hlt' HN ltac:(lia))
        as (s & Hs1 & Hs2 & Hs3 & Hs4).
      exists s. split; [exact Hs1|]. split; [lia|]. split; assumption.
    + apply Z.ltb_ge in E. exists size. split; [reflexivity|].
      split; [lia|]. split; [rewrite Hpow; exact E|exact Hlt].
Qed.

(** C8, within the range of [int].  For a declared [in N] with
    1 <= N <= 1290^3 the size loop ends, and the axis size it leaves is the
    smallest integer whose cube is at least N. *)
Theorem m3d_size_smallest (N : Z) :
  1 <= N <= 2146689000 ->
  exists s, m3d_size N = Some s /\ N <= s ^ 3 /\
    forall t, N <= t ^ 3 -> s <= t.
Proof.
  intros [H1 H2].
  destruct (m3d_size_loop_spec 1291 1 N) as (s & Hs & Hge & Hcube & Hprev);
    try lia.
  exists s. split; [exact Hs|]. split; [exact Hcube|].
  intros t Ht. destruct (Z.le_gt_cases s t) as [|Hgt]; [assumption|exfalso].
  destruct (Z.le_gt_cases 0 t) as [H0|H0].
  - assert (t ^ 3 <= (s - 1) ^ 3) by (apply Z.pow_le_mono_l; lia). lia.
  - assert (t ^ 3 = t * t * t) by ring. nia.
Qed.

(** [in 8] gives axis size 2 and [in 9] gives 3. *)
Lemma m3d_size_smallest_witness :
  (exists s, m3d_size 8 = Some s /\ 8 <= s ^ 3 /\ forall t, 8 <= t ^ 3 -> s <= t) /\
  (exists s, m3d_size 9 = Some s /\ 9 <= s ^ 3 /\ forall t, 9 <= t ^ 3 -> s <= t) /\
  m3d_size 8 = Some 2 /\ m3d_size 9 = Some 3.
Proof.
  split; [apply (m3d_size_smallest 8); lia|].
  split; [apply (m3d_size_smallest 9); lia|].
  split; reflexivity.
Defined.

(** C8 fails past the range of [int]: at [in 2147483647] the product
    [size*size*size] overflows at size 1291 before the loop ends, and a
    declared 4294967304 is stored as 8 and gives size 2. *)
Lemma m3d_size_overflow :
  m3d_size 2147483647 = None /\
  parse_m3d (num := Q)
    (mk_pstate zero_context
       (fgets_split ("in 2147483647" ++ nl ++ "out 2" ++ nl ++ "values r g b" ++ nl ++ "0 0 0" ++ nl))
       []) = None /\
  m3d_size (wrap_int (strtol0 " 4294967304")) = Some 2 /\
  2 ^ 3 < 4294967304.
Proof.
  split; [vm_compute; reflexivity|].
  split; [vm_compute; reflexivity|].
  split; [vm_compute; reflexivity|]. reflexivity.
Qed.

(** ** Sizes the loaders accept *)

(** C5 on two inputs.  A .cube file that declares a negative size loads
    with that size: [init] returns 0 and [lutsize] is -1.  A .m3d file
    that declares [in 46657] derives axis size 37, which no check stops,
    and the 37th data line is stored at [lut[0][0][36]], outside the
    array. *)
Theorem size_checks_missed :
  (forall (num : Type) (FA : FloatArith num),
     exists st,
       init (num := num) (one_file ("LUT_3D_SIZE -1" ++ nl))
         (context_with_file (Some "lut.cube")) = Some (0, st) /\
       lutsize (ps_ctx st) = -1) /\
  m3d_size 46657 = Some 37 /\
  init (num := Q)
    (one_file ("in 46657" ++ nl ++ "out 2" ++ nl ++ "values r g b" ++ nl
               ++ lines_of 37 ("0 0 0" ++ nl)))
    (context_with_file (Some "lut.m3d")) = None.
Proof.
  split; [|split].
  - intros num FA. eexists. split; reflexivity.
  - vm_compute. reflexivity.
  - vm_compute. reflexivity.
Qed.

(** ** Malformed input *)

Lemma parse_m3d_header_no_in (f : FILE) (in_ out : Z) (m : Z * Z * Z) :
  Forall (fun l => strncmp_zero l "in" 2 = false) f ->
  h_in (parse_m3d_header f in_ out m) = in_.
Proof.
  intros H. revert out m. induction H as [|l f Hl Hf IH]; intros out m.
  - reflexivity.
  - cbn [parse_m3d_header]. rewrite Hl.
    destruct (strncmp_zero l "out" 3); [apply IH|].
    destruct (strncmp_zero l "values" 6); [|apply IH].
    destruct (SET_COLOR 0 _ m) as [p0 m0].
    destruct (SET_COLOR 1 p0 m0) as [p1 m1].
    destruct (SET_COLOR 2 p1 m1) as [p2 m2]. reflexivity.
Qed.

Lemma parse_m3d_header_no_out (f : FILE) (in_ out : Z) (m : Z * Z * Z) :
  Forall (fun l => strncmp_zero l "out" 3 = false) f ->
  h_out (parse_m3d_header f in_ out m) = out.
Proof.
  intros H. revert in_ m. induction H as [|l f Hl Hf IH]; intros in_ m.
  - reflexivity.
  - cbn [parse_m3d_header]. rewrite Hl.
    destruct (strncmp_zero l "in" 2); [apply IH|].
    destruct (strncmp_zero l "values" 6); [|apply IH].
    destruct (SET_COLOR 0 _ m) as [p0 m0].
    destruct (SET_COLOR 1 p0 m0) as [p1 m1].
    destruct (SET_COLOR 2 p1 m1) as [p2 m2]. reflexivity.
Qed.

(** [SET_COLOR] on a character that is none of r, g, b changes nothing in
    the map. *)
Lemma SET_COLOR_other (id : Z) (p : string) (m : Z * Z * Z) :
  not_rgb p -> (SET_COLOR id p m).2 = m.
Proof.
  unfold not_rgb, SET_COLOR. destruct (skip_spaces p) as [|c q]; [reflexivity|].
  intros (Hr & Hg & Hb). cbn [snd].
  destruct c as [[] [] [] [] [] [] [] []]; try reflexivity; congruence.
Qed.

(** C4, as the code has it.  A .3dl, .cube or .m3d file one of whose data
    lines does not scan as three numbers, a .m3d file without an [in] or
    without an [out] line, and a .cube file without a [LUT_3D_SIZE] line
    (the grid stays empty) fail to load with [AVERROR_INVALIDDATA]; a
    character of a [values] directive that is none of r, g, b is not an
    error: it leaves the channel map as it was. *)
Theorem malformed_input_rejected {num : Type} {FA : FloatArith num}
    (fopen : string -> FILE + Z) (lut3d : LUT3DContext num) (path : string)
    (f : FILE) :
  file lut3d = Some path -> fopen path = inl f ->
  (ext_is path "3dl" ->
   forall header rest n l,
     f = header :: rest ->
     data_lines skip_line rest !! n = Some l -> (n < 17 * 17 * 17)%nat ->
     ~ int_triple l ->
     exists st', init fopen lut3d = Some (AVERROR_INVALIDDATA, st')) /\
  (ext_is path "cube" ->
   forall pre line rest n l,
     f = (pre ++ line :: rest)%list ->
     Forall (fun l => is_size_line l = false) pre ->
     is_size_line line = true -> declared_size line <= MAX_LEVEL ->
     data_lines skip_line rest !! n = Some l ->
     (n < ncells (declared_size line))%nat ->
     ~ float_triple (num := num) l ->
     exists st', init fopen lut3d = Some (AVERROR_INVALIDDATA, st')) /\
  (ext_is path "cube" ->
   Forall (fun l => is_size_line l = false) f -> lutsize lut3d = 0 ->
   init fopen lut3d =
   Some (AVERROR_INVALIDDATA, mk_pstate lut3d [] [empty_entry])) /\
  (ext_is path "m3d" ->
   forall size n l,
     let h := parse_m3d_header f (-1) (-1) (0, 1, 2) in
     h_in h <> -1 -> h_out h <> -1 -> INT_MIN < h_out h ->
     m3d_size (h_in h) = Some size -> size <= MAX_LEVEL ->
     h_file h !! n = Some l -> (n < ncells size)%nat ->
     ~ float_triple (num := num) l ->
     exists st', init fopen lut3d = Some (AVERROR_INVALIDDATA, st')) /\
  (ext_is path "m3d" ->
   Forall (fun l => strncmp_zero l "in" 2 = false) f \/
   Forall (fun l => strncmp_zero l "out" 3 = false) f ->
   exists rest,
     init fopen lut3d =
     Some (AVERROR_INVALIDDATA, mk_pstate lut3d rest [in_out_entry])) /\
  (forall id p m, not_rgb p -> (SET_COLOR id p m).2 = m).
Proof.
  intros Hfile Hopen.
  split; [|split; [|split; [|split; [|split]]]].
  - intros Hext header rest n l -> Hl Hn Hbad.
    rewrite (init_3dl fopen lut3d path _ Hfile Hopen Hext).
    destruct (parse_3dl_outcome (mk_pstate lut3d (header :: rest) []) header rest eq_refl)
      as (ret & st' & -> & _ & Hout).
    assert (ret = AVERROR_INVALIDDATA) as ->.
    { eapply load_outcome_bad; [exact Hout| |exact Hl|exact Hbad].
      unfold ncells. rewrite cell_list_length. exact Hn. }
    exists st'. now rewrite init_finish_error by discriminate.
  - intros Hext pre line rest n l -> Hpre Hline Hfit Hl Hn Hbad.
    rewrite (init_cube fopen lut3d path _ Hfile Hopen Hext).
    destruct (parse_cube_outcome (mk_pstate lut3d (pre ++ line :: rest)%list [])
                pre line rest eq_refl Hpre Hline Hfit)
      as (ret & st' & -> & _ & Hout).
    assert (ret = AVERROR_INVALIDDATA) as ->.
    { eapply load_outcome_bad; [exact Hout|exact Hn|exact Hl|].
      intros [_ Hok]. auto. }
    exists st'. now rewrite init_finish_error by discriminate.
  - intros Hext Hnone Hzero.
    rewrite (init_cube fopen lut3d path _ Hfile Hopen Hext).
    unfold parse_cube. cbn [ps_file].
    rewrite parse_cube_scan_none by exact Hnone.
    unfold init_finish. cbn [mbind option_bind set_file ps_ctx].
    rewrite Hzero. reflexivity.
  - intros Hext size n l h Hin Hout Hrange Hsize Hfit Hl Hn Hbad.
    rewrite (init_m3d fopen lut3d path _ Hfile Hopen Hext).
    destruct (parse_m3d_outcome (mk_pstate lut3d f []) size Hin Hout Hsize Hfit Hrange)
      as (ret & st' & -> & _ & Hres).
    assert (ret = AVERROR_INVALIDDATA) as ->.
    { eapply load_outcome_bad; [exact Hres|exact Hn|exact Hl|exact Hbad]. }
    exists st'. now rewrite init_finish_error by discriminate.
  - intros Hext Hmiss.
    rewrite (init_m3d fopen lut3d path _ Hfile Hopen Hext).
    rewrite parse_m3d_missing.
    + rewrite init_finish_error by discriminate. eexists. reflexivity.
    + cbn [ps_file]. destruct Hmiss as [H|H].
      * left. now apply parse_m3d_header_no_in.
      * right. now apply parse_m3d_header_no_out.
  - apply SET_COLOR_other.
Qed.

(** A .3dl file whose second data line is not three integers. *)
Lemma malformed_input_rejected_witness :
  exists st',
    init (num := Q)
      (one_file ("header" ++ nl ++ "1 2 3" ++ nl ++ "4 5 x" ++ nl))
      (context_with_file (Some "lut.3dl"))
    = Some (AVERROR_INVALIDDATA, st').
Proof.
  refine (proj1 (malformed_input_rejected (num := Q)
            (one_file ("header" ++ nl ++ "1 2 3" ++ nl ++ "4 5 x" ++ nl))
            (context_with_file (Some "lut.3dl")) "lut.3dl"
            ["header" ++ nl; "1 2 3" ++ nl; "4 5 x" ++ nl] eq_refl eq_refl)
            _ ("header" ++ nl) ["1 2 3" ++ nl; "4 5 x" ++ nl] 1%nat ("4 5 x" ++ nl)
            eq_refl eq_refl _ _).
  - exists "3dl". split; reflexivity.
  - vm_compute. lia.
  - vm_compute. discriminate.
Defined.

(** C4 as stated fails: a .m3d file whose [values] directive has the
    characters x, y, z loads, with the channels in file order; its one
    sample is the data line, scaled. *)
Lemma m3d_bad_values_accepted :
  not_rgb " x y z" /\
  exists st,
    init (num := Q)
      (one_file ("in 1" ++ nl ++ "out 2" ++ nl ++ "values x y z" ++ nl
                 ++ "0.5 0 1" ++ nl))
      (context_with_file (Some "lut.m3d")) = Some (0, st) /\
    lutsize (ps_ctx st) = 1 /\
    lut_at (ps_ctx st) 0 0 0 = Some (mk_rgbvec (1 # 2) 0 1)%Q.
Proof.
  split.
  - vm_compute. repeat split; discriminate.
  - eexists. split; [vm_compute; reflexivity|]. split; reflexivity.
Qed.

(** ** Files that end early *)

(** C6.  For each of the four formats, a file that ends while cells are
    still to be filled fails to load with [AVERROR_INVALIDDATA], the code
    [NEXT_LINE] returns; when the lines that are there are well formed the
    failure is the one [NEXT_LINE] logs as "Unexpected EOF".  An empty
    .3dl file fails with the same code at its header line.  For .cube the
    cells are those of the declared size, for .m3d those of the size
    derived from [in], which must fit the array. *)
Theorem truncated_file_rejected {num : Type} {FA : FloatArith num}
    (fopen : string -> FILE + Z) (lut3d : LUT3DContext num) (path : string)
    (f : FILE) :
  file lut3d = Some path -> fopen path = inl f ->
  (ext_is path "dat" ->
   (length (data_lines skip_line f) < 33 * 33 * 33)%nat ->
   exists st',
     init fopen lut3d = Some (AVERROR_INVALIDDATA, st') /\
     ps_log st' = [eof_entry]) /\
  (ext_is path "3dl" ->
   (f = [] -> exists st', init fopen lut3d = Some (AVERROR_INVALIDDATA, st')) /\
   (forall header rest,
      f = header :: rest ->
      (length (data_lines skip_line rest) < 17 * 17 * 17)%nat ->
      exists st',
        init fopen lut3d = Some (AVERROR_INVALIDDATA, st') /\
        (Forall int_triple (data_lines skip_line rest) ->
         ps_log st' = [eof_entry]))) /\
  (ext_is path "cube" ->
   forall pre line rest,
     f = (pre ++ line :: rest)%list ->
     Forall (fun l => is_size_line l = false) pre ->
     is_size_line line = true -> declared_size line <= MAX_LEVEL ->
     (length (data_lines skip_line rest) < ncells (declared_size line))%nat ->
     exists st',
       init fopen lut3d = Some (AVERROR_INVALIDDATA, st') /\
       (Forall (cube_ok (num := num)) (data_lines skip_line rest) ->
        ps_log st' = [eof_entry])) /\
  (ext_is path "m3d" ->
   forall size,
     let h := parse_m3d_header f (-1) (-1) (0, 1, 2) in
     h_in h <> -1 -> h_out h <> -1 -> INT_MIN < h_out h ->
     m3d_size (h_in h) = Some size -> size <= MAX_LEVEL ->
     (length (h_file h) < ncells size)%nat ->
     exists st',
       init fopen lut3d = Some (AVERROR_INVALIDDATA, st') /\
       (Forall (float_triple (num := num)) (h_file h) ->
        ps_log st' = [eof_entry])).
Proof.
  intros Hfile Hopen.
  split; [|split; [|split]].
  - intros Hext Hlen.
    rewrite (init_dat fopen lut3d path _ Hfile Hopen Hext).
    destruct (parse_dat_outcome (mk_pstate (set_lutsize lut3d 33) f []))
      as (ret & st' & -> & _ & Hout).
    { cbn. unfold MAX_LEVEL. lia. }
    cbn [ps_ctx ps_file ps_log set_lutsize lutsize] in Hout.
    destruct (load_outcome_short _ _ _ _ _ _ Hout) as [-> Hlog].
    { unfold ncells. rewrite cell_list_length. exact Hlen. }
    exists st'. rewrite init_finish_error by discriminate.
    split; [reflexivity|]. apply Hlog. apply Forall_forall. auto.
  - intros Hext. split.
    + intros ->. rewrite (init_3dl fopen lut3d path _ Hfile Hopen Hext).
      rewrite parse_3dl_empty by reflexivity.
      rewrite init_finish_error by discriminate. eauto.
    + intros header rest -> Hlen.
      rewrite (init_3dl fopen lut3d path _ Hfile Hopen Hext).
      destruct (parse_3dl_outcome (mk_pstate lut3d (header :: rest) []) header rest eq_refl)
        as (ret & st' & -> & _ & Hout).
      destruct (load_outcome_short _ _ _ _ _ _ Hout) as [-> Hlog].
      { unfold ncells. rewrite cell_list_length. exact Hlen. }
      exists st'. rewrite init_finish_error by discriminate.
      split; [reflexivity|exact Hlog].
  - intros Hext pre line rest -> Hpre Hline Hfit Hlen.
    rewrite (init_cube fopen lut3d path _ Hfile Hopen Hext).
    destruct (parse_cube_outcome (mk_pstate lut3d (pre ++ line :: rest)%list [])
                pre line rest eq_refl Hpre Hline Hfit)
      as (ret & st' & -> & _ & Hout).
    destruct (load_outcome_short _ _ _ _ _ _ Hout Hlen) as [-> Hlog].
    exists st'. rewrite init_finish_error by discriminate.
    split; [reflexivity|exact Hlog].
  - intros Hext size h Hin Hout Hrange Hsize Hfit Hlen.
    rewrite (init_m3d fopen lut3d path _ Hfile Hopen Hext).
    destruct (parse_m3d_outcome (mk_pstate lut3d f []) size Hin Hout Hsize Hfit Hrange)
      as (ret & st' & -> & _ & Hres).
    destruct (load_outcome_short _ _ _ _ _ _ Hres Hlen) as [-> Hlog].
    exists st'. rewrite init_finish_error by discriminate.
    split; [reflexivity|exact Hlog].
Qed.

(** A .3dl file with a header and two data lines. *)
Lemma truncated_file_rejected_witness :
  exists st',
    init (num := Q)
      (one_file ("header" ++ nl ++ "1 2 3" ++ nl ++ "4 5 6" ++ nl))
      (context_with_file (Some "lut.3dl"))
    = Some (AVERROR_INVALIDDATA, st') /\
    ps_log st' = [eof_entry].
Proof.
  destruct (proj2 (proj1 (proj2 (truncated_file_rejected (num := Q)
            (one_file ("header" ++ nl ++ "1 2 3" ++ nl ++ "4 5 6" ++ nl))
            (context_with_file (Some "lut.3dl")) "lut.3dl"
            ["header" ++ nl; "1 2 3" ++ nl; "4 5 6" ++ nl] eq_refl eq_refl))
            (ex_intro _ "3dl" (conj eq_refl eq_refl)))
            ("header" ++ nl) ["1 2 3" ++ nl; "4 5 6" ++ nl] eq_refl)
    as (st' & Hinit & Hlog).
  - vm_compute. lia.
  - exists st'. split; [exact Hinit|]. apply Hlog.
    repeat constructor.
Defined.

(** ** The identity grid *)

(** A loop that stores [f c] in every cell [c] of a list. *)
Lemma store_loop {num : Type} {FA : FloatArith num}
    (f : Z * Z * Z -> rgbvec num) (cells : list (Z * Z * Z))
    (lut3d : LUT3DContext num) :
  Forall cell_in_array cells ->
  exists lut3d',
    for_each cells
      (fun c s => s' ← lut_set s c.1.1 c.1.2 c.2 (f c); Some (Continue s'))
      lut3d = Some (Continue lut3d') /\
    lutsize lut3d' = lutsize lut3d /\
    forall c, lut lut3d' !! c =
              if decide (c ∈ cells) then Some (f c) else lut lut3d !! c.
Proof.
  revert lut3d. induction cells as [|[[k j] i] cells IH]; intros lut3d Hin.
  - exists lut3d. split; [reflexivity|]. split; [reflexivity|].
    intros c. destruct (decide (c ∈ [])) as [H|_]; [|reflexivity].
    now apply not_elem_of_nil in H.
  - apply Forall_cons in Hin as [Hc Hin]. cbn [for_each fst snd].
    destruct (lut_set_Some lut3d k j i (f (k, j, i)) Hc)
      as (lut3d1 & -> & Hsz & Hlut).
    cbn [mbind option_bind].
    destruct (IH lut3d1 Hin) as (lut3d' & -> & Hsz' & Hlut').
    exists lut3d'. split; [reflexivity|]. split; [congruence|].
    intros c. rewrite Hlut', Hlut.
    destruct (decide (c ∈ cells)) as [H|H].
    + rewrite decide_True by now apply list_elem_of_further. reflexivity.
    + destruct (decide (c = (k, j, i))) as [->|Hne].
      * rewrite decide_True by apply list_elem_of_here.
        apply lookup_insert_eq.
      * rewrite decide_False.
        -- now rewrite lookup_insert_ne.
        -- intros Hc'. apply elem_of_cons in Hc' as [?|?]; auto.
Qed.

(** [set_identity_matrix] for a size that fits the array: every cell of
    the grid holds its indices times [1. / (size - 1)], [lut[k][j][i]] the
    triple for [(k, j, i)]; the other cells of the array are as before. *)
Lemma set_identity_matrix_cells {num : Type} {FA : FloatArith num}
    (lut3d : LUT3DContext num) (size : Z) :
  INT_MIN < size <= MAX_LEVEL ->
  let c := double_to_float (ddiv (int_to_double 1) (int_to_double (size - 1))) in
  exists lut3d',
    set_identity_matrix lut3d size = Some lut3d' /\
    lutsize lut3d' = size /\
    forall k j i,
      cell lut3d' k j i =
      if decide (0 <= k < size /\ 0 <= j < size /\ 0 <= i < size)
      then mk_rgbvec (fmul (int_to_float k) c) (fmul (int_to_float j) c)
                     (fmul (int_to_float i) c)
      else cell lut3d k j i.
Proof.
  intros [Hlo Hhi] c. unfold set_identity_matrix.
  rewrite as_int_Some by (unfold INT_MIN, INT_MAX, MAX_LEVEL in *; lia).
  cbn [mbind option_bind]. fold c. rewrite for_kji_cells.
  destruct (store_loop
              (fun x => mk_rgbvec (fmul (int_to_float x.1.1) c)
                                  (fmul (int_to_float x.1.2) c)
                                  (fmul (int_to_float x.2) c))
              (cell_list size) (set_lutsize lut3d size)
              (cell_list_in_array size Hhi))
    as (lut3d' & Hloop & Hsz & Hlut).
  unfold on_cell, set_identity_cell.
  rewrite Hloop. exists lut3d'. split; [reflexivity|]. split; [exact Hsz|].
  intros k j i. unfold cell. rewrite Hlut. cbn [fst snd set_lutsize lut].
  destruct (decide ((k, j, i) ∈ cell_list size)) as [H|H];
    rewrite cell_list_elem in H; cbn [fst snd] in H.
  - now rewrite decide_True.
  - now rewrite decide_False.
Qed.

(** Without a file, [init] succeeds with a grid of size 32 in which,
    for the loop indices (i, j, k) of the code in [0, 31], [i] innermost,
    the sample [lut[k][j][i]] is (k/(size-1), j/(size-1), i/(size-1)), in
    exact arithmetic. *)
Lemma identity_grid_exact (fopen : string -> FILE + Z) (lut3d : LUT3DContext Q)
    (i j k : Z) :
  file lut3d = None ->
  0 <= i <= 31 -> 0 <= j <= 31 -> 0 <= k <= 31 ->
  exists st v,
    init fopen lut3d = Some (0, st) /\
    lutsize (ps_ctx st) = 32 /\
    lut_at (ps_ctx st) k j i = Some v /\
    rgb_eq v (mk_rgbvec (inject_Z k / inject_Z (32 - 1))
                        (inject_Z j / inject_Z (32 - 1))
                        (inject_Z i / inject_Z (32 - 1)))%Q.
Proof.
  intros Hfile Hi Hj Hk. unfold init. rewrite Hfile.
  destruct (set_identity_matrix_cells lut3d 32) as (lut3d' & -> & Hsz & Hcell).
  { unfold INT_MIN, MAX_LEVEL. lia. }
  cbn [mbind option_bind]. eexists _, _. split; [reflexivity|].
  cbn [ps_ctx]. split; [exact Hsz|].
  split; [apply lut_at_cell; unfold MAX_LEVEL; lia|].
  rewrite Hcell. rewrite decide_True by lia.
  unfold rgb_eq. cbn [r g b fmul double_to_float ddiv int_to_double int_to_float Q_arith].
  change (inject_Z (32 - 1)) with (31 # 1)%Q. change (inject_Z 1) with 1%Q.
  repeat split; field.
Qed.

(** C2, as the code computes it.  Without a file, [init] succeeds with a
    grid of size 32 in which, for the loop indices (i, j, k) of the code
    in [0, 31], [i] innermost, the sample [lut[k][j][i]] is
    (k * c, j * c, i * c), where [c] is [1. / (size - 1)] computed in
    double and stored in a float, and each product is a float product.
    In any float arithmetic. *)
Theorem identity_grid {num : Type} {FA : FloatArith num}
    (fopen : string -> FILE + Z) (lut3d : LUT3DContext num) (i j k : Z) :
  file lut3d = None ->
  0 <= i <= 31 -> 0 <= j <= 31 -> 0 <= k <= 31 ->
  let c := double_to_float (ddiv (int_to_double 1) (int_to_double (32 - 1))) in
  exists st,
    init fopen lut3d = Some (0, st) /\
    lutsize (ps_ctx st) = 32 /\
    lut_at (ps_ctx st) k j i
    = Some (mk_rgbvec (fmul (int_to_float k) c) (fmul (int_to_float j) c)
                      (fmul (int_to_float i) c)).
Proof.
  intros Hfile Hi Hj Hk c. unfold init. rewrite Hfile.
  destruct (set_identity_matrix_cells lut3d 32) as (lut3d' & -> & Hsz & Hcell).
  { unfold INT_MIN, MAX_LEVEL. lia. }
  cbn [mbind option_bind]. eexists. split; [reflexivity|].
  cbn [ps_ctx]. split; [exact Hsz|].
  rewrite lut_at_cell by (unfold MAX_LEVEL; lia).
  rewrite Hcell. now rewrite decide_True by lia.
Qed.

(** The sample [lut[29][0][31]] of the identity grid in binary32. *)
Lemma identity_grid_witness :
  exists st,
    init (fun _ => inr 2) (zero_context (num := spec_float)) = Some (0, st) /\
    lutsize (ps_ctx st) = 32 /\
    lut_at (ps_ctx st) 29 0 31
    = Some (mk_rgbvec (S754_finite false 15694814 (-24)) (S754_zero false)
                      (S754_finite false 8388608 (-23))).
Proof.
  destruct (identity_grid (fun _ => inr 2) (zero_context (num := spec_float))
              31 0 29 eq_refl)
    as (st & H1 & H2 & H3); try lia.
  exists st. split; [exact H1|]. split; [exact H2|].
  rewrite H3. vm_compute. reflexivity.
Defined.

(** C2, the quotient.  In binary32 the sample stored for index 29 is
    29 * (float)(1. / 31) = 15694814 * 2^-24, while the float nearest to
    29 / 31, which the float division gives, is 15694815 * 2^-24: the
    stored sample is not k / (size - 1), not even as the nearest float. *)
Theorem identity_grid_not_quotient :
  exists st,
    init (fun _ => inr 2) (zero_context (num := spec_float)) = Some (0, st) /\
    r (cell (ps_ctx st) 29 0 0) = S754_finite false 15694814 (-24) /\
    fdiv (int_to_float 29) (int_to_float (32 - 1))
    = S754_finite false 15694815 (-24).
Proof.
  unfold init. cbn [file zero_context].
  destruct (set_identity_matrix_cells (zero_context (num := spec_float)) 32)
    as (l & -> & _ & Hcell).
  { unfold INT_MIN, MAX_LEVEL. lia. }
  cbn [mbind option_bind]. eexists. split; [reflexivity|].
  cbn [ps_ctx]. rewrite Hcell. rewrite decide_True by lia.
  split; vm_compute; reflexivity.
Qed.


(** ** The pixel mapper *)

Lemma av_clip_uint_range (nbits a : Z) :
  0 <= nbits -> 0 <= av_clip_uint nbits a <= Z.shiftl 1 nbits - 1.
Proof.
  intros Hb. unfold av_clip_uint.
  assert (0 < Z.shiftl 1 nbits).
  { rewrite Z.shiftl_1_l. now apply Z.pow_pos_nonneg. }
  destruct (a <? 0) eqn:E1; [lia|]. apply Z.ltb_ge in E1.
  destruct (Z.shiftl 1 nbits - 1 <? a) eqn:E2; [lia|]. apply Z.ltb_ge in E2.
  lia.
Qed.

Lemma sample_set_spec (row row' : list Z) (x v : Z) :
  sample_set row x v = Some row' ->
  0 <= x /\
  length row' = length row /\
  sample_at row' x = Some v /\
  forall y, y <> x -> sample_at row' y = sample_at row y.
Proof.
  unfold sample_set. destruct (0 <=? x) eqn:E0; [|discriminate].
  destruct (x <? Z.of_nat (length row)) eqn:E1; [|discriminate].
  apply Z.leb_le in E0. apply Z.ltb_lt in E1. simpl. intros [= <-].
  split; [exact E0|]. split; [apply length_insert|]. split.
  - unfold sample_at. apply Z.leb_le in E0. rewrite E0.
    apply list_lookup_insert_eq. lia.
  - intros y Hy. unfold sample_at. destruct (0 <=? y) eqn:Ey; [|reflexivity].
    apply Z.leb_le in Ey. apply list_lookup_insert_ne. lia.
Qed.

Lemma mapped_pixel_ext {num : Type} {FA : FloatArith num} (nbits : Z)
    (lut3d : LUT3DContext num) (a b : list Z) (x : Z) :
  (forall c, 0 <= c < step lut3d -> sample_at a (x + c) = sample_at b (x + c)) ->
  valid_layout lut3d ->
  mapped_pixel nbits lut3d a x = mapped_pixel nbits lut3d b x.
Proof.
  unfold mapped_pixel, valid_layout.
  destruct (rgba_map lut3d) as [[[cr cg] cb] ca].
  intros H (Hs & Hr & Hg & Hb & _).
  now rewrite (H cr Hr), (H cg Hg), (H cb Hb).
Qed.

(** One pixel: the three channels are written with the mapped values, the
    alpha sample is copied when the frame is not filtered in place and the
    pixel has four components, and nothing else in the row changes. *)
Lemma filter_pixel_spec {num : Type} {FA : FloatArith num} (nbits : Z)
    (lut3d : LUT3DContext num) (direct : bool) (src dst dst' : list Z)
    (x : Z) :
  valid_layout lut3d ->
  filter_pixel nbits lut3d direct src dst x = Some dst' ->
  let '(cr, cg, cb, ca) := rgba_map lut3d in
  exists vr vg vb,
    mapped_pixel nbits lut3d src x = Some (vr, vg, vb) /\
    sample_at dst' (x + cr) = Some vr /\
    sample_at dst' (x + cg) = Some vg /\
    sample_at dst' (x + cb) = Some vb /\
    (forall c, ~ (0 <= c < step lut3d) ->
               sample_at dst' (x + c) = sample_at dst (x + c)) /\
    (step lut3d = 4 ->
     sample_at dst' (x + ca) =
     sample_at (if direct then dst else src) (x + ca)).
Proof.
  unfold valid_layout, filter_pixel, mapped_pixel.
  destruct (rgba_map lut3d) as [[[cr cg] cb] ca].
  intros (Hs & Hr & Hg & Hb & Hrg & Hrb & Hgb & Ha).
  destruct (if nbits =? 16 then interp_16 lut3d else interp_8 lut3d)
    as [name|]; [|discriminate].
  cbn [mbind option_bind].
  destruct (sample_at src (x + cr)) as [sr|]; [|discriminate].
  destruct (sample_at src (x + cg)) as [sg|]; [|discriminate].
  destruct (sample_at src (x + cb)) as [sb|]; [|discriminate].
  cbn [mbind option_bind].
  destruct (interp_func nbits name lut3d sr sg sb) as [vec|]; [|discriminate].
  cbn [mbind option_bind].
  destruct (to_int (fmul (r vec) _)) as [vr|]; [|discriminate].
  cbn [mbind option_bind].
  destruct (sample_set dst (x + cr) _) as [dst1|] eqn:E1; [|discriminate].
  cbn [mbind option_bind].
  destruct (to_int (fmul (g vec) _)) as [vg|]; [|discriminate].
  cbn [mbind option_bind].
  destruct (sample_set dst1 (x + cg) _) as [dst2|] eqn:E2; [|discriminate].
  cbn [mbind option_bind].
  destruct (to_int (fmul (b vec) _)) as [vb|]; [|discriminate].
  cbn [mbind option_bind].
  destruct (sample_set dst2 (x + cb) _) as [dst3|] eqn:E3; [|discriminate].
  cbn [mbind option_bind].
  apply sample_set_spec in E1 as (_ & _ & G1 & O1).
  apply sample_set_spec in E2 as (_ & _ & G2 & O2).
  apply sample_set_spec in E3 as (_ & _ & G3 & O3).
  intros Hend. eexists _, _, _. split; [reflexivity|].
  assert (Hthree :
    sample_at dst3 (x + cr) = Some (av_clip_uint nbits vr) /\
    sample_at dst3 (x + cg) = Some (av_clip_uint nbits vg) /\
    sample_at dst3 (x + cb) = Some (av_clip_uint nbits vb) /\
    forall y, y <> x + cr -> y <> x + cg -> y <> x + cb ->
              sample_at dst3 y = sample_at dst y).
  { repeat split.
    - rewrite O3, O2 by lia. exact G1.
    - rewrite O3 by lia. exact G2.
    - exact G3.
    - intros y Y1 Y2 Y3. rewrite O3, O2, O1 by assumption. reflexivity. }
  destruct Hthree as (T1 & T2 & T3 & T4).
  destruct (negb direct && (step lut3d =? 4)) eqn:Ealpha.
  - apply andb_true_iff in Ealpha as [Ed E4].
    apply negb_true_iff in Ed. apply Z.eqb_eq in E4. subst direct.
    destruct (Ha E4) as (Ha0 & Har & Hag & Hab).
    destruct (sample_at src (x + ca)) as [sa|] eqn:Esa; [|discriminate].
    cbn [mbind option_bind] in Hend.
    apply sample_set_spec in Hend as (_ & _ & G4 & O4).
    repeat split.
    + rewrite O4 by lia. exact T1.
    + rewrite O4 by lia. exact T2.
    + rewrite O4 by lia. exact T3.
    + intros c Hc. rewrite O4 by lia. apply T4; lia.
    + intros _. exact G4.
  - injection Hend as <-. repeat split; try assumption.
    + intros c Hc. apply T4; lia.
    + intros E4. destruct (Ha E4) as (Ha0 & Har & Hag & Hab).
      rewrite E4, Z.eqb_refl, andb_true_r in Ealpha.
      apply negb_false_iff in Ealpha. subst direct. apply T4; lia.
Qed.

(** One row: every pixel is mapped from the samples the row had on entry,
    and what lies before the first pixel is left alone. *)
Lemma filter_row_loop_spec {num : Type} {FA : FloatArith num} (nbits : Z)
    (lut3d : LUT3DContext num) (direct : bool) (n : nat) (x0 : Z)
    (src dst dst' : list Z) :
  valid_layout lut3d ->
  filter_row_loop nbits lut3d direct n x0 src dst = Some dst' ->
  let base := if direct then dst else src in
  (forall y, y < x0 -> sample_at dst' y = sample_at dst y) /\
  forall q, (q < n)%nat ->
    let x := x0 + Z.of_nat q * step lut3d in
    exists vr vg vb,
      mapped_pixel nbits lut3d base x = Some (vr, vg, vb) /\
      sample_at dst' (x + (rgba_map lut3d).1.1.1) = Some vr /\
      sample_at dst' (x + (rgba_map lut3d).1.1.2) = Some vg /\
      sample_at dst' (x + (rgba_map lut3d).1.2) = Some vb /\
      (step lut3d = 4 ->
       sample_at dst' (x + (rgba_map lut3d).2) =
       sample_at base (x + (rgba_map lut3d).2)).
Proof.
  intros Hlay. revert x0 dst.
  induction n as [|n IH]; intros x0 dst Hrun base.
  - injection Hrun as <-. split; [reflexivity|]. intros q Hq. lia.
  - cbn [filter_row_loop] in Hrun. fold base in Hrun.
    destruct (filter_pixel nbits lut3d direct base dst x0) as [dst1|] eqn:Epx;
      [|discriminate].
    cbn [mbind option_bind] in Hrun.
    pose proof (filter_pixel_spec nbits lut3d direct base dst dst1 x0 Hlay Epx)
      as Hpx.
    pose proof Hlay as Hlay'. unfold valid_layout in Hlay'.
    destruct (rgba_map lut3d) as [[[cr cg] cb] ca] eqn:Emap.
    destruct Hlay' as (Hs & Hr & Hg & Hb & Hrg & Hrb & Hgb & Ha).
    destruct Hpx as (vr & vg & vb & Hmap & P1 & P2 & P3 & Pother & Palpha).
    destruct (IH (x0 + step lut3d) dst1 Hrun) as [Hbefore Hpix].
    cbn [fst snd] in *.
    assert (Hbase : (if direct then dst else base) = base).
    { unfold base. destruct direct; reflexivity. }
    rewrite Hbase in Palpha.
    split.
    + intros y Hy. rewrite Hbefore by lia.
      replace y with (x0 + (y - x0)) by lia. apply Pother. lia.
    + intros [|q] Hq; cbv zeta.
      * change (Z.of_nat 0) with 0. rewrite Z.mul_0_l, Z.add_0_r.
        exists vr, vg, vb. split; [exact Hmap|].
        rewrite !Hbefore by lia. repeat split; try assumption.
        intros E4. destruct (Ha E4). rewrite Hbefore by lia. auto.
      * destruct (Hpix q) as (wr & wg & wb & Hm & Q1 & Q2 & Q3 & Qa); [lia|].
        cbv zeta in Hm, Q1, Q2, Q3, Qa.
        set (x := x0 + Z.of_nat (S q) * step lut3d).
        assert (Hx : x0 + step lut3d + Z.of_nat q * step lut3d = x)
          by (subst x; lia).
        rewrite Hx in *.
        assert (Hsame : forall c, 0 <= c ->
                  sample_at (if direct then dst1 else src) (x + c)
                  = sample_at base (x + c)).
        { intros c Hc. unfold base. destruct direct; [|reflexivity].
          replace (x + c) with (x0 + (x + c - x0)) by lia.
          apply Pother. subst x. nia. }
        exists wr, wg, wb. split.
        { rewrite <- Hm. symmetry. apply mapped_pixel_ext; [|exact Hlay].
          intros c Hc. apply Hsame. lia. }
        repeat split; try assumption.
        intros E4. destruct (Ha E4). rewrite Qa by exact E4. apply Hsame. lia.
Qed.

Lemma filter_row_spec {num : Type} {FA : FloatArith num} (nbits : Z)
    (lut3d : LUT3DContext num) (direct : bool) (w : Z)
    (src dst dst' : list Z) :
  valid_layout lut3d ->
  filter_row nbits lut3d direct w src dst = Some dst' ->
  let base := if direct then dst else src in
  forall p, 0 <= p < w ->
    let x := p * step lut3d in
    exists vr vg vb,
      mapped_pixel nbits lut3d base x = Some (vr, vg, vb) /\
      sample_at dst' (x + (rgba_map lut3d).1.1.1) = Some vr /\
      sample_at dst' (x + (rgba_map lut3d).1.1.2) = Some vg /\
      sample_at dst' (x + (rgba_map lut3d).1.2) = Some vb /\
      (step lut3d = 4 ->
       sample_at dst' (x + (rgba_map lut3d).2) =
       sample_at base (x + (rgba_map lut3d).2)).
Proof.
  intros Hlay Hrun base p Hp x. unfold filter_row in Hrun.
  assert (Hs : 0 < step lut3d).
  { unfold valid_layout in Hlay.
    destruct (rgba_map lut3d) as [[[cr cg] cb] ca]. tauto. }
  apply Z.ltb_lt in Hs. rewrite Hs in Hrun.
  destruct (filter_row_loop_spec nbits lut3d direct _ 0 src dst dst' Hlay Hrun)
    as [_ Hpix].
  destruct (Hpix (Z.to_nat p)) as (vr & vg & vb & H); [lia|].
  rewrite Z2Nat.id, Z.add_0_l in H by lia.
  exists vr, vg, vb. exact H.
Qed.

Lemma FILTER_rows_spec {num : Type} {FA : FloatArith num} (nbits : Z)
    (lut3d : LUT3DContext num) (direct : bool) (w : Z) (h : nat)
    (src dst out : list (list Z)) :
  FILTER_rows nbits lut3d direct w h src dst = Some out ->
  forall y, (y < h)%nat ->
    exists srow drow orow,
      src !! y = Some srow /\ dst !! y = Some drow /\ out !! y = Some orow /\
      filter_row nbits lut3d direct w srow drow = Some orow.
Proof.
  revert src dst out. induction h as [|h IH]; intros src dst out Hrun y Hy.
  - lia.
  - cbn [FILTER_rows] in Hrun.
    destruct src as [|srow src]; [discriminate|].
    destruct dst as [|drow dst]; [discriminate|].
    destruct (filter_row nbits lut3d direct w srow drow) as [row|] eqn:Erow;
      [|discriminate].
    cbn [mbind option_bind] in Hrun.
    destruct (FILTER_rows nbits lut3d direct w h src dst) as [rest|] eqn:Erest;
      [|discriminate].
    injection Hrun as <-.
    destruct y as [|y].
    + exists srow, drow, row. auto.
    + destruct (IH src dst rest Erest y) as (s & d & o & H); [lia|].
      exists s, d, o. exact H.
Qed.

(** C9.  When [filter_frame] hands a picture on, every pixel of it has its
    R, G and B samples equal to the interpolated sample of the input pixel,
    scaled by [2^bits - 1], truncated to [int] and clipped, each inside
    [0, 2^bits - 1]; and in a format of four components the fourth sample,
    alpha, is the one of the input pixel. *)
Theorem filter_frame_pixels {num : Type} {FA : FloatArith num}
    (lut3d : LUT3DContext num) (w h : Z) (in_ : list (list Z))
    (writable : bool) (buffer : option (list (list Z)))
    (out : list (list Z)) (y p : Z) :
  valid_layout lut3d ->
  filter_frame lut3d w h in_ writable buffer = Some (inr out) ->
  0 <= y < h -> 0 <= p < w ->
  let nbits := frame_bits lut3d in
  let x := p * step lut3d in
  exists row_in row_out vr vg vb,
    in_ !! Z.to_nat y = Some row_in /\
    out !! Z.to_nat y = Some row_out /\
    mapped_pixel nbits lut3d row_in x = Some (vr, vg, vb) /\
    sample_at row_out (x + (rgba_map lut3d).1.1.1) = Some vr /\
    sample_at row_out (x + (rgba_map lut3d).1.1.2) = Some vg /\
    sample_at row_out (x + (rgba_map lut3d).1.2) = Some vb /\
    0 <= vr <= 2 ^ nbits - 1 /\ 0 <= vg <= 2 ^ nbits - 1 /\
    0 <= vb <= 2 ^ nbits - 1 /\
    (step lut3d = 4 ->
     sample_at row_out (x + (rgba_map lut3d).2) =
     sample_at row_in (x + (rgba_map lut3d).2)).
Proof.
  intros Hlay Hrun Hy Hp nbits x. unfold filter_frame in Hrun.
  fold (frame_bits lut3d) in Hrun. fold nbits in Hrun.
  assert (Hrows : exists direct dst,
            FILTER_rows nbits lut3d direct w (Z.to_nat h) in_ dst = Some out /\
            (direct = true -> dst = in_)).
  { destruct writable.
    - destruct (FILTER_rows nbits lut3d true w (Z.to_nat h) in_ in_) as [o|] eqn:E;
        [|discriminate].
      injection Hrun as <-. exists true, in_. auto.
    - destruct buffer as [out0|]; [|discriminate].
      destruct (FILTER_rows nbits lut3d false w (Z.to_nat h) in_ out0) as [o|] eqn:E;
        [|discriminate].
      injection Hrun as <-. exists false, out0. split; [exact E|discriminate]. }
  destruct Hrows as (direct & dst & Hrows & Hdirect).
  destruct (FILTER_rows_spec nbits lut3d direct w _ in_ dst out Hrows (Z.to_nat y))
    as (srow & drow & orow & Hs & Hd & Ho & Hrow); [lia|].
  assert (Hbase : (if direct then drow else srow) = srow).
  { destruct direct; [|reflexivity]. rewrite Hdirect in Hd by reflexivity.
    congruence. }
  destruct (filter_row_spec nbits lut3d direct w srow drow orow Hlay Hrow p Hp)
    as (vr & vg & vb & Hm & H1 & H2 & H3 & H4).
  rewrite Hbase in Hm, H4.
  exists srow, orow, vr, vg, vb.
  split; [exact Hs|]. split; [exact Ho|]. split; [exact Hm|].
  split; [exact H1|]. split; [exact H2|]. split; [exact H3|].
  assert (Hbits : 0 <= nbits) by (unfold nbits, frame_bits; destruct (is16bit lut3d); lia).
  assert (Hrange : 0 <= vr <= 2 ^ nbits - 1 /\ 0 <= vg <= 2 ^ nbits - 1 /\
                   0 <= vb <= 2 ^ nbits - 1).
  { unfold mapped_pixel in Hm.
    destruct (rgba_map lut3d) as [[[cr cg] cb] ca].
    repeat (cbn [mbind option_bind] in Hm;
            match type of Hm with
            | mbind _ ?e = Some _ => destruct e; [|discriminate]
            end).
    cbn [mbind option_bind] in Hm.
    injection Hm as <- <- <-.
    rewrite <- Z.shiftl_1_l.
    repeat split; apply av_clip_uint_range; exact Hbits. }
  destruct Hrange as (R1 & R2 & R3).
  split; [exact R1|]. split; [exact R2|]. split; [exact R3|]. exact H4.
Qed.

(** The second pixel of a picture of one row, filtered into a buffer. *)
Lemma filter_frame_pixels_witness :
  exists row_in row_out vr vg vb,
    demo_frame !! 0%nat = Some row_in /\
    [[255; 0; 128; 77; 0; 255; 64; 200]] !! 0%nat = Some row_out /\
    mapped_pixel 8 demo_rgba row_in 4 = Some (vr, vg, vb) /\
    sample_at row_out 4 = Some vr /\
    sample_at row_out 5 = Some vg /\
    sample_at row_out 6 = Some vb /\
    0 <= vr <= 255 /\ 0 <= vg <= 255 /\ 0 <= vb <= 255 /\
    sample_at row_out 7 = sample_at row_in 7.
Proof.
  destruct (filter_frame_pixels demo_rgba 2 1 demo_frame false
              (Some demo_buffer) [[255; 0; 128; 77; 0; 255; 64; 200]] 0 1)
    as (row_in & row_out & vr & vg & vb & H1 & H2 & H3 & H4 & H5 & H6 & H7 & H8 & H9 & H10).
  - vm_compute. repeat split; discriminate.
  - vm_compute. reflexivity.
  - lia.
  - lia.
  - exists row_in, row_out, vr, vg, vb.
    split; [exact H1|]. split; [exact H2|]. split; [exact H3|].
    split; [exact H4|]. split; [exact H5|]. split; [exact H6|].
    split; [exact H7|]. split; [exact H8|]. split; [exact H9|].
    apply H10. reflexivity.
Defined.

(** * Further properties *)

(** ** The order of the cells *)

Lemma lookup_bind_const {A B : Type} (l : list A) (f : A -> list B)
    (m q s : nat) (a : A) (y : B) :
  (forall x, length (f x) = m) ->
  l !! q = Some a -> f a !! s = Some y ->
  (l ≫= f) !! (q * m + s)%nat = Some y.
Proof.
  intros Hlen. revert q. induction l as [|x l IH]; intros q Hq Hs.
  - discriminate.
  - csimpl. destruct q as [|q].
    + injection Hq as ->. simpl. apply lookup_app_l_Some. exact Hs.
    + simpl in Hq. rewrite lookup_app_r by (rewrite Hlen; lia).
      rewrite Hlen. replace (S q * m + s - m)%nat with (q * m + s)%nat by lia.
      now apply IH.
Qed.

Lemma cell_list_lookup (size k j i : Z) :
  0 <= k < size -> 0 <= j < size -> 0 <= i < size ->
  cell_list size !! cell_index size k j i = Some (k, j, i).
Proof.
  intros Hk Hj Hi. unfold cell_list, cell_index.
  replace (Z.to_nat (k * size * size + j * size + i))
    with (Z.to_nat k * (Z.to_nat size * Z.to_nat size)
          + (Z.to_nat j * Z.to_nat size + Z.to_nat i))%nat by nia.
  apply lookup_bind_const with (a := k).
  - intros x. rewrite (bind_const_length _ _ (Z.to_nat size)).
    + now rewrite length_seqZ.
    + intros y. rewrite (bind_const_length _ _ 1%nat).
      * rewrite length_seqZ. lia.
      * reflexivity.
  - rewrite lookup_seqZ. lia.
  - apply lookup_bind_const with (a := j).
    + intros y. rewrite (bind_const_length _ _ 1%nat).
      * rewrite length_seqZ. lia.
      * reflexivity.
    + rewrite lookup_seqZ. lia.
    + replace (Z.to_nat i) with (Z.to_nat i * 1 + 0)%nat by lia.
      apply lookup_bind_const with (a := i).
      * reflexivity.
      * rewrite lookup_seqZ. lia.
      * reflexivity.
Qed.

Lemma cell_list_NoDup (size : Z) : NoDup (cell_list size).
Proof.
  unfold cell_list. apply NoDup_bind; [| |apply NoDup_seqZ].
  - intros k1 k2 c _ _ H1 H2.
    apply list_elem_of_bind in H1 as (j1 & H1 & _).
    apply list_elem_of_bind in H1 as (i1 & H1 & _).
    apply list_elem_of_bind in H2 as (j2 & H2 & _).
    apply list_elem_of_bind in H2 as (i2 & H2 & _).
    apply list_elem_of_singleton in H1, H2. congruence.
  - intros k _. apply NoDup_bind; [| |apply NoDup_seqZ].
    + intros j1 j2 c _ _ H1 H2.
      apply list_elem_of_bind in H1 as (i1 & H1 & _).
      apply list_elem_of_bind in H2 as (i2 & H2 & _).
      apply list_elem_of_singleton in H1, H2. congruence.
    + intros j _. apply NoDup_bind; [| |apply NoDup_seqZ].
      * intros i1 i2 c _ _ H1 H2.
        apply list_elem_of_singleton in H1, H2. congruence.
      * intros i _. apply NoDup_singleton.
Qed.

Lemma cell_index_bound (size k j i : Z) :
  0 <= k < size -> 0 <= j < size -> 0 <= i < size ->
  (cell_index size k j i < ncells size)%nat.
Proof.
  intros Hk Hj Hi. unfold ncells.
  apply lookup_lt_is_Some. rewrite cell_list_lookup by assumption. eauto.
Qed.

(** ** What a successful pass leaves in the grid *)

Lemma cell_lut_set {num : Type} {FA : FloatArith num}
    (lut3d lut3d' : LUT3DContext num) (c c' : Z * Z * Z) (v : rgbvec num) :
  lut lut3d' = <[c := v]> (lut lut3d) ->
  cell lut3d' c'.1.1 c'.1.2 c'.2 =
  if decide (c = c') then v else cell lut3d c'.1.1 c'.1.2 c'.2.
Proof.
  intros H. unfold cell. rewrite H. destruct c' as [[k j] i]. cbn [fst snd].
  destruct (decide (c = (k, j, i))) as [->|Hne].
  - now rewrite lookup_insert_eq.
  - now rewrite lookup_insert_ne.
Qed.

(** After a pass that stored every cell, the [n]-th cell holds what the
    [n]-th data line converts to, and the cells that were not listed hold
    what they held. *)
Lemma reader_loop_cells {num : Type} {FA : FloatArith num}
    (loop_cond : string -> bool)
    (conv : string -> option (rgbvec num -> rgbvec num))
    (cells : list (Z * Z * Z)) (st st' : pstate num) :
  Forall cell_in_array cells -> NoDup cells ->
  for_each cells (on_cell (reader_cell loop_cond conv)) st
  = Some (Continue st') ->
  let dl := data_lines loop_cond (ps_file st) in
  (forall n c, cells !! n = Some c ->
     exists line upd,
       dl !! n = Some line /\ conv line = Some upd /\
       cell (ps_ctx st') c.1.1 c.1.2 c.2
       = upd (cell (ps_ctx st) c.1.1 c.1.2 c.2)) /\
  (forall c, c ∉ cells ->
     cell (ps_ctx st') c.1.1 c.1.2 c.2 = cell (ps_ctx st) c.1.1 c.1.2 c.2).
Proof.
  revert st. induction cells as [|c0 cells IH]; intros st Hin Hnd Hrun dl.
  - injection Hrun as <-. split; [intros n c H; discriminate|reflexivity].
  - apply Forall_cons in Hin as [Hc Hin]. apply NoDup_cons in Hnd as [Hc0 Hnd].
    cbn [for_each] in Hrun. unfold on_cell at 1, reader_cell at 1 in Hrun.
    destruct (NEXT_LINE loop_cond (ps_file st)) as [[line f']|] eqn:EN;
      [|discriminate].
    apply NEXT_LINE_Some in EN as [Edl _]. fold dl in Edl.
    destruct (conv line) as [upd|] eqn:EC; [|discriminate].
    destruct c0 as [[k0 j0] i0]. cbn [fst snd] in Hrun.
    destruct (lut_set_Some (ps_ctx st) k0 j0 i0
                (upd (cell (ps_ctx st) k0 j0 i0)) Hc)
      as (lut3d1 & E1 & _ & Hlut).
    rewrite E1 in Hrun. cbn [mbind option_bind] in Hrun.
    destruct (IH _ Hin Hnd Hrun) as [Hcells Hframe].
    cbn [ps_ctx ps_file] in Hcells, Hframe.
    split.
    + intros [|n] c Hn.
      * injection Hn as <-. exists line, upd. rewrite Edl.
        split; [reflexivity|]. split; [exact EC|].
        rewrite (Hframe (k0, j0, i0) Hc0).
        rewrite (cell_lut_set _ _ _ (k0, j0, i0) _ Hlut).
        now rewrite decide_True.
      * cbn in Hn. destruct (Hcells n c Hn) as (l & u & Hl & Hu & Hcell).
        exists l, u. rewrite Edl. split; [exact Hl|]. split; [exact Hu|].
        rewrite Hcell. rewrite (cell_lut_set _ _ _ c _ Hlut).
        rewrite decide_False; [reflexivity|].
        intros <-. apply Hc0. apply list_elem_of_lookup. eauto.
    + intros c Hc'. apply not_elem_of_cons in Hc' as [Hne Hc'].
      rewrite (Hframe c Hc'). rewrite (cell_lut_set _ _ _ c _ Hlut).
      now rewrite decide_False by congruence.
Qed.

(** The same for the loop nest of a loader whose grid fits the array. *)
Lemma reader_grid {num : Type} {FA : FloatArith num}
    (loop_cond : string -> bool)
    (conv : string -> option (rgbvec num -> rgbvec num))
    (size : Z) (st st' : pstate num) (k j i : Z) :
  size <= MAX_LEVEL ->
  returned (for_kji size (reader_cell loop_cond conv) st) = Some (0, st') ->
  0 <= k < size -> 0 <= j < size -> 0 <= i < size ->
  exists line upd,
    data_lines loop_cond (ps_file st) !! cell_index size k j i = Some line /\
    conv line = Some upd /\
    cell (ps_ctx st') k j i = upd (cell (ps_ctx st) k j i).
Proof.
  intros Hsize Hrun Hk Hj Hi. rewrite for_kji_cells in Hrun.
  destruct (for_each _ _ st) as [[st1|ret st1]|] eqn:E; try discriminate.
  - injection Hrun as ->.
    destruct (reader_loop_cells loop_cond conv (cell_list size) st st'
                (cell_list_in_array size Hsize) (cell_list_NoDup size) E)
      as [Hcells _].
    exact (Hcells _ (k, j, i) (cell_list_lookup size k j i Hk Hj Hi)).
  - cbn [returned] in Hrun. injection Hrun as -> ->.
    destruct (reader_loop loop_cond conv (cell_list size) st
                (cell_list_in_array size Hsize)) as (fl & Hfl & Hres).
    rewrite E in Hfl. injection Hfl as <-. destruct Hres as [Hret _].
    discriminate.
Qed.

(** ** What the loaders store *)

Lemma load_outcome_zero (ok : string -> Prop) (n : nat) (dl : list string)
    (log0 log' : list log_entry) :
  load_outcome ok n dl log0 0 log' -> log' = log0.
Proof.
  intros [(_ & _ & _ & H)|[(H & _)|(H & _)]]; [exact H|discriminate..].
Qed.

Lemma conv_3dl_inv {num : Type} {FA : FloatArith num} (scale : num)
    (line : string) (upd : rgbvec num -> rgbvec num) :
  conv_3dl scale line = Some upd ->
  exists a b c,
    sscanf3 scan_int line = (3, [a; b; c]) /\
    upd = fun _ => mk_rgbvec (fdiv (int_to_float a) scale)
                             (fdiv (int_to_float b) scale)
                             (fdiv (int_to_float c) scale).
Proof.
  unfold conv_3dl. destruct (sscanf3 scan_int line) as [n l].
  destruct n as [|[[?|?|]|?|]|?]; try discriminate.
  destruct l as [|a [|b [|c [|d l]]]]; try discriminate.
  intros [= <-]. eauto.
Qed.

Lemma conv_m3d_inv {num : Type} {FA : FloatArith num} (scale : num)
    (rgb_map : Z * Z * Z) (line : string) (upd : rgbvec num -> rgbvec num) :
  conv_m3d scale rgb_map line = Some upd ->
  exists v0 v1 v2,
    sscanf3 scan_float line = (3, [v0; v1; v2]) /\
    upd = fun _ =>
      mk_rgbvec (fmul (arr3_get (v0, v1, v2) (arr3_get rgb_map 0)) scale)
                (fmul (arr3_get (v0, v1, v2) (arr3_get rgb_map 1)) scale)
                (fmul (arr3_get (v0, v1, v2) (arr3_get rgb_map 2)) scale).
Proof.
  unfold conv_m3d. destruct (sscanf3 scan_float line) as [n l].
  destruct n as [|[[?|?|]|?|]|?]; try discriminate.
  destruct l as [|a [|b [|c [|d l]]]]; try discriminate.
  intros [= <-]. eauto.
Qed.

(** X1.  [parse_dat] reads exactly as many data lines as the grid has cells and
    rejects none of them: it succeeds if and only if the file has that many
    lines that are neither blank nor comments, and otherwise fails with
    [AVERROR_INVALIDDATA] having logged the end of the file.  After a
    success, cell [(k, j, i)] holds what [sscanf] made of data line number
    [k * size^2 + j * size + i]: the fields it could scan, and for the
    others what the cell held before. *)
Theorem parse_dat_loads {num : Type} {FA : FloatArith num} (st : pstate num) :
  lutsize (ps_ctx st) <= MAX_LEVEL ->
  let size := lutsize (ps_ctx st) in
  let dl := data_lines skip_line (ps_file st) in
  exists ret st',
    parse_dat st = Some (ret, st') /\
    lutsize (ps_ctx st') = size /\
    ((ncells size <= length dl)%nat /\ ret = 0 /\ ps_log st' = ps_log st /\
     (forall k j i, 0 <= k < size -> 0 <= j < size -> 0 <= i < size ->
        exists line,
          dl !! cell_index size k j i = Some line /\
          cell (ps_ctx st') k j i
          = (sscanf_vec line (cell (ps_ctx st) k j i)).2)
     \/
     (length dl < ncells size)%nat /\ ret = AVERROR_INVALIDDATA /\
     ps_log st' = (ps_log st ++ [eof_entry])%list).
Proof.
  intros Hsize size dl.
  destruct (parse_dat_outcome st Hsize) as (ret & st' & Hrun & Hsz & Hout).
  exists ret, st'. split; [exact Hrun|]. split; [exact Hsz|].
  fold size dl in Hout.
  destruct (le_lt_dec (ncells size) (length dl)) as [Hlen|Hlen].
  - left. split; [exact Hlen|].
    assert (ret = 0) as ->.
    { apply (load_outcome_success _ _ _ _ _ _ Hout). split; [exact Hlen|].
      apply Forall_forall. auto. }
    split; [reflexivity|]. split; [exact (load_outcome_zero _ _ _ _ _ Hout)|].
    intros k j i Hk Hj Hi.
    unfold parse_dat in Hrun.
    rewrite (for_kji_ext _ _ _ _ parse_dat_cell_reader) in Hrun.
    destruct (reader_grid skip_line conv_dat size st st' k j i Hsize Hrun Hk Hj Hi)
      as (line & upd & Hl & Hu & Hcell).
    exists line. split; [exact Hl|]. rewrite Hcell.
    unfold conv_dat in Hu. injection Hu as <-. reflexivity.
  - right. split; [exact Hlen|].
    destruct (load_outcome_short _ _ _ _ _ _ Hout Hlen) as [-> Hlog].
    split; [reflexivity|]. apply Hlog. apply Forall_forall. auto.
Qed.

(** X2.  [parse_3dl] on a file whose header line is followed by at least 17^3
    data lines, the first 17^3 of them three integers each: it succeeds,
    the size is 17, nothing is logged, and cell [(k, j, i)] holds the three
    integers of data line number [k * 17^2 + j * 17 + i], each divided by
    4096. *)
Theorem parse_3dl_loads {num : Type} {FA : FloatArith num}
    (st : pstate num) (header : string) (rest : FILE) :
  ps_file st = header :: rest ->
  let dl := data_lines skip_line rest in
  (17 * 17 * 17 <= length dl)%nat ->
  Forall int_triple (take (17 * 17 * 17) dl) ->
  exists st',
    parse_3dl st = Some (0, st') /\
    lutsize (ps_ctx st') = 17 /\
    ps_log st' = ps_log st /\
    forall k j i, 0 <= k < 17 -> 0 <= j < 17 -> 0 <= i < 17 ->
      exists line a b c,
        dl !! cell_index 17 k j i = Some line /\
        sscanf3 scan_int line = (3, [a; b; c]) /\
        cell (ps_ctx st') k j i
        = mk_rgbvec (fdiv (int_to_float a) (int_to_float 4096))
                    (fdiv (int_to_float b) (int_to_float 4096))
                    (fdiv (int_to_float c) (int_to_float 4096)).
Proof.
  intros Hf dl Hlen Hok.
  destruct (parse_3dl_outcome st header rest Hf) as (ret & st' & Hrun & Hsz & Hout).
  fold dl in Hout.
  assert (Hn : ncells 17 = (17 * 17 * 17)%nat).
  { unfold ncells. now rewrite cell_list_length. }
  assert (ret = 0) as ->.
  { apply (load_outcome_success _ _ _ _ _ _ Hout). rewrite Hn. auto. }
  exists st'. split; [exact Hrun|]. split; [exact Hsz|].
  split; [exact (load_outcome_zero _ _ _ _ _ Hout)|].
  intros k j i Hk Hj Hi.
  unfold parse_3dl in Hrun. cbn [ps_file set_ctx] in Hrun. rewrite Hf in Hrun.
  cbn [fgets] in Hrun.
  rewrite (for_kji_ext _ _ _ _ (parse_3dl_cell_reader _)) in Hrun.
  match type of Hrun with
  | returned (for_kji 17 (reader_cell _ ?c) ?s) = _ =>
      destruct (reader_grid skip_line c 17 s st' k j i) as (line & upd & Hl & Hu & Hcell);
        [unfold MAX_LEVEL; lia|exact Hrun|exact Hk|exact Hj|exact Hi|]
  end.
  apply conv_3dl_inv in Hu as (a & b & c & Hscan & ->).
  exists line, a, b, c. split; [exact Hl|]. split; [exact Hscan|exact Hcell].
Qed.

(** X3.  [parse_m3d] on a file whose header gives [in] and [out], whose derived
    size fits the array and whose lines after [values] are at least size^3,
    the first size^3 of them three numbers each: it succeeds, and cell
    [(k, j, i)] holds data line number [k * size^2 + j * size + i] with its
    columns permuted by the [values] map and scaled by [1. / (out - 1)]. *)
Theorem parse_m3d_loads {num : Type} {FA : FloatArith num}
    (st : pstate num) (size : Z) :
  let h := parse_m3d_header (ps_file st) (-1) (-1) (0, 1, 2) in
  let scale := double_to_float
                 (ddiv (int_to_double 1) (int_to_double (h_out h - 1))) in
  h_in h <> -1 -> h_out h <> -1 -> INT_MIN < h_out h ->
  m3d_size (h_in h) = Some size -> size <= MAX_LEVEL ->
  (ncells size <= length (h_file h))%nat ->
  Forall (float_triple (num := num)) (take (ncells size) (h_file h)) ->
  exists st',
    parse_m3d st = Some (0, st') /\
    lutsize (ps_ctx st') = size /\
    ps_log st' = ps_log st /\
    forall k j i, 0 <= k < size -> 0 <= j < size -> 0 <= i < size ->
      exists line v0 v1 v2,
        h_file h !! cell_index size k j i = Some line /\
        sscanf3 scan_float line = (3, [v0; v1; v2]) /\
        cell (ps_ctx st') k j i
        = mk_rgbvec
            (fmul (arr3_get (v0, v1, v2) (arr3_get (h_rgb_map h) 0)) scale)
            (fmul (arr3_get (v0, v1, v2) (arr3_get (h_rgb_map h) 1)) scale)
            (fmul (arr3_get (v0, v1, v2) (arr3_get (h_rgb_map h) 2)) scale).
Proof.
  intros h scale Hin Hout Hrange Hsize Hfit Hlen Hok.
  destruct (parse_m3d_outcome st size Hin Hout Hsize Hfit Hrange)
    as (ret & st' & Hrun & Hsz & Hres).
  fold h in Hres.
  assert (ret = 0) as ->.
  { apply (load_outcome_success _ _ _ _ _ _ Hres). auto. }
  exists st'. split; [exact Hrun|]. split; [exact Hsz|].
  split; [exact (load_outcome_zero _ _ _ _ _ Hres)|].
  intros k j i Hk Hj Hi.
  unfold parse_m3d in Hrun. fold h in Hrun.
  apply Z.eqb_neq in Hin, Hout. rewrite Hin, Hout in Hrun. cbn [orb] in Hrun.
  rewrite Hsize in Hrun. cbn [mbind option_bind] in Hrun.
  destruct (parse_m3d_header_range (ps_file st) (-1) (-1) (0, 1, 2))
    as [_ Hh]; try (unfold INT_MIN, INT_MAX; lia). fold h in Hh.
  rewrite as_int_Some in Hrun by (unfold INT_MIN, INT_MAX in *; lia).
  cbn [mbind option_bind] in Hrun. fold scale in Hrun.
  rewrite (for_kji_ext _ _ _ _ (parse_m3d_cell_reader _ _)) in Hrun.
  match type of Hrun with
  | returned (for_kji size (reader_cell _ ?c) ?s) = _ =>
      destruct (reader_grid (fun _ => false) c size s st' k j i Hfit Hrun Hk Hj Hi)
        as (line & upd & Hl & Hu & Hcell)
  end.
  cbn [set_ctx set_file ps_file] in Hl. rewrite data_lines_all in Hl.
  apply conv_m3d_inv in Hu as (v0 & v1 & v2 & Hscan & ->).
  exists line, v0, v1, v2. split; [exact Hl|]. split; [exact Hscan|exact Hcell].
Qed.

(** A .dat grid of axis size 2: the malformed line "1 x 0" of cell
    (1, 1, 0) sets the first field and leaves the two others as they
    were. *)
Lemma parse_dat_loads_witness :
  exists ret st',
    parse_dat (num := Q) (loader_state 2 dat_demo) = Some (ret, st') /\
    ret = 0 /\
    exists line,
      data_lines skip_line dat_demo !! cell_index 2 1 1 0 = Some line /\
      cell (ps_ctx st') 1 1 0 = mk_rgbvec 1%Q (int_to_float 0) (int_to_float 0).
Proof.
  destruct (parse_dat_loads (num := Q) (loader_state 2 dat_demo))
    as (ret & st' & Hrun & _ & [(_ & Hret & _ & Hcells)|(Hlen & _)]).
  - vm_compute. discriminate.
  - exists ret, st'. split; [exact Hrun|]. split; [exact Hret|].
    destruct (Hcells 1 1 0) as (line & Hl & Hcell); try (vm_compute; split; congruence).
    exists line. split; [exact Hl|]. rewrite Hcell.
    vm_compute in Hl. injection Hl as <-. reflexivity.
  - exfalso. vm_compute in Hlen. lia.
Defined.

Lemma threedl_demo_triples :
  Forall int_triple (take (17 * 17 * 17) (data_lines skip_line (replicate (17 * 17 * 17) ("1024 2048 4096" ++ nl)))).
Proof.
  apply Forall_take, Forall_forall. intros l Hl.
  unfold data_lines in Hl. apply list_elem_of_In, filter_In in Hl as [Hl _].
  apply list_elem_of_In, elem_of_replicate in Hl as [-> _]. reflexivity.
Qed.

(** A .3dl file of 17^3 equal lines: every cell holds the line, divided
    by 4096. *)
Lemma parse_3dl_loads_witness :
  exists st',
    parse_3dl (num := Q) (loader_state 0 threedl_demo) = Some (0, st') /\
    lutsize (ps_ctx st') = 17 /\
    exists line a b c,
      sscanf3 scan_int line = (3, [a; b; c]) /\
      cell (ps_ctx st') 16 0 3
      = mk_rgbvec (inject_Z a / 4096)%Q (inject_Z b / 4096)%Q
                  (inject_Z c / 4096)%Q.
Proof.
  destruct (parse_3dl_loads (num := Q) (loader_state 0 threedl_demo)
              ("3DMESH" ++ nl) (replicate (17 * 17 * 17) ("1024 2048 4096" ++ nl))
              eq_refl)
    as (st' & Hrun & Hsz & _ & Hcells).
  - apply Nat.leb_le. vm_compute. reflexivity.
  - exact threedl_demo_triples.
  - exists st'. split; [exact Hrun|]. split; [exact Hsz|].
    destruct (Hcells 16 0 3 ltac:(clear; lia) ltac:(clear; lia) ltac:(clear; lia))
      as (line & a & b & c & _ & Hscan & Hcell).
    exists line, a, b, c. split; [exact Hscan|exact Hcell].
Defined.

Lemma m3d_demo_triples :
  Forall (float_triple (num := Q))
    (take (ncells 2) (h_file (parse_m3d_header m3d_demo (-1) (-1) (0, 1, 2)))).
Proof.
  replace (take (ncells 2) (h_file (parse_m3d_header m3d_demo (-1) (-1) (0, 1, 2))))
    with (drop 3 m3d_demo) by (vm_compute; reflexivity).
  repeat (constructor; [vm_compute; reflexivity|]). constructor.
Qed.

Lemma m3d_demo_second_line :
  h_file (parse_m3d_header m3d_demo (-1) (-1) (0, 1, 2)) !! cell_index 2 0 0 1
  = Some ("255 0 0" ++ nl).
Proof. vm_compute. reflexivity. Qed.

(** A .m3d file with [values b g r]: cell (0, 0, 1), the second data line
    "255 0 0", holds blue first: (0, 0, 255) scaled by 1/255. *)
Lemma parse_m3d_loads_witness :
  exists st',
    parse_m3d (num := Q) (loader_state 0 m3d_demo) = Some (0, st') /\
    lutsize (ps_ctx st') = 2 /\
    exists v0 v1 v2,
      sscanf3 (scan_float (num := Q)) ("255 0 0" ++ nl) = (3, [v0; v1; v2]) /\
      cell (ps_ctx st') 0 0 1
      = mk_rgbvec (v2 * (1 / 255))%Q (v1 * (1 / 255))%Q (v0 * (1 / 255))%Q.
Proof.
  destruct (parse_m3d_loads (num := Q) (loader_state 0 m3d_demo) 2)
    as (st' & Hrun & Hsz & _ & Hcells).
  - vm_compute. discriminate.
  - vm_compute. discriminate.
  - vm_compute. reflexivity.
  - vm_compute. reflexivity.
  - vm_compute. discriminate.
  - apply Nat.leb_le. vm_compute. reflexivity.
  - exact m3d_demo_triples.
  - exists st'. split; [exact Hrun|]. split; [exact Hsz|].
    destruct (Hcells 0 0 1 ltac:(clear; lia) ltac:(clear; lia) ltac:(clear; lia))
      as (line & v0 & v1 & v2 & Hl & Hscan & Hcell).
    cbn [ps_file loader_state] in Hl. rewrite m3d_demo_second_line in Hl.
    injection Hl as <-.
    exists v0, v1, v2. split; [exact Hscan|exact Hcell].
Defined.

(** ** The .cube loader *)

Lemma rejects_D_Q : rejects_D (num := Q).
Proof. intros s. reflexivity. Qed.

Lemma domain_not_triple {num : Type} {FA : FloatArith num} (line : string) :
  rejects_D (num := num) ->
  strncmp_zero line "DOMAIN_" 7 = true -> ~ float_triple (num := num) line.
Proof.
  intros HD Hdom. destruct line as [|c line]; [discriminate|].
  cbn [strncmp_zero] in Hdom. apply andb_true_iff in Hdom as [Hc _].
  apply Ascii.eqb_eq in Hc. subst c.
  unfold float_triple, sscanf3. cbn [sscanf_rep skip_spaces].
  change (av_isspace "D") with false. cbn iota. rewrite HD. discriminate.
Qed.

Lemma conv_cube_Some {num : Type} {FA : FloatArith num} (line : string) :
  rejects_D (num := num) ->
  (is_Some (conv_cube (num := num) line) <-> float_triple (num := num) line).
Proof.
  intros HD. unfold conv_cube.
  destruct (strncmp_zero line "DOMAIN_" 7) eqn:Ed.
  - split; [intros [u Hu]; discriminate|].
    intros Ht. exfalso. exact (domain_not_triple line HD Ed Ht).
  - unfold float_triple. rewrite sscanf3_three. split.
    + destruct (sscanf3 scan_float line) as [n l]. intros [u Hu].
      destruct n as [|[[?|?|]|?|]|?]; try discriminate.
      destruct l as [|a [|b [|c [|d l]]]]; try discriminate. eauto.
    + intros (a & b & c & ->). eauto.
Qed.

Lemma conv_cube_inv {num : Type} {FA : FloatArith num} (line : string)
    (upd : rgbvec num -> rgbvec num) :
  conv_cube line = Some upd ->
  strncmp_zero line "DOMAIN_" 7 = false /\
  exists v0 v1 v2,
    sscanf3 scan_float line = (3, [v0; v1; v2]) /\
    upd = fun _ => mk_rgbvec (fmul v0 (fsub f_one f_zero))
                             (fmul v1 (fsub f_one f_zero))
                             (fmul v2 (fsub f_one f_zero)).
Proof.
  unfold conv_cube. destruct (strncmp_zero line "DOMAIN_" 7); [discriminate|].
  destruct (sscanf3 scan_float line) as [n l].
  destruct n as [|[[?|?|]|?|]|?]; try discriminate.
  destruct l as [|a [|b [|c [|d l]]]]; try discriminate.
  intros [= <-]. split; [reflexivity|]. eauto.
Qed.

(** At a data line that is not a [DOMAIN_] line the [do ... while] of
    [parse_cube] leaves [min] and [max] alone. *)
Lemma cube_read_line_plain {num : Type} {FA : FloatArith num}
    (f f' : FILE) (line : string) (cs : cstate num) :
  NEXT_LINE skip_line f = Some (line, f') ->
  strncmp_zero line "DOMAIN_" 7 = false ->
  cube_read_line f cs =
  Got line (mk_cstate (set_file (cs_st cs) f') (cs_min cs) (cs_max cs)).
Proof.
  revert cs. induction f as [|l f IH]; intros cs Hn Hd; [discriminate|].
  cbn [NEXT_LINE] in Hn. cbn [cube_read_line].
  destruct (skip_line l) eqn:Es.
  - assert (Ed : strncmp_zero l "DOMAIN_" 7 = false).
    { destruct (strncmp_zero l "DOMAIN_" 7) eqn:Ed; [|reflexivity].
      apply skip_line_not_domain in Ed. congruence. }
    rewrite Ed.
    rewrite (IH (mk_cstate (set_file (cs_st cs) f) (cs_min cs) (cs_max cs)) Hn Hd).
    reflexivity.
  - injection Hn as -> ->. rewrite Hd. reflexivity.
Qed.

(** While [min] and [max] are as initialised, a cell that [reader_cell]
    with [conv_cube] stores is stored alike by [parse_cube_cell]. *)
Lemma parse_cube_cell_sim {num : Type} {FA : FloatArith num}
    (k j i : Z) (st st' : pstate num) :
  reader_cell skip_line conv_cube k j i st = Some (Continue st') ->
  parse_cube_cell k j i
    (mk_cstate st (f_zero, f_zero, f_zero) (f_one, f_one, f_one))
  = Some (Continue
            (mk_cstate st' (f_zero, f_zero, f_zero) (f_one, f_one, f_one))).
Proof.
  unfold reader_cell, parse_cube_cell. cbn [cs_st].
  destruct (NEXT_LINE skip_line (ps_file st)) as [[line f']|] eqn:EN;
    [|discriminate].
  destruct (conv_cube line) as [upd|] eqn:EC; [|discriminate].
  apply conv_cube_inv in EC as (Hd & v0 & v1 & v2 & Hscan & ->).
  rewrite (cube_read_line_plain _ _ _ _ EN Hd).
  cbn [cs_st cs_min cs_max set_file ps_ctx ps_file ps_log].
  unfold lut_set, lut_at.
  destruct (in_array k && in_array j && in_array i); [|discriminate].
  cbn [mbind option_bind]. intros [= <-].
  unfold sscanf_vec. rewrite Hscan. cbn [assign3].
  cbn [Z.eqb Pos.eqb negb mbind option_bind r g b lut set_ctx ps_ctx].
  rewrite insert_insert_eq. reflexivity.
Qed.

Lemma parse_cube_loop_sim {num : Type} {FA : FloatArith num}
    (cells : list (Z * Z * Z)) (st st' : pstate num) :
  for_each cells (on_cell (reader_cell skip_line conv_cube)) st
  = Some (Continue st') ->
  for_each cells (on_cell parse_cube_cell)
    (mk_cstate st (f_zero, f_zero, f_zero) (f_one, f_one, f_one))
  = Some (Continue
            (mk_cstate st' (f_zero, f_zero, f_zero) (f_one, f_one, f_one))).
Proof.
  revert st. induction cells as [|c cells IH]; intros st Hrun.
  - injection Hrun as <-. reflexivity.
  - cbn [for_each] in *. unfold on_cell at 1 in Hrun. unfold on_cell at 1.
    destruct (reader_cell skip_line conv_cube c.1.1 c.1.2 c.2 st)
      as [[st1|ret st1]|] eqn:E; try discriminate.
    rewrite (parse_cube_cell_sim _ _ _ _ _ E). now apply IH.
Qed.

(** X4.  [parse_cube] on a file with a size line that declares at most 36,
    followed by at least size^3 data lines, the first size^3 of them three
    numbers each: it succeeds, and cell [(k, j, i)] holds data line number
    [k * size^2 + j * size + i] times [1.0 - 0.0], the initial
    [max - min].  [DOMAIN_] lines before the size line change nothing. *)
Theorem parse_cube_loads {num : Type} {FA : FloatArith num}
    (st : pstate num) (pre : FILE) (line : string) (rest : FILE) :
  rejects_D (num := num) ->
  ps_file st = (pre ++ line :: rest)%list ->
  Forall (fun l => is_size_line l = false) pre ->
  is_size_line line = true ->
  let size := declared_size line in
  let dl := data_lines skip_line rest in
  size <= MAX_LEVEL ->
  (ncells size <= length dl)%nat ->
  Forall (float_triple (num := num)) (take (ncells size) dl) ->
  exists st',
    parse_cube st = Some (0, st') /\
    lutsize (ps_ctx st') = size /\
    ps_log st' = ps_log st /\
    forall k j i, 0 <= k < size -> 0 <= j < size -> 0 <= i < size ->
      exists l v0 v1 v2,
        dl !! cell_index size k j i = Some l /\
        sscanf3 scan_float l = (3, [v0; v1; v2]) /\
        cell (ps_ctx st') k j i
        = mk_rgbvec (fmul v0 (fsub f_one f_zero)) (fmul v1 (fsub f_one f_zero))
                    (fmul v2 (fsub f_one f_zero)).
Proof.
  intros HD Hf Hpre Hline size dl Hfit Hlen Hok.
  set (st1 := mk_pstate (set_lutsize (ps_ctx st) size) rest (ps_log st)).
  destruct (reader_outcome skip_line conv_cube size st1 Hfit)
    as (ret & st' & Hrun & Hsz & Hout).
  cbn [st1 ps_file ps_log ps_ctx set_lutsize lutsize] in Hout, Hsz.
  fold dl in Hout.
  assert (ret = 0) as ->.
  { apply (load_outcome_success _ _ _ _ _ _ Hout). split; [exact Hlen|].
    eapply Forall_impl; [exact Hok|]. intros l Hl. now apply conv_cube_Some. }
  exists st'. split.
  - unfold parse_cube. rewrite Hf.
    rewrite parse_cube_scan_skip by exact Hpre.
    cbn [parse_cube_scan]. unfold is_size_line in Hline. rewrite Hline.
    fold (declared_size line). fold size.
    replace (MAX_LEVEL <? size) with false
      by (symmetry; apply Z.ltb_ge; exact Hfit).
    fold st1. rewrite for_kji_cells in Hrun. rewrite for_kji_cells.
    destruct (for_each (cell_list size) (on_cell (reader_cell _ _)) st1)
      as [[st2|r st2]|] eqn:E; try discriminate.
    + injection Hrun as ->. now rewrite (parse_cube_loop_sim _ _ _ E).
    + cbn [returned] in Hrun. injection Hrun as -> ->.
      destruct (reader_loop skip_line conv_cube (cell_list size) st1
                  (cell_list_in_array size Hfit)) as (fl & Hfl & Hres).
      rewrite E in Hfl. injection Hfl as <-. destruct Hres as [Hret _].
      discriminate.
  - split; [exact Hsz|]. split; [exact (load_outcome_zero _ _ _ _ _ Hout)|].
    intros k j i Hk Hj Hi.
    destruct (reader_grid skip_line conv_cube size st1 st' k j i Hfit Hrun Hk Hj Hi)
      as (l & upd & Hl & Hu & Hcell).
    apply conv_cube_inv in Hu as (_ & v0 & v1 & v2 & Hscan & ->).
    exists l, v0, v1, v2. split; [exact Hl|]. split; [exact Hscan|exact Hcell].
Qed.

Lemma cube_demo_triples :
  Forall (float_triple (num := Q))
    (take (ncells (declared_size ("LUT_3D_SIZE 2" ++ nl)))
       (data_lines skip_line (drop 3 cube_demo))).
Proof.
  replace (take (ncells (declared_size ("LUT_3D_SIZE 2" ++ nl)))
             (data_lines skip_line (drop 3 cube_demo)))
    with (drop 3 cube_demo) by (vm_compute; reflexivity).
  repeat (constructor; [vm_compute; reflexivity|]). constructor.
Qed.

(** A .cube file of size 2 with [DOMAIN_MAX 2 2 2] before the size line:
    cell (1, 0, 1) holds its data line "1 0 1" unscaled. *)
Lemma parse_cube_loads_witness :
  exists st',
    parse_cube (num := Q) (loader_state 0 cube_demo) = Some (0, st') /\
    lutsize (ps_ctx st') = 2 /\
    rgb_eq (cell (ps_ctx st') 1 0 1) (mk_rgbvec 1 0 1)%Q.
Proof.
  destruct (parse_cube_loads (num := Q) (loader_state 0 cube_demo)
              (take 2 cube_demo) ("LUT_3D_SIZE 2" ++ nl) (drop 3 cube_demo)
              rejects_D_Q eq_refl)
    as (st' & Hrun & Hsz & _ & Hcells).
  - repeat constructor.
  - reflexivity.
  - vm_compute. discriminate.
  - apply Nat.leb_le. vm_compute. reflexivity.
  - exact cube_demo_triples.
  - exists st'. split; [exact Hrun|]. split; [exact Hsz|].
    destruct (Hcells 1 0 1 ltac:(clear; vm_compute; split; congruence)
                ltac:(clear; vm_compute; split; congruence)
                ltac:(clear; vm_compute; split; congruence))
      as (l & v0 & v1 & v2 & Hl & Hscan & Hcell).
    vm_compute in Hl. injection Hl as <-.
    vm_compute in Hscan. injection Hscan as <- <- <-.
    rewrite Hcell. vm_compute. repeat split; reflexivity.
Defined.

(** X5.  A [DOMAIN_] line among the data lines a .cube file needs makes the
    load fail with [AVERROR_INVALIDDATA]: the [continue] that follows it
    goes to the loop test, which finds the line neither blank nor a
    comment, and the line is then scanned as a sample. *)
Theorem cube_domain_line_fails {num : Type} {FA : FloatArith num}
    (fopen : string -> FILE + Z) (lut3d : LUT3DContext num) (path : string)
    (pre : FILE) (line : string) (rest : FILE) (n : nat) (l : string) :
  rejects_D (num := num) ->
  file lut3d = Some path ->
  fopen path = inl (pre ++ line :: rest)%list ->
  ext_is path "cube" ->
  Forall (fun l => is_size_line l = false) pre ->
  is_size_line line = true -> declared_size line <= MAX_LEVEL ->
  data_lines skip_line rest !! n = Some l ->
  (n < ncells (declared_size line))%nat ->
  strncmp_zero l "DOMAIN_" 7 = true ->
  exists st', init fopen lut3d = Some (AVERROR_INVALIDDATA, st').
Proof.
  intros HD Hfile Hopen Hext Hpre Hline Hfit Hl Hn Hdom.
  rewrite (init_cube fopen lut3d path _ Hfile Hopen Hext).
  destruct (parse_cube_outcome (mk_pstate lut3d (pre ++ line :: rest)%list [])
              pre line rest eq_refl Hpre Hline Hfit)
    as (ret & st' & -> & _ & Hout).
  assert (ret = AVERROR_INVALIDDATA) as ->.
  { eapply load_outcome_bad; [exact Hout|exact Hn|exact Hl|].
    intros [_ Hok]. exact (domain_not_triple l HD Hdom Hok). }
  exists st'. now rewrite init_finish_error by discriminate.
Qed.

(** The size-2 file with its [DOMAIN_MAX] line moved after the size
    line. *)
Lemma cube_domain_line_fails_witness :
  exists st',
    init (num := Q) (fun _ => inl cube_domain_demo)
      (context_with_file (Some "lut.cube"))
    = Some (AVERROR_INVALIDDATA, st').
Proof.
  apply (cube_domain_line_fails (num := Q) (fun _ => inl cube_domain_demo)
           (context_with_file (Some "lut.cube")) "lut.cube"
           [] ("LUT_3D_SIZE 2" ++ nl) (drop 1 cube_domain_demo)
           0%nat ("DOMAIN_MAX 2 2 2" ++ nl) rejects_D_Q eq_refl eq_refl).
  - exists "cube". split; reflexivity.
  - constructor.
  - reflexivity.
  - vm_compute. discriminate.
  - reflexivity.
  - apply Nat.ltb_lt. vm_compute. reflexivity.
  - reflexivity.
Defined.

(** ** The grid indices of 8-bit samples, in binary32 *)

Lemma all_from_spec (n : nat) (c : Z) (p : Z -> bool) :
  all_from n c p = true ->
  forall z, c <= z < c + Z.of_nat n -> p z = true.
Proof.
  revert c. induction n as [|n IH]; intros c H z Hz; [lia|].
  cbn [all_from] in H. apply andb_true_iff in H as [Hc Hn].
  destruct (decide (z = c)) as [->|Hne]; [exact Hc|].
  apply (IH (c + 1) Hn). lia.
Qed.

(** Every grid size the array allows, every 8-bit value: 36 x 256 runs of
    the scaling, [PREV] and [NEAR] in binary32. *)
Lemma index_sweep :
  all_from 36 1 (fun size => all_from 256 0 (index_check size)) = true.
Proof. vm_compute. reflexivity. Qed.

Lemma nearest_index_range (nbits size c : Z) :
  0 < max_value nbits -> 1 <= size -> 0 <= c <= max_value nbits ->
  0 <= nearest_index nbits size c <= size - 1.
Proof.
  intros Hm Hs Hc. unfold nearest_index. split.
  - apply Z.div_pos; nia.
  - assert ((2 * c * (size - 1) + max_value nbits) / (2 * max_value nbits) < size);
      [|lia].
    apply Z.div_lt_upper_bound; nia.
Qed.

(** [PREV], [NEXT] and [NEAR] of the coordinate an 8-bit channel value is
    scaled to, as binary32 computes them. *)
Lemma scaled_indices_8bit (lut3d : LUT3DContext spec_float) (c : Z) :
  1 <= lutsize lut3d <= MAX_LEVEL -> 0 <= c <= 255 ->
  exists (x : spec_float) (p : Z),
    interp_scale 8 lut3d = Some x /\
    PREV (fmul (int_to_float c) x) = Some p /\
    0 <= p <= lutsize lut3d - 1 /\
    NEXT (fmul (int_to_float c) x) = Some (p + 1) /\
    NEAR (fmul (int_to_float c) x) = Some (nearest_index 8 (lutsize lut3d) c).
Proof.
  intros Hsize Hc.
  pose proof (all_from_spec _ _ _ index_sweep (lutsize lut3d)) as H.
  cbv beta in H. unfold MAX_LEVEL in Hsize.
  specialize (H ltac:(lia)).
  pose proof (all_from_spec _ _ _ H c ltac:(lia)) as Hi. clear H.
  unfold index_check, interp_scale in Hi. cbn [set_lutsize lutsize] in Hi.
  unfold interp_scale.
  destruct (as_int (lutsize lut3d - 1)) as [size1|]; [|discriminate].
  cbn [mbind option_bind] in Hi |- *. cbv zeta in Hi.
  match goal with |- exists x p, Some ?s = Some x /\ _ => exists s end.
  unfold NEXT, PREV in *.
  destruct (to_int (fmul (int_to_float c) _)) as [p|] eqn:Ep; [|discriminate].
  destruct (NEAR _) as [n|] eqn:En; [|discriminate].
  apply andb_true_iff in Hi as [Hi Hn]. apply andb_true_iff in Hi as [H0 H1].
  apply Z.leb_le in H0, H1. apply Z.eqb_eq in Hn.
  exists p. split; [reflexivity|]. split; [reflexivity|]. split; [lia|].
  split; [|now rewrite Hn].
  cbn [mbind option_bind]. apply as_int_Some. unfold INT_MIN, INT_MAX. lia.
Qed.

(** X6.  Nearest-neighbour lookup of an 8-bit pixel never leaves the grid,
    as binary32 computes it: for every grid size the array allows and
    every 8-bit channel value it returns the sample stored at the indices
    [(2 c (size - 1) + 255) / (2 * 255)], each of them at most
    [size - 1]. *)
Theorem nearest_stays_in_grid (lut3d : LUT3DContext spec_float)
    (cr cg cb : Z) :
  1 <= lutsize lut3d <= MAX_LEVEL ->
  0 <= cr <= 255 -> 0 <= cg <= 255 -> 0 <= cb <= 255 ->
  let idx := nearest_index 8 (lutsize lut3d) in
  interp_func 8 INTERPOLATE_NEAREST lut3d cr cg cb
  = Some (cell lut3d (idx cr) (idx cg) (idx cb)) /\
  0 <= idx cr <= lutsize lut3d - 1 /\
  0 <= idx cg <= lutsize lut3d - 1 /\
  0 <= idx cb <= lutsize lut3d - 1.
Proof.
  intros Hsize Hr Hg Hb idx. subst idx.
  assert (Hm : 0 < max_value 8) by reflexivity.
  change 255 with (max_value 8) in Hr, Hg, Hb.
  pose proof (nearest_index_range 8 _ cr Hm (proj1 Hsize) Hr) as Ir.
  pose proof (nearest_index_range 8 _ cg Hm (proj1 Hsize) Hg) as Ig.
  pose proof (nearest_index_range 8 _ cb Hm (proj1 Hsize) Hb) as Ib.
  change (max_value 8) with 255 in Hr, Hg, Hb.
  split; [|auto].
  destruct (scaled_indices_8bit lut3d cr Hsize Hr) as (x & ? & Hx & _ & _ & _ & Ar).
  destruct (scaled_indices_8bit lut3d cg Hsize Hg) as (x' & ? & Hx' & _ & _ & _ & Ag).
  destruct (scaled_indices_8bit lut3d cb Hsize Hb) as (x'' & ? & Hx'' & _ & _ & _ & Ab).
  assert (x' = x) by congruence. assert (x'' = x) by congruence. subst x' x''.
  unfold interp_func, scaled_rgb. rewrite Hx. cbn [mbind option_bind].
  cbn [interp_by_name]. unfold interp_nearest. cbn [r g b].
  rewrite Ar, Ag, Ab. cbn [mbind option_bind].
  apply lut_at_cell; unfold MAX_LEVEL in *; lia.
Qed.

(** An 8-bit pixel in a grid of the largest size: 255 goes to the last
    vertex, 128 to vertex 18 (35 * 128 / 255 = 17.57) and 0 to the first. *)
Lemma nearest_stays_in_grid_witness :
  interp_func 8 INTERPOLATE_NEAREST (set_lutsize white_grid 36) 255 128 0
  = Some (cell (set_lutsize white_grid 36) 35 18 0).
Proof.
  apply (nearest_stays_in_grid (set_lutsize white_grid 36) 255 128 0);
    vm_compute; split; congruence.
Defined.

(** X7.  Up to size 35 no 8-bit pixel makes an interpolation leave the
    array, as binary32 computes the indices: [PREV] is at most [size - 1]
    and [NEXT] at most [size], which the array still holds. *)
Theorem interp_defined_below_last_size (lut3d : LUT3DContext spec_float)
    (name : interp_mode) (cr cg cb : Z) :
  1 <= lutsize lut3d <= MAX_LEVEL - 1 ->
  0 <= cr <= 255 -> 0 <= cg <= 255 -> 0 <= cb <= 255 ->
  is_Some (interp_func 8 name lut3d cr cg cb).
Proof.
  intros Hsize Hr Hg Hb.
  assert (Hsize' : 1 <= lutsize lut3d <= MAX_LEVEL) by (unfold MAX_LEVEL in *; lia).
  assert (Hm : 0 < max_value 8) by reflexivity.
  change 255 with (max_value 8) in Hr, Hg, Hb.
  pose proof (nearest_index_range 8 _ cr Hm (proj1 Hsize) Hr) as Ir.
  pose proof (nearest_index_range 8 _ cg Hm (proj1 Hsize) Hg) as Ig.
  pose proof (nearest_index_range 8 _ cb Hm (proj1 Hsize) Hb) as Ib.
  change (max_value 8) with 255 in Hr, Hg, Hb.
  destruct (scaled_indices_8bit lut3d cr Hsize' Hr)
    as (x & pr & Hx & Pr & Fr & Nr & Ar).
  destruct (scaled_indices_8bit lut3d cg Hsize' Hg)
    as (x' & pg & Hx' & Pg & Fg & Ng & Ag).
  destruct (scaled_indices_8bit lut3d cb Hsize' Hb)
    as (x'' & pb & Hx'' & Pb & Fb & Nb & Ab).
  assert (x' = x) by congruence. assert (x'' = x) by congruence. subst x' x''.
  unfold interp_func, scaled_rgb. rewrite Hx. cbn [mbind option_bind].
  destruct name; cbn [interp_by_name];
    unfold interp_nearest, interp_trilinear, interp_tetrahedral, remainder;
    cbn [r g b];
    rewrite ?Pr, ?Pg, ?Pb, ?Nr, ?Ng, ?Nb, ?Ar, ?Ag, ?Ab;
    cbn [mbind option_bind];
    rewrite !lut_at_cell by (unfold MAX_LEVEL in *; lia);
    cbn [mbind option_bind]; eauto.
Qed.

(** The white pixel in a grid of size 35, trilinear. *)
Lemma interp_defined_below_last_size_witness :
  is_Some (interp_func 8 INTERPOLATE_TRILINEAR (set_lutsize white_grid 35)
             255 255 255).
Proof.
  apply (interp_defined_below_last_size (set_lutsize white_grid 35)
           INTERPOLATE_TRILINEAR 255 255 255);
    vm_compute; split; congruence.
Defined.

(** ** Interpolation in binary32: one cell, and the identity grid *)

(** The interpolation reads the context through [lut] and [lutsize]
    only. *)
Lemma interp_func_lut {num : Type} {FA : FloatArith num} (nbits : Z)
    (name : interp_mode) (a a' : LUT3DContext num) (cr cg cb : Z) :
  lut a = lut a' -> lutsize a = lutsize a' ->
  interp_func nbits name a cr cg cb = interp_func nbits name a' cr cg cb.
Proof.
  intros Hl Hs. unfold interp_func, scaled_rgb, interp_scale. rewrite Hs.
  destruct (as_int (lutsize a' - 1)); [|reflexivity].
  cbn [mbind option_bind].
  destruct name; cbn [interp_by_name];
    unfold interp_nearest, interp_trilinear, interp_tetrahedral, lut_at;
    rewrite Hl; reflexivity.
Qed.

(** X8.  The tetrahedral blend of equal corners is not always their common
    value in binary32.  In a grid of size 2 whose eight samples are all
    (1, 1, 1), the 8-bit pixel (0, 17, 51) has the remainder
    (0, 17/255, 51/255) as floats; its four weights add up to 1 - 2^-24,
    so tetrahedral interpolation returns 1 - 2^-24 in each channel, which
    [filter_frame] stores as 254, while trilinear interpolation returns
    exactly 1, stored as 255. *)
Theorem tetrahedral_below_corners_in_binary32 (lut3d : LUT3DContext spec_float) :
  lutsize lut3d = 2 ->
  Forall (fun o => corner lut3d 0 0 0 o = mk_rgbvec f_one f_one f_one)
         cube_corners ->
  let low := S754_finite false 16777215 (-24) in
  interp_func 8 INTERPOLATE_TETRAHEDRAL lut3d 0 17 51
  = Some (mk_rgbvec low low low) /\
  to_int (fmul low (int_to_float 255)) = Some 254 /\
  interp_func 8 INTERPOLATE_TRILINEAR lut3d 0 17 51
  = Some (mk_rgbvec f_one f_one f_one) /\
  to_int (fmul f_one (int_to_float 255)) = Some 255.
Proof.
  intros Hsize Hc low.
  repeat (apply Forall_cons in Hc as [? Hc]).
  unfold corner in *. cbn [fst snd] in *.
  change (0 + 0) with 0 in *. change (0 + 1) with 1 in *.
  assert (Hs : scaled_rgb 8 lut3d 0 17 51 = Some demo_coord).
  { rewrite (scaled_rgb_lutsize 8 lut3d white_grid) by exact Hsize.
    vm_compute. reflexivity. }
  assert (Hd : remainder demo_coord = Some demo_remainder)
    by (vm_compute; reflexivity).
  assert (P0 : PREV (r demo_coord) = Some 0) by (vm_compute; reflexivity).
  assert (P1 : PREV (g demo_coord) = Some 0) by (vm_compute; reflexivity).
  assert (P2 : PREV (b demo_coord) = Some 0) by (vm_compute; reflexivity).
  assert (N0 : NEXT (r demo_coord) = Some 1) by (vm_compute; reflexivity).
  assert (N1 : NEXT (g demo_coord) = Some 1) by (vm_compute; reflexivity).
  assert (N2 : NEXT (b demo_coord) = Some 1) by (vm_compute; reflexivity).
  unfold interp_func. rewrite Hs. cbn [mbind option_bind interp_by_name].
  unfold interp_tetrahedral, interp_trilinear.
  rewrite Hd, P0, P1, P2, N0, N1, N2. cbn [mbind option_bind].
  rewrite !lut_at_cell by (unfold MAX_LEVEL; lia).
  cbn [mbind option_bind].
  repeat match goal with H : cell lut3d _ _ _ = _ |- _ => rewrite H; clear H end.
  repeat split; vm_compute; reflexivity.
Qed.

(** The grid [white_grid] is such a grid. *)
Lemma tetrahedral_below_corners_in_binary32_witness :
  interp_func 8 INTERPOLATE_TETRAHEDRAL white_grid 0 17 51
  = Some (mk_rgbvec (S754_finite false 16777215 (-24))
                    (S754_finite false 16777215 (-24))
                    (S754_finite false 16777215 (-24))).
Proof.
  apply (tetrahedral_below_corners_in_binary32 white_grid);
    [reflexivity | repeat constructor].
Defined.

(** The array [set_identity_matrix] leaves depends on the array it starts
    from only. *)
Lemma set_identity_matrix_lut {num : Type} {FA : FloatArith num}
    (a a' : LUT3DContext num) (size : Z) :
  INT_MIN < size <= MAX_LEVEL -> lut a = lut a' ->
  exists l l',
    set_identity_matrix a size = Some l /\
    set_identity_matrix a' size = Some l' /\
    lut l = lut l' /\ lutsize l = size /\ lutsize l' = size.
Proof.
  intros [Hlo Hhi] Hl. unfold set_identity_matrix.
  rewrite as_int_Some by (unfold INT_MIN, INT_MAX, MAX_LEVEL in *; lia).
  cbn [mbind option_bind].
  set (c := double_to_float (ddiv (int_to_double 1) (int_to_double (size - 1)))).
  rewrite !for_kji_cells.
  set (f := fun x : Z * Z * Z =>
              mk_rgbvec (fmul (int_to_float x.1.1) c)
                        (fmul (int_to_float x.1.2) c)
                        (fmul (int_to_float x.2) c)).
  destruct (store_loop f (cell_list size) (set_lutsize a size)
              (cell_list_in_array size Hhi)) as (l & Hloop & Hsz & Hlut).
  destruct (store_loop f (cell_list size) (set_lutsize a' size)
              (cell_list_in_array size Hhi)) as (l' & Hloop' & Hsz' & Hlut').
  unfold on_cell, set_identity_cell. subst f. cbv beta in Hloop, Hloop'.
  rewrite Hloop, Hloop'. exists l, l'.
  split; [reflexivity|]. split; [reflexivity|].
  split; [|split; assumption].
  apply map_eq. intros x. rewrite Hlut, Hlut'.
  cbn [set_lutsize lut]. now rewrite Hl.
Qed.

(** The 256 greys through the default grid, trilinear and tetrahedral, in
    binary32. *)
Lemma grey_sweep :
  all_from 256 0
    (fun v => grey_ok default_grid INTERPOLATE_TRILINEAR v
              && grey_ok default_grid INTERPOLATE_TETRAHEDRAL v) = true.
Proof. vm_compute. reflexivity. Qed.

(** X9.  The default LUT in binary32, on greys.  Without a file, in a
    context whose array is still zero-filled as the framework allocates
    it, [init] builds a grid through which trilinear and tetrahedral
    interpolation send every 8-bit grey (v, v, v) to a grey again:
    [filter_frame] stores v or v - 1 in each of the three channels. *)
Theorem identity_lut_greys_in_binary32 (fopen : string -> FILE + Z)
    (lut3d : LUT3DContext spec_float) (name : interp_mode) (v : Z) :
  file lut3d = None -> lut lut3d = ∅ ->
  name <> INTERPOLATE_NEAREST -> 0 <= v <= 255 ->
  exists st vec out,
    init fopen lut3d = Some (0, st) /\
    interp_func 8 name (ps_ctx st) v v v = Some vec /\
    to_int (fmul (r vec) (int_to_float 255)) = Some out /\
    to_int (fmul (g vec) (int_to_float 255)) = Some out /\
    to_int (fmul (b vec) (int_to_float 255)) = Some out /\
    (out = v \/ out = v - 1).
Proof.
  intros Hfile Hlut Hname Hv. unfold init. rewrite Hfile.
  destruct (set_identity_matrix_lut lut3d zero_context 32)
    as (l & l' & -> & Hl' & Hll & Hs & Hs').
  { unfold INT_MIN, MAX_LEVEL. lia. }
  { exact Hlut. }
  assert (Hd : l' = default_grid).
  { unfold default_grid. now rewrite Hl'. }
  subst l'. cbn [mbind option_bind]. exists (mk_pstate l [] []).
  cbn [ps_ctx].
  rewrite (interp_func_lut 8 name l default_grid) by congruence.
  pose proof (all_from_spec _ _ _ grey_sweep v ltac:(lia)) as H.
  cbv beta in H. apply andb_true_iff in H as [Htri Htet].
  assert (Hok : grey_ok default_grid name v = true)
    by (destruct name; [congruence | assumption | assumption]).
  unfold grey_ok, grey_out in Hok.
  destruct (interp_func 8 name default_grid v v v) as [vec|] eqn:Ev;
    [|discriminate].
  cbn [mbind option_bind] in Hok.
  destruct (to_int (fmul (r vec) _)) as [x|] eqn:Ex; [|discriminate].
  cbn [mbind option_bind] in Hok.
  destruct (to_int (fmul (g vec) _)) as [y|] eqn:Ey; [|discriminate].
  cbn [mbind option_bind] in Hok.
  destruct (to_int (fmul (b vec) _)) as [z|] eqn:Ez; [|discriminate].
  cbn [mbind option_bind] in Hok.
  apply andb_true_iff in Hok as [Hok Hr]. apply andb_true_iff in Hok as [Hxy Hyz].
  apply Z.eqb_eq in Hxy, Hyz. subst y z.
  apply orb_true_iff in Hr. rewrite !Z.eqb_eq in Hr.
  exists vec, x. auto 10.
Qed.

(** The context as allocated, tetrahedral, the grey 200. *)
Lemma identity_lut_greys_in_binary32_witness :
  exists st vec out,
    init (fun _ => inr 2) (zero_context (num := spec_float)) = Some (0, st) /\
    interp_func 8 INTERPOLATE_TETRAHEDRAL (ps_ctx st) 200 200 200 = Some vec /\
    to_int (fmul (r vec) (int_to_float 255)) = Some out /\
    to_int (fmul (g vec) (int_to_float 255)) = Some out /\
    to_int (fmul (b vec) (int_to_float 255)) = Some out /\
    (out = 200 \/ out = 200 - 1).
Proof.
  apply (identity_lut_greys_in_binary32 (fun _ => inr 2) zero_context
           INTERPOLATE_TETRAHEDRAL 200);
    [reflexivity | reflexivity | discriminate | lia].
Defined.


(** ** [init] and the loaders, further *)

(** X10.  When [init] reports success the grid is not empty: the identity grid
    has size 32, and a loader that returns 0 with size 0 is turned into an
    error.  ([fopen] fails with a non-zero [errno].) *)
Theorem init_success_nonempty {num : Type} {FA : FloatArith num}
    (fopen : string -> FILE + Z) (lut3d : LUT3DContext num)
    (st : pstate num) :
  (forall path errno, fopen path = inr errno -> errno <> 0) ->
  init fopen lut3d = Some (0, st) ->
  lutsize (ps_ctx st) <> 0.
Proof.
  intros Herrno. unfold init. destruct (file lut3d) as [path|].
  - destruct (fopen path) as [f|errno] eqn:Eopen.
    + destruct (strrchr path ".") as [dot_ext|]; [|discriminate].
      match goal with |- context [mbind _ ?e] => destruct e as [[ret st1]|] end;
        [|discriminate].
      cbn [mbind option_bind].
      destruct ((ret =? 0) && (lutsize (ps_ctx st1) =? 0)) eqn:Ec;
        [discriminate|].
      intros [= -> <-]. cbn [Z.eqb andb] in Ec. now apply Z.eqb_neq.
    + intros [= Hret _]. exfalso. apply (Herrno path errno Eopen).
      unfold AVERROR in Hret. lia.
  - destruct (set_identity_matrix_cells lut3d 32) as (l & -> & Hsz & _).
    { unfold INT_MIN, MAX_LEVEL. lia. }
    cbn [mbind option_bind]. intros [= <-]. cbn [ps_ctx]. rewrite Hsz. lia.
Qed.

(** The .cube file of size 2. *)
Lemma init_success_nonempty_witness :
  exists st,
    init (num := Q) (fun _ => inl cube_demo) (context_with_file (Some "lut.cube"))
    = Some (0, st) /\
    lutsize (ps_ctx st) <> 0.
Proof.
  destruct (init (num := Q) (fun _ => inl cube_demo)
              (context_with_file (Some "lut.cube"))) as [[ret st]|] eqn:E;
    [|vm_compute in E; discriminate].
  assert (Hret : ret = 0).
  { vm_compute in E. injection E as <- _. reflexivity. }
  subst ret. exists st. split; [reflexivity|].
  apply (init_success_nonempty (fun _ => inl cube_demo)
           (context_with_file (Some "lut.cube")) st); [|exact E].
  intros path errno Hopen. discriminate Hopen.
Defined.



Lemma parse_m3d_header_no_values (f : FILE) (in_ out : Z) (m : Z * Z * Z) :
  Forall (fun l => strncmp_zero l "values" 6 = false) f ->
  h_file (parse_m3d_header f in_ out m) = [].
Proof.
  intros Hf. revert in_ out. induction Hf as [|l f Hl Hf IH]; intros in_ out.
  - reflexivity.
  - cbn [parse_m3d_header]. rewrite Hl.
    destruct (strncmp_zero l "in" 2); [apply IH|].
    destruct (strncmp_zero l "out" 3); apply IH.
Qed.

Lemma m3d_size_loop_ge (fuel : nat) (size in_ s : Z) :
  m3d_size_loop fuel size in_ = Some s -> size <= s.
Proof.
  revert size. induction fuel as [|fuel IH]; intros size; [discriminate|].
  cbn [m3d_size_loop].
  destruct (as_int (size * size)) as [sq|]; [|discriminate].
  cbn [mbind option_bind].
  destruct (as_int (sq * size)) as [cube|]; [|discriminate].
  cbn [mbind option_bind].
  destruct (cube <? in_).
  - destruct (as_int (size + 1)) as [size'|] eqn:E; [|discriminate].
    cbn [mbind option_bind]. intros H. apply IH in H.
    apply as_int_inv in E. lia.
  - intros [= <-]. lia.
Qed.

Lemma cell_list_first (size : Z) :
  1 <= size -> exists rest, cell_list size = (0, 0, 0) :: rest.
Proof.
  intros Hs. unfold cell_list. rewrite (seqZ_cons 0 size) by lia.
  csimpl. eexists. reflexivity.
Qed.

(** X12.  A .m3d file without a [values] line never loads: the header loop
    ends only at such a line, so it reads the whole file, the data lines
    with it, and the first sample finds the file at its end. *)
Theorem m3d_without_values_rejected {num : Type} {FA : FloatArith num}
    (fopen : string -> FILE + Z) (lut3d : LUT3DContext num) (path : string)
    (f : FILE) (ret : Z) (st : pstate num) :
  file lut3d = Some path ->
  fopen path = inl f ->
  ext_is path "m3d" ->
  Forall (fun l => strncmp_zero l "values" 6 = false) f ->
  init fopen lut3d = Some (ret, st) ->
  ret = AVERROR_INVALIDDATA /\ ps_file st = [] /\
  (ps_log st = [in_out_entry] \/ ps_log st = [eof_entry]).
Proof.
  intros Hfile Hopen Hext Hf.
  rewrite (init_m3d fopen lut3d path _ Hfile Hopen Hext).
  unfold parse_m3d. cbn [ps_file].
  pose proof (parse_m3d_header_no_values f (-1) (-1) (0, 1, 2) Hf) as Hrest.
  destruct (parse_m3d_header f (-1) (-1) (0, 1, 2)) as [hin hout hmap hfile].
  cbn [h_file h_in h_out h_rgb_map] in *. subst hfile. cbv zeta.
  destruct ((hin =? -1) || (hout =? -1)).
  - rewrite init_finish_error by discriminate.
    intros [= <- <-]. auto.
  - destruct (m3d_size hin) as [size|] eqn:Esize; [|discriminate].
    cbn [mbind option_bind].
    destruct (as_int (hout - 1)) as [out1|]; [|discriminate].
    cbn [mbind option_bind].
    apply m3d_size_loop_ge in Esize.
    destruct (cell_list_first size Esize) as (rest & Hcells).
    rewrite for_kji_cells, Hcells. cbn [for_each].
    unfold on_cell at 1, parse_m3d_cell at 1.
    cbn [set_ctx set_file ps_file ps_ctx ps_log NEXT_LINE returned fst snd].
    rewrite init_finish_error by discriminate.
    intros [= <- <-]. auto.
Qed.

Lemma m3d_without_values_rejected_witness :
  exists st,
    init (num := Q) (fun _ => inl m3d_novalues_demo)
      (context_with_file (Some "lut.m3d"))
    = Some (AVERROR_INVALIDDATA, st) /\
    ps_file st = [] /\
    (ps_log st = [in_out_entry] \/ ps_log st = [eof_entry]).
Proof.
  destruct (init (num := Q) (fun _ => inl m3d_novalues_demo)
              (context_with_file (Some "lut.m3d"))) as [[ret st]|] eqn:E;
    [|vm_compute in E; discriminate].
  destruct (m3d_without_values_rejected (fun _ => inl m3d_novalues_demo)
              (context_with_file (Some "lut.m3d")) "lut.m3d" m3d_novalues_demo
              ret st eq_refl eq_refl) as (-> & Hfile & Hlog).
  - exists "m3d". split; reflexivity.
  - apply (bool_decide_unpack _). vm_compute. reflexivity.
  - exact E.
  - exists st. auto.
Defined.

(** ** [config_input] and [filter_frame], further *)

(** X13.  After [config_input] the function pointer that [filter_frame] calls is
    set, to the strategy of the [interp] option; the grid is untouched. *)
Theorem config_input_sets_called_pointer {num : Type} {FA : FloatArith num}
    (fmt16 : bool) (fmt_map : Z * Z * Z * Z) (padded_bits : Z)
    (lut3d : LUT3DContext num) :
  let lut3d' := config_input fmt16 fmt_map padded_bits lut3d in
  (if frame_bits lut3d' =? 16 then interp_16 lut3d' else interp_8 lut3d')
  = Some (interpolation lut3d) /\
  step lut3d' = Z.shiftr padded_bits (if frame_bits lut3d' =? 16 then 4 else 3) /\
  lut lut3d' = lut lut3d /\ lutsize lut3d' = lutsize lut3d.
Proof.
  unfold frame_bits. cbn [config_input is16bit interp_8 interp_16 step lut lutsize].
  destruct fmt16, (is16bit lut3d); repeat split; reflexivity.
Qed.

(** X14.  [config_input] sets [is16bit] and never clears it: a context that was
    configured for a 16-bit format and is configured again for an 8-bit
    one still filters 16-bit samples, with the step of a 16-bit format. *)
Theorem config_input_16bit_sticky {num : Type} {FA : FloatArith num}
    (map1 map2 : Z * Z * Z * Z) (bits1 bits2 : Z) (lut3d : LUT3DContext num) :
  let lut3d' :=
    config_input false map2 bits2 (config_input true map1 bits1 lut3d) in
  is16bit lut3d' = true /\ frame_bits lut3d' = 16 /\
  step lut3d' = Z.shiftr bits2 4 /\
  interp_16 lut3d' = Some (interpolation lut3d) /\
  interp_8 lut3d' = interp_8 lut3d.
Proof. repeat split; reflexivity. Qed.

Lemma filter_pixel_length {num : Type} {FA : FloatArith num} (nbits : Z)
    (lut3d : LUT3DContext num) (direct : bool) (src dst dst' : list Z)
    (x : Z) :
  filter_pixel nbits lut3d direct src dst x = Some dst' ->
  length dst' = length dst.
Proof.
  unfold filter_pixel. destruct (rgba_map lut3d) as [[[cr cg] cb] ca].
  intros Hm.
  repeat (cbn [mbind option_bind] in Hm;
          match type of Hm with
          | mbind _ ?e = Some _ => destruct e eqn:?; [|discriminate]
          end).
  cbn [mbind option_bind] in Hm. cbv zeta in *.
  destruct (negb direct && (step lut3d =? 4)).
  - repeat (cbn [mbind option_bind] in Hm;
            match type of Hm with
            | mbind _ ?e = Some _ => destruct e eqn:?; [|discriminate]
            end).
    cbn [mbind option_bind] in Hm.
    repeat match goal with
           | H : sample_set _ _ _ = Some _ |- _ =>
               apply sample_set_spec in H as (_ & ? & _ & _)
           end.
    congruence.
  - injection Hm as <-.
    repeat match goal with
           | H : sample_set _ _ _ = Some _ |- _ =>
               apply sample_set_spec in H as (_ & ? & _ & _)
           end.
    congruence.
Qed.

Lemma filter_pixel_outside {num : Type} {FA : FloatArith num} (nbits : Z)
    (lut3d : LUT3DContext num) (direct : bool) (src dst dst' : list Z)
    (x y : Z) :
  valid_layout lut3d ->
  filter_pixel nbits lut3d direct src dst x = Some dst' ->
  y < x \/ x + step lut3d <= y ->
  sample_at dst' y = sample_at dst y.
Proof.
  intros Hlay Hrun Hy.
  pose proof (filter_pixel_spec nbits lut3d direct src dst dst' x Hlay Hrun) as H.
  destruct (rgba_map lut3d) as [[[cr cg] cb] ca].
  destruct H as (vr & vg & vb & _ & _ & _ & _ & Hout & _).
  replace y with (x + (y - x)) by lia. apply Hout. lia.
Qed.

Lemma valid_layout_step {num : Type} {FA : FloatArith num}
    (lut3d : LUT3DContext num) :
  valid_layout lut3d -> 0 < step lut3d.
Proof.
  unfold valid_layout. destruct (rgba_map lut3d) as [[[cr cg] cb] ca].
  now intros [H _].
Qed.

Lemma filter_row_loop_outside {num : Type} {FA : FloatArith num} (nbits : Z)
    (lut3d : LUT3DContext num) (direct : bool) (n : nat) (x0 : Z)
    (src dst dst' : list Z) :
  valid_layout lut3d ->
  filter_row_loop nbits lut3d direct n x0 src dst = Some dst' ->
  length dst' = length dst /\
  forall y, y < x0 \/ x0 + Z.of_nat n * step lut3d <= y ->
    sample_at dst' y = sample_at dst y.
Proof.
  intros Hlay. pose proof (valid_layout_step lut3d Hlay) as Hstep.
  revert x0 dst. induction n as [|n IH]; intros x0 dst Hrun.
  - injection Hrun as <-. auto.
  - cbn [filter_row_loop] in Hrun.
    destruct (filter_pixel nbits lut3d direct (if direct then dst else src) dst x0)
      as [dst1|] eqn:Epx; [|discriminate].
    cbn [mbind option_bind] in Hrun.
    destruct (IH _ _ Hrun) as [Hlen Hout].
    split.
    + rewrite Hlen. eapply filter_pixel_length; exact Epx.
    + intros y Hy. rewrite Hout by nia.
      eapply filter_pixel_outside; [exact Hlay|exact Epx|nia].
Qed.

Lemma filter_row_outside {num : Type} {FA : FloatArith num} (nbits : Z)
    (lut3d : LUT3DContext num) (direct : bool) (w : Z)
    (src dst dst' : list Z) :
  valid_layout lut3d -> 0 <= w ->
  filter_row nbits lut3d direct w src dst = Some dst' ->
  length dst' = length dst /\
  forall y, w * step lut3d <= y -> sample_at dst' y = sample_at dst y.
Proof.
  intros Hlay Hw Hrun. pose proof (valid_layout_step lut3d Hlay) as Hstep.
  unfold filter_row in Hrun.
  replace (0 <? step lut3d) with true in Hrun by (symmetry; apply Z.ltb_lt; lia).
  destruct (filter_row_loop_outside nbits lut3d direct _ _ _ _ _ Hlay Hrun)
    as [Hlen Hout].
  split; [exact Hlen|]. intros y Hy. apply Hout. right.
  rewrite Z2Nat.id by lia. lia.
Qed.

Lemma FILTER_rows_outside {num : Type} {FA : FloatArith num} (nbits : Z)
    (lut3d : LUT3DContext num) (direct : bool) (w : Z) (h : nat)
    (src dst out : list (list Z)) :
  valid_layout lut3d -> 0 <= w ->
  FILTER_rows nbits lut3d direct w h src dst = Some out ->
  length out = length dst /\
  forall y drow orow, dst !! y = Some drow -> out !! y = Some orow ->
    length orow = length drow /\
    ((h <= y)%nat -> orow = drow) /\
    forall x, w * step lut3d <= x -> sample_at orow x = sample_at drow x.
Proof.
  intros Hlay Hw. revert src dst out.
  induction h as [|h IH]; intros src dst out Hrun.
  - injection Hrun as <-. split; [reflexivity|].
    intros y drow orow Hd Ho. rewrite Hd in Ho. injection Ho as <-. auto.
  - cbn [FILTER_rows] in Hrun.
    destruct src as [|srow src]; [discriminate|].
    destruct dst as [|drow0 dst]; [discriminate|].
    destruct (filter_row nbits lut3d direct w srow drow0) as [row|] eqn:Erow;
      [|discriminate].
    cbn [mbind option_bind] in Hrun.
    destruct (FILTER_rows nbits lut3d direct w h src dst) as [rest|] eqn:Erest;
      [|discriminate].
    cbn [mbind option_bind] in Hrun. injection Hrun as <-.
    destruct (IH _ _ _ Erest) as [Hlen Hrows].
    destruct (filter_row_outside nbits lut3d direct w _ _ _ Hlay Hw Erow)
      as [Hrl Hro].
    split; [cbn [length]; now rewrite Hlen|].
    intros [|y] drow orow Hd Ho.
    + injection Hd as <-. injection Ho as <-.
      split; [exact Hrl|]. split; [lia|exact Hro].
    + cbn in Hd, Ho. destruct (Hrows y drow orow Hd Ho) as (L1 & L2 & L3).
      split; [exact L1|]. split; [intros Hy; apply L2; lia|exact L3].
Qed.

(** X15.  [filter_frame] writes nothing outside the [w] x [h] pixels: the
    picture it hands on has the rows of the picture it wrote into (the
    input when writable, else the new buffer), each of its length; the
    rows from [h] on and, in every row, the samples from [w * step] on are
    as they were. *)
Theorem filter_frame_keeps_padding {num : Type} {FA : FloatArith num}
    (lut3d : LUT3DContext num) (w h : Z) (in_ : list (list Z))
    (writable : bool) (buffer : option (list (list Z)))
    (out : list (list Z)) :
  valid_layout lut3d -> 0 <= w ->
  filter_frame lut3d w h in_ writable buffer = Some (inr out) ->
  let target := if writable then in_ else default [] buffer in
  length out = length target /\
  forall y trow orow,
    target !! y = Some trow -> out !! y = Some orow ->
    length orow = length trow /\
    (h <= Z.of_nat y -> orow = trow) /\
    forall x, w * step lut3d <= x -> sample_at orow x = sample_at trow x.
Proof.
  intros Hlay Hw Hrun target. unfold filter_frame in Hrun.
  assert (Hrows : exists direct,
            FILTER_rows (frame_bits lut3d) lut3d direct w (Z.to_nat h) in_ target
            = Some out).
  { unfold target. fold (frame_bits lut3d) in Hrun. destruct writable.
    - destruct (FILTER_rows _ lut3d true w (Z.to_nat h) in_ in_) as [o|] eqn:E;
        [|discriminate].
      injection Hrun as <-. eauto.
    - destruct buffer as [out0|]; [|discriminate].
      destruct (FILTER_rows _ lut3d false w (Z.to_nat h) in_ out0) as [o|] eqn:E;
        [|discriminate].
      injection Hrun as <-. eauto. }
  destruct Hrows as (direct & Hrows).
  destruct (FILTER_rows_outside _ _ _ _ _ _ _ _ Hlay Hw Hrows) as [Hlen Hall].
  split; [exact Hlen|].
  intros y trow orow Ht Ho. destruct (Hall y trow orow Ht Ho) as (L1 & L2 & L3).
  split; [exact L1|]. split; [intros Hy; apply L2; lia|exact L3].
Qed.

(** One pixel of a row of two, filtered in place: the second pixel and
    the length of the row stay. *)
Lemma filter_frame_keeps_padding_witness :
  exists out orow,
    filter_frame demo_rgba 1 1 demo_frame true None = Some (inr out) /\
    out !! 0%nat = Some orow /\
    length orow = 8%nat /\
    sample_at orow 4 = Some 0 /\ sample_at orow 7 = Some 200.
Proof.
  destruct (filter_frame demo_rgba 1 1 demo_frame true None)
    as [[e|out]|] eqn:E; try (vm_compute in E; discriminate).
  destruct (filter_frame_keeps_padding demo_rgba 1 1 demo_frame true None out)
    as [Hlen Hall].
  - vm_compute. repeat split; discriminate.
  - lia.
  - exact E.
  - destruct out as [|orow out]; [discriminate Hlen|].
    destruct (Hall 0%nat [255; 0; 128; 77; 0; 255; 64; 200] orow eq_refl eq_refl)
      as (L1 & _ & L3).
    exists (orow :: out), orow. split; [reflexivity|]. split; [reflexivity|].
    split; [exact L1|].
    split; [rewrite L3 by (vm_compute; discriminate)
           |rewrite L3 by (vm_compute; discriminate)]; reflexivity.
Defined.

(** ** The identity grid in binary32 *)

(** X16.  In binary32 the grid that [init] builds without a file is not the
    identity: the 8-bit pixel (1, 1, 1) comes back as (0, 0, 0) under each
    of the three strategies.  For the two interpolating ones the sample is
    just below 1/255, what [FILTER] multiplies by 255 and truncates. *)
Theorem default_lut_darkens_in_binary32 (fopen : string -> FILE + Z)
    (lut3d : LUT3DContext spec_float) (name : interp_mode) :
  file lut3d = None ->
  exists st vec,
    init fopen lut3d = Some (0, st) /\
    interp_func 8 name (ps_ctx st) 1 1 1 = Some vec /\
    to_int (fmul (r vec) (int_to_float 255)) = Some 0 /\
    to_int (fmul (g vec) (int_to_float 255)) = Some 0 /\
    to_int (fmul (b vec) (int_to_float 255)) = Some 0.
Proof.
  intros Hfile. unfold init. rewrite Hfile.
  destruct (set_identity_matrix_cells lut3d 32) as (l & -> & Hsz & Hcell).
  { unfold INT_MIN, MAX_LEVEL. lia. }
  cbn [mbind option_bind].
  assert (Hc : forall k j i, 0 <= k < 32 -> 0 <= j < 32 -> 0 <= i < 32 ->
            lut_at l k j i
            = Some (mk_rgbvec
                      (fmul (int_to_float k)
                         (double_to_float (ddiv (int_to_double 1) (int_to_double (32 - 1)))))
                      (fmul (int_to_float j)
                         (double_to_float (ddiv (int_to_double 1) (int_to_double (32 - 1)))))
                      (fmul (int_to_float i)
                         (double_to_float (ddiv (int_to_double 1) (int_to_double (32 - 1))))))).
  { intros k j i Hk Hj Hi. rewrite lut_at_cell by (unfold MAX_LEVEL; lia).
    rewrite Hcell. now rewrite decide_True by lia. }
  set (s := fmul (int_to_float 1)
              (double_to_float
                 (dmul (ddiv (int_to_double 1) (int_to_double (Z.shiftl 1 8 - 1)))
                       (int_to_double 31)))).
  assert (Hs : scaled_rgb 8 l 1 1 1 = Some (mk_rgbvec s s s)).
  { unfold scaled_rgb, interp_scale. rewrite Hsz. reflexivity. }
  assert (Hp : PREV s = Some 0) by (vm_compute; reflexivity).
  assert (Hn : NEXT s = Some 1) by (vm_compute; reflexivity).
  assert (Ha : NEAR s = Some 0) by (vm_compute; reflexivity).
  exists (mk_pstate l [] []). cbn [ps_ctx].
  unfold interp_func. rewrite Hs. cbn [mbind option_bind].
  destruct name; cbn [interp_by_name];
    unfold interp_nearest, interp_trilinear, interp_tetrahedral, remainder;
    cbn [r g b]; rewrite ?Hp, ?Hn, ?Ha; cbn [mbind option_bind];
    rewrite !Hc by lia; cbn [mbind option_bind];
    eexists; (split; [reflexivity|]); (split; [reflexivity|]);
    vm_compute; auto.
Qed.

Lemma default_lut_darkens_in_binary32_witness :
  exists st vec,
    init (fun _ => inr 2) (zero_context (num := spec_float)) = Some (0, st) /\
    interp_func 8 INTERPOLATE_TETRAHEDRAL (ps_ctx st) 1 1 1 = Some vec /\
    to_int (fmul (r vec) (int_to_float 255)) = Some 0 /\
    to_int (fmul (g vec) (int_to_float 255)) = Some 0 /\
    to_int (fmul (b vec) (int_to_float 255)) = Some 0.
Proof.
  exact (default_lut_darkens_in_binary32 (fun _ => inr 2) zero_context
           INTERPOLATE_TETRAHEDRAL eq_refl).
Defined.

(** ** The [values] line of a .m3d file *)

Lemma append_cons (c : ascii) (s t : string) :
  String c s ++ t = String c (s ++ t).
Proof. reflexivity. Qed.

Lemma append_empty (t : string) : "" ++ t = t.
Proof. reflexivity. Qed.

Lemma skip_nonspaces_word (w : string) (sep : ascii) (s : string) :
  no_space w = true -> av_isspace sep = true ->
  skip_nonspaces (w ++ String sep s) = String sep s.
Proof.
  intros Hw Hsep. induction w as [|c w IH].
  - rewrite append_empty. cbn [skip_nonspaces]. now rewrite Hsep.
  - cbn [no_space] in Hw. rewrite append_cons. cbn [skip_nonspaces].
    apply andb_true_iff in Hw as [Hc Hw].
    apply negb_true_iff in Hc. rewrite Hc. now apply IH.
Qed.

Lemma color_index_set (w : string) (m : Z * Z * Z) (id : Z) :
  match w with
  | String "r" _ => arr3_set m id 0
  | String "g" _ => arr3_set m id 1
  | String "b" _ => arr3_set m id 2
  | _ => m
  end
  = arr3_set m id (color_index w (arr3_get m id)).
Proof.
  assert (Hsame : arr3_set m id (arr3_get m id) = m).
  { destruct m as [[a0 a1] a2]. unfold arr3_set, arr3_get.
    destruct (id =? 0); [reflexivity|]. destruct (id =? 1); reflexivity. }
  destruct w as [|c w]; [symmetry; exact Hsame|].
  destruct (Ascii.eqb_spec c "r") as [->|Hr]; [reflexivity|].
  destruct (Ascii.eqb_spec c "g") as [->|Hg]; [reflexivity|].
  destruct (Ascii.eqb_spec c "b") as [->|Hb]; [reflexivity|].
  assert (Hc : color_index (String c w) (arr3_get m id) = arr3_get m id).
  { destruct c as [[|] [|] [|] [|] [|] [|] [|] [|]];
      first [reflexivity | congruence]. }
  rewrite Hc, Hsame.
  destruct c as [[|] [|] [|] [|] [|] [|] [|] [|]];
    first [reflexivity | congruence].
Qed.

Lemma SET_COLOR_word (id : Z) (w : string) (sep1 sep2 : ascii) (s : string)
    (m : Z * Z * Z) :
  is_word w -> av_isspace sep1 = true -> av_isspace sep2 = true ->
  SET_COLOR id (String sep1 (w ++ String sep2 s)) m
  = (String sep2 s, arr3_set m id (color_index w (arr3_get m id))).
Proof.
  intros [Hne Hw] H1 H2. rewrite <- color_index_set.
  unfold SET_COLOR. cbn [skip_spaces]. rewrite H1.
  destruct w as [|c w]; [congruence|].
  pose proof Hw as Hw'. cbn [no_space] in Hw'.
  apply andb_true_iff in Hw' as [Hc _].
  apply negb_true_iff in Hc.
  rewrite append_cons. cbn [skip_spaces]. rewrite Hc.
  rewrite <- append_cons.
  rewrite (skip_nonspaces_word _ _ _ Hw H2). reflexivity.
Qed.

(** X17.  The [values] line sets the channel map by the first letters of its
    three words: r, g, b select column 0, 1, 2; the rest of a word is not
    looked at, and a word that begins with another letter leaves its entry
    as it was.  Nothing requires the three entries to differ. *)
Theorem m3d_values_line_map (w0 w1 w2 : string) (post : FILE) (in_ out : Z)
    (m0 m1 m2 : Z) :
  is_word w0 -> is_word w1 -> is_word w2 ->
  let line := "values " ++ w0 ++ " " ++ w1 ++ " " ++ w2 ++ nl in
  let h := parse_m3d_header (line :: post) in_ out (m0, m1, m2) in
  h_rgb_map h = (color_index w0 m0, color_index w1 m1, color_index w2 m2) /\
  h_in h = in_ /\ h_out h = out /\ h_file h = post.
Proof.
  intros H0 H1 H2 line h. subst h line.
  assert (E : "values " ++ w0 ++ " " ++ w1 ++ " " ++ w2 ++ nl
              = String "v" (String "a" (String "l" (String "u" (String "e"
                  (String "s" (String " "
                     (w0 ++ String " " (w1 ++ String " " (w2 ++ nl)))))))))).
  { reflexivity. }
  rewrite E. clear E.
  cbn [parse_m3d_header strncmp_zero Ascii.eqb Bool.eqb andb string_drop].
  rewrite (SET_COLOR_word 0 w0 " " " " _ _ H0 eq_refl eq_refl).
  rewrite (SET_COLOR_word 1 w1 " " " " _ _ H1 eq_refl eq_refl).
  unfold nl.
  rewrite (SET_COLOR_word 2 w2 " " "010" _ _ H2 eq_refl eq_refl).
  cbn [h_rgb_map h_in h_out h_file]. auto.
Qed.

(** Words are read by their first letter only, and may repeat a
    channel. *)
Lemma m3d_values_line_map_witness :
  h_rgb_map (parse_m3d_header
               [("values " ++ "blue" ++ " " ++ "green" ++ " " ++ "black" ++ nl)]
               8 256 (0, 1, 7))
  = (2, 1, 2).
Proof.
  apply (m3d_values_line_map "blue" "green" "black" [] 8 256 0 1 7);
    split; (discriminate || reflexivity).
Defined.

(** ** In place or into a buffer *)

Lemma filter_frame_pixel {num : Type} {FA : FloatArith num}
    (lut3d : LUT3DContext num) (w h : Z) (in_ : list (list Z))
    (writable : bool) (buffer : option (list (list Z)))
    (out : list (list Z)) (y p : Z) :
  valid_layout lut3d ->
  filter_frame lut3d w h in_ writable buffer = Some (inr out) ->
  0 <= y < h -> 0 <= p < w ->
  let x := p * step lut3d in
  exists row_in row_out vr vg vb,
    in_ !! Z.to_nat y = Some row_in /\
    out !! Z.to_nat y = Some row_out /\
    mapped_pixel (frame_bits lut3d) lut3d row_in x = Some (vr, vg, vb) /\
    sample_at row_out (x + (rgba_map lut3d).1.1.1) = Some vr /\
    sample_at row_out (x + (rgba_map lut3d).1.1.2) = Some vg /\
    sample_at row_out (x + (rgba_map lut3d).1.2) = Some vb /\
    (step lut3d = 4 ->
     sample_at row_out (x + (rgba_map lut3d).2) =
     sample_at row_in (x + (rgba_map lut3d).2)).
Proof.
  intros Hlay Hrun Hy Hp x. unfold filter_frame in Hrun.
  fold (frame_bits lut3d) in Hrun.
  assert (Hrows : exists direct dst,
            FILTER_rows (frame_bits lut3d) lut3d direct w (Z.to_nat h) in_ dst
            = Some out /\
            (direct = true -> dst = in_)).
  { destruct writable.
    - destruct (FILTER_rows _ lut3d true w (Z.to_nat h) in_ in_) as [o|] eqn:E;
        [|discriminate].
      injection Hrun as <-. exists true, in_. auto.
    - destruct buffer as [out0|]; [|discriminate].
      destruct (FILTER_rows _ lut3d false w (Z.to_nat h) in_ out0) as [o|] eqn:E;
        [|discriminate].
      injection Hrun as <-. exists false, out0. split; [exact E|discriminate]. }
  destruct Hrows as (direct & dst & Hrows & Hdirect).
  destruct (FILTER_rows_spec _ lut3d direct w _ in_ dst out Hrows (Z.to_nat y))
    as (srow & drow & orow & Hs & Hd & Ho & Hrow); [lia|].
  assert (Hbase : (if direct then drow else srow) = srow).
  { destruct direct; [|reflexivity]. rewrite Hdirect in Hd by reflexivity.
    congruence. }
  destruct (filter_row_spec _ lut3d direct w srow drow orow Hlay Hrow p Hp)
    as (vr & vg & vb & Hm & H1 & H2 & H3 & H4).
  rewrite Hbase in Hm, H4.
  exists srow, orow, vr, vg, vb.
  split; [exact Hs|]. split; [exact Ho|]. split; [exact Hm|].
  split; [exact H1|]. split; [exact H2|]. split; [exact H3|exact H4].
Qed.

(** X18.  Whether [filter_frame] works in place or into a new buffer, the
    pixels it hands on are the same: R, G, B are computed from the input
    alike, and with four components the alpha of the input is what the
    buffer gets and what stays in place. *)
Theorem filter_frame_copy_agrees {num : Type} {FA : FloatArith num}
    (lut3d : LUT3DContext num) (w h : Z) (in_ buffer : list (list Z))
    (out_place out_copy : list (list Z)) (y p : Z) :
  valid_layout lut3d ->
  filter_frame lut3d w h in_ true None = Some (inr out_place) ->
  filter_frame lut3d w h in_ false (Some buffer) = Some (inr out_copy) ->
  0 <= y < h -> 0 <= p < w ->
  let x := p * step lut3d in
  exists row_place row_copy,
    out_place !! Z.to_nat y = Some row_place /\
    out_copy !! Z.to_nat y = Some row_copy /\
    sample_at row_place (x + (rgba_map lut3d).1.1.1)
    = sample_at row_copy (x + (rgba_map lut3d).1.1.1) /\
    sample_at row_place (x + (rgba_map lut3d).1.1.2)
    = sample_at row_copy (x + (rgba_map lut3d).1.1.2) /\
    sample_at row_place (x + (rgba_map lut3d).1.2)
    = sample_at row_copy (x + (rgba_map lut3d).1.2) /\
    (step lut3d = 4 ->
     sample_at row_place (x + (rgba_map lut3d).2)
     = sample_at row_copy (x + (rgba_map lut3d).2)).
Proof.
  intros Hlay Hplace Hcopy Hy Hp x.
  destruct (filter_frame_pixel lut3d w h in_ true None out_place y p
              Hlay Hplace Hy Hp)
    as (rin & rp & vr & vg & vb & I1 & O1 & M1 & R1 & G1 & B1 & A1).
  destruct (filter_frame_pixel lut3d w h in_ false (Some buffer) out_copy y p
              Hlay Hcopy Hy Hp)
    as (rin' & rc & vr' & vg' & vb' & I2 & O2 & M2 & R2 & G2 & B2 & A2).
  fold x in M1, R1, G1, B1, A1, M2, R2, G2, B2, A2.
  assert (rin' = rin) by congruence. subst rin'.
  rewrite M1 in M2. injection M2 as <- <- <-.
  exists rp, rc. split; [exact O1|]. split; [exact O2|].
  split; [congruence|]. split; [congruence|]. split; [congruence|].
  intros E4. rewrite A1, A2 by exact E4. reflexivity.
Qed.

(** A picture of one row and two pixels, filtered both ways. *)
Lemma filter_frame_copy_agrees_witness :
  exists out_place out_copy row_place row_copy,
    filter_frame demo_rgba 2 1 demo_frame true None = Some (inr out_place) /\
    filter_frame demo_rgba 2 1 demo_frame false (Some demo_buffer)
    = Some (inr out_copy) /\
    out_place !! 0%nat = Some row_place /\
    out_copy !! 0%nat = Some row_copy /\
    sample_at row_place 4 = sample_at row_copy 4 /\
    sample_at row_place 7 = sample_at row_copy 7.
Proof.
  destruct (filter_frame demo_rgba 2 1 demo_frame true None)
    as [[e|out_place]|] eqn:E1.
  1: (vm_compute in E1; discriminate).
  2: (vm_compute in E1; discriminate).
  destruct (filter_frame demo_rgba 2 1 demo_frame false (Some demo_buffer))
    as [[e|out_copy]|] eqn:E2.
  1: (vm_compute in E2; discriminate).
  2: (vm_compute in E2; discriminate).
  destruct (filter_frame_copy_agrees demo_rgba 2 1 demo_frame demo_buffer
              out_place out_copy 0 1)
    as (row_place & row_copy & O1 & O2 & HR & _ & _ & HA).
  - vm_compute. repeat split; discriminate.
  - exact E1.
  - exact E2.
  - lia.
  - lia.
  - exists out_place, out_copy, row_place, row_copy.
    split; [reflexivity|]. split; [reflexivity|].
    split; [exact O1|]. split; [exact O2|].
    split; [exact HR|]. apply HA. reflexivity.
Defined.
